(** * Pack index, pack file and delta-chain access of got (lib/pack.c)

    A shallow embedding of [lib/pack.c]: the pack index loader and its
    lookups, the variable-length object header decoders, delta-chain
    resolution, the pack and delta caches of the repository handle, and the
    two materialisation paths (to a file, to memory).

    Conventions of the embedding.
    - A byte is a [Z] in [0, 256); a file is a [list Z].
    - A [uint32_t]/[uint64_t] is a [Z] with the wrap-around written out.
      Fields the C code keeps in big-endian form and reads through
      [betoh32]/[betoh64] are stored here as the decoded number.
    - A [FILE *] is a stream identifier into the table of open streams of
      the [state]; the functions that only read one stream are written over
      the stream value itself ([FILE]) and lifted with [on_file].
    - A C function returning [const struct got_error *] is a computation in
      the monad [M]: it finishes with a value ([Done]), finishes with an
      error code ([Fail]), runs into C undefined behaviour ([Undefined]), or
      exhausts the recursion budget of the model ([OutOfFuel]). *)

From stdpp Require Import base gmap strings list.
From Stdlib Require Import ZArith Lia.

Open Scope Z_scope.

(** ** Error codes (got_error.h), as far as lib/pack.c uses them *)

Inductive got_error_code : Set :=
| GOT_ERR_ERRNO          (* got_error_from_errno() *)
| GOT_ERR_NO_MEM
| GOT_ERR_NOT_IMPL
| GOT_ERR_NO_SPACE
| GOT_ERR_BAD_PATH
| GOT_ERR_BAD_PACKIDX
| GOT_ERR_PACKIDX_CSUM
| GOT_ERR_BAD_PACKFILE
| GOT_ERR_NO_OBJ
| GOT_ERR_IO
| GOT_ERR_BAD_DELTA_CHAIN
| GOT_ERR_OBJ_NOT_PACKED
| GOT_ERR_FILE_OPEN.

Inductive result (A : Type) : Type :=
| Ok (a : A)
| Err (e : got_error_code).
Arguments Ok {A} a.
Arguments Err {A} e.

(** ** Object types and header constants *)

(** Modelled from the spec: the constants of got_object.h and
    got_pack_lib.h, which are not under src/. Type codes: 1=Commit, 2=Tree,
    3=Blob, 4=Tag, 6=OFS delta, 7=REF delta. First header byte: 3 type bits
    and 4 low size bits; later bytes 7 size bits; the top bit continues. *)
Definition GOT_OBJ_TYPE_COMMIT : Z := 1.
Definition GOT_OBJ_TYPE_TREE : Z := 2.
Definition GOT_OBJ_TYPE_BLOB : Z := 3.
Definition GOT_OBJ_TYPE_TAG : Z := 4.
Definition GOT_OBJ_TYPE_OFFSET_DELTA : Z := 6.
Definition GOT_OBJ_TYPE_REF_DELTA : Z := 7.

Definition GOT_PACK_OBJ_SIZE_MORE : Z := 0x80.
Definition GOT_PACK_OBJ_SIZE0_TYPE_MASK : Z := 0x70.
Definition GOT_PACK_OBJ_SIZE0_TYPE_MASK_SHIFT : Z := 4.
Definition GOT_PACK_OBJ_SIZE0_VAL_MASK : Z := 0x0f.
Definition GOT_PACK_OBJ_SIZE_VAL_MASK : Z := 0x7f.
Definition GOT_PACK_OBJ_DELTA_OFF_MORE : Z := 0x80.
Definition GOT_PACK_OBJ_DELTA_OFF_VAL_MASK : Z := 0x7f.

(** Modelled from the spec: the index constants of got_pack_lib.h. An
    offset entry with its most significant bit set is an index into the
    large-offset table; the other 31 bits are the value. *)
Definition GOT_PACKIDX_V2_MAGIC : Z := 0xff744f63.
Definition GOT_PACKIDX_VERSION : Z := 2.
Definition GOT_PACKIDX_OFFSET_VAL_MASK : Z := 0x7fffffff.
Definition GOT_PACKIDX_OFFSET_VAL_IS_LARGE_IDX : Z := 0x80000000.
Definition GOT_PACKFILE_SIGNATURE : Z := 0x5041434b. (* 'PACK' *)
Definition GOT_PACKFILE_VERSION : Z := 2.
Definition SHA1_DIGEST_LENGTH : nat := 20.

(** ** C integer conversions *)

Definition to_uint32 (x : Z) : Z := x mod 2 ^ 32.
Definition to_uint64 (x : Z) : Z := x mod 2 ^ 64.
Definition to_int32 (x : Z) : Z := (x + 2 ^ 31) mod 2 ^ 32 - 2 ^ 31.
Definition to_int64 (x : Z) : Z := (x + 2 ^ 63) mod 2 ^ 64 - 2 ^ 63.
Definition INT64_MAX : Z := 2 ^ 63 - 1.

(** ** Streams

    A stream holds the bytes of the file it was opened on and a position.
    Reads fail only at the end of the file, so [got_ferror f code], which
    prefers the stream's error indicator over [code], is [code]. *)

Record FILE : Type := mkFILE { f_data : list Z; f_pos : Z }.

Definition got_ferror (f : FILE) (code : got_error_code) : got_error_code := code.

(** [fread(ptr, size, nmemb, f)]: the bytes of the complete items read,
    their number, and the stream after the transfer. *)
Definition fread (size nmemb : Z) (f : FILE) : list Z * Z * FILE :=
  let avail := drop (Z.to_nat (f_pos f)) (f_data f) in
  let have := Z.of_nat (length avail) in
  let n := if size =? 0 then 0 else Z.min nmemb (have / size) in
  let moved := Z.min (size * nmemb) have in
  (take (Z.to_nat (n * size)) avail, n, mkFILE (f_data f) (f_pos f + moved)).

(** [fseeko(f, off, SEEK_SET)]: fails on a negative offset; seeking past the
    end is allowed. *)
Definition fseeko (off : Z) (f : FILE) : option FILE :=
  if off <? 0 then None else Some (mkFILE (f_data f) off).

Definition ftello (f : FILE) : Z := f_pos f.
Definition rewind (f : FILE) : FILE := mkFILE (f_data f) 0.

(** [fwrite(buf, 1, len, f)]: overwrites from the position on and extends
    the file; what lies beyond the written range stays. *)
Definition fwrite (buf : list Z) (f : FILE) : FILE :=
  let p := Z.to_nat (f_pos f) in
  let d := f_data f in
  let pad := repeat 0 (p - length d)%nat in
  mkFILE (take p d ++ pad ++ buf ++ drop (p + length buf)%nat d)
         (f_pos f + Z.of_nat (length buf)).

(** ** Object headers in a pack file *)

(** The [do ... while] loop of [parse_object_type_and_size], entered with
    loop counter [i] and the accumulators [t] and [s]. [n] bounds the
    iterations that remain; the guard [i > 9] fires before it runs out.
    The C expression shifts a promoted [uint8_t]; the model reads it at
    the width of [s]. *)
Fixpoint parse_object_type_and_size_from (n : nat) (i t s : Z) (packfile : FILE)
  : result (Z * Z * Z) * FILE :=
  (* We do not support size values which don't fit in 64 bit. *)
  if 9 <? i then (Err GOT_ERR_NO_SPACE, packfile) else
  match fread 1 1 packfile with
  | (sizeN :: _, 1, packfile') =>
      let '(t', s') :=
        if i =? 0 then
          (Z.shiftr (Z.land sizeN GOT_PACK_OBJ_SIZE0_TYPE_MASK)
                    GOT_PACK_OBJ_SIZE0_TYPE_MASK_SHIFT,
           Z.land sizeN GOT_PACK_OBJ_SIZE0_VAL_MASK)
        else
          let shift := 4 + 7 * (i - 1) in
          (t, to_uint64 (Z.lor s (Z.shiftl (Z.land sizeN GOT_PACK_OBJ_SIZE_VAL_MASK) shift)))
      in
      if Z.land sizeN GOT_PACK_OBJ_SIZE_MORE =? 0
      then (Ok (t', s', i + 1), packfile')
      else match n with
           | S n' => parse_object_type_and_size_from n' (i + 1) t' s' packfile'
           | O => (Err GOT_ERR_NO_SPACE, packfile')
           end
  | (_, _, packfile') => (Err (got_ferror packfile' GOT_ERR_BAD_PACKIDX), packfile')
  end.

(** Returns [(type, size, len)]. *)
Definition parse_object_type_and_size (packfile : FILE) : result (Z * Z * Z) * FILE :=
  parse_object_type_and_size_from 10 0 0 0 packfile.

(** The loop of [parse_negative_offset]; [o] is an [int64_t]. *)
Fixpoint parse_negative_offset_from (n : nat) (i o : Z) (packfile : FILE)
  : result (Z * Z) * FILE :=
  (* We do not support offset values which don't fit in 64 bit. *)
  if 8 <? i then (Err GOT_ERR_NO_SPACE, packfile) else
  match fread 1 1 packfile with
  | (offN :: _, 1, packfile') =>
      let o' :=
        if i =? 0 then Z.land offN GOT_PACK_OBJ_DELTA_OFF_VAL_MASK
        else to_int64 (to_int64 (Z.shiftl (to_int64 (o + 1)) 7)
                       + Z.land offN GOT_PACK_OBJ_DELTA_OFF_VAL_MASK)
      in
      if Z.land offN GOT_PACK_OBJ_DELTA_OFF_MORE =? 0
      then (Ok (o', i + 1), packfile')
      else match n with
           | S n' => parse_negative_offset_from n' (i + 1) o' packfile'
           | O => (Err GOT_ERR_NO_SPACE, packfile')
           end
  | (_, _, packfile') => (Err (got_ferror packfile' GOT_ERR_BAD_PACKIDX), packfile')
  end.

(** Returns [(offset, len)]. *)
Definition parse_negative_offset (packfile : FILE) : result (Z * Z) * FILE :=
  parse_negative_offset_from 9 0 0 packfile.

(** Returns the base object's offset; [offset] is the delta's own. *)
Definition parse_offset_delta (packfile : FILE) (offset : Z) : result Z * FILE :=
  match parse_negative_offset packfile with
  | (Err e, packfile') => (Err e, packfile')
  | (Ok (negoffset, negofflen), packfile') =>
      (* Compute the base object's offset (must be in the same pack file). *)
      let base_offset := to_int64 (offset - negoffset) in
      if base_offset <=? 0 then (Err GOT_ERR_BAD_PACKFILE, packfile')
      else (Ok base_offset, packfile')
  end.

(** ** SHA-1 (sha1.h of the C library), FIPS 180-4

    [SHA1Init], [SHA1Update] and [SHA1Final] hash the concatenation of the
    updates; [SHA1] is the digest of that byte sequence. *)

Module SHA1.

Definition add32 (x y : Z) : Z := (x + y) mod 2 ^ 32.
Definition rotl32 (n x : Z) : Z :=
  Z.lor (Z.shiftl x n mod 2 ^ 32) (Z.shiftr x (32 - n)).
Definition not32 (x : Z) : Z := 2 ^ 32 - 1 - x.

(** Big-endian encoding of [x] on [n] bytes. *)
Fixpoint be_bytes (n : nat) (x : Z) : list Z :=
  match n with
  | O => []
  | S n' => Z.shiftr x (8 * Z.of_nat n') mod 256 :: be_bytes n' x
  end.

Definition be_word (bs : list Z) : Z :=
  fold_left (fun acc b => acc * 256 + b) bs 0.

Definition pad (msg : list Z) : list Z :=
  let len := Z.of_nat (length msg) in
  let k := (55 - len) mod 64 in
  msg ++ [0x80] ++ repeat 0 (Z.to_nat k) ++ be_bytes 8 (8 * len).

Fixpoint words (n : nat) (bs : list Z) : list Z :=
  match n with
  | O => []
  | S n' => be_word (take 4 bs) :: words n' (drop 4 bs)
  end.

(** The message schedule, most recent word first. *)
Fixpoint schedule (n : nat) (rev_w : list Z) : list Z :=
  match n with
  | O => rev_w
  | S n' =>
      let x := Z.lxor (Z.lxor (nth 2 rev_w 0) (nth 7 rev_w 0))
                      (Z.lxor (nth 13 rev_w 0) (nth 15 rev_w 0)) in
      schedule n' (rotl32 1 x :: rev_w)
  end.

Definition f (t b c d : Z) : Z :=
  if t <? 20 then Z.lor (Z.land b c) (Z.land (not32 b) d)
  else if t <? 40 then Z.lxor (Z.lxor b c) d
  else if t <? 60 then Z.lor (Z.lor (Z.land b c) (Z.land b d)) (Z.land c d)
  else Z.lxor (Z.lxor b c) d.

Definition K (t : Z) : Z :=
  if t <? 20 then 0x5a827999
  else if t <? 40 then 0x6ed9eba1
  else if t <? 60 then 0x8f1bbcdc
  else 0xca62c1d6.

Definition hash_state : Type := Z * Z * Z * Z * Z.

Fixpoint rounds (t : Z) (w : list Z) (st : hash_state) : hash_state :=
  match w with
  | [] => st
  | wt :: w' =>
      let '(a, b, c, d, e) := st in
      let temp := add32 (add32 (add32 (add32 (rotl32 5 a) (f t b c d)) e) (K t)) wt in
      rounds (t + 1) w' (temp, a, rotl32 30 b, c, d)
  end.

Definition block (st : hash_state) (bs : list Z) : hash_state :=
  let w := rev (schedule 64 (rev (words 16 bs))) in
  let '(a, b, c, d, e) := st in
  let '(a', b', c', d', e') := rounds 0 w st in
  (add32 a a', add32 b b', add32 c c', add32 d d', add32 e e').

Fixpoint blocks (n : nat) (st : hash_state) (bs : list Z) : hash_state :=
  match n with
  | O => st
  | S n' => blocks n' (block st (take 64 bs)) (drop 64 bs)
  end.

Definition init : hash_state :=
  (0x67452301, 0xefcdab89, 0x98badcfe, 0x10325476, 0xc3d2e1f0).

Definition digest (msg : list Z) : list Z :=
  let p := pad msg in
  let '(a, b, c, d, e) := blocks (length p / 64) init p in
  be_bytes 4 a ++ be_bytes 4 b ++ be_bytes 4 c ++ be_bytes 4 d ++ be_bytes 4 e.

End SHA1.

Definition SHA1 (msg : list Z) : list Z := SHA1.digest msg.

(** ** The pack index (struct got_packidx_v2_hdr of got_pack_lib.h) *)

Definition got_object_id : Type := list Z. (* sha1[SHA1_DIGEST_LENGTH] *)

Record got_packidx_trailer : Type := mkTrailer {
  packfile_sha1 : list Z;
  packidx_sha1 : list Z
}.

Record got_packidx_v2_hdr : Type := mkPackidx {
  magic : Z;
  version : Z;
  fanout_table : list Z;            (* 256 entries *)
  sorted_ids : list got_object_id;
  crc32 : list Z;
  offsets : list Z;
  large_offsets : option (list Z);  (* None is the NULL pointer *)
  trailer : got_packidx_trailer
}.

(** A big-endian field of [raw] bytes, as [betoh32]/[betoh64] read it. *)
Definition betoh (raw : list Z) : Z := SHA1.be_word raw.

(** The first [n] items of [size] bytes each. *)
Fixpoint items (n size : nat) (raw : list Z) : list (list Z) :=
  match n with
  | O => []
  | S n' => take size raw :: items n' size (drop size raw)
  end.

(** The [for] loop of [verify_fanout_table] over the indices [ix]. *)
Fixpoint verify_fanout_table_loop (ix : list nat) (fanout_table : list Z)
  : result unit :=
  match ix with
  | [] => Ok ()
  | i :: ix' =>
      if fanout_table !!! i >? fanout_table !!! (i + 1)%nat
      then Err GOT_ERR_BAD_PACKIDX
      else verify_fanout_table_loop ix' fanout_table
  end.

Definition verify_fanout_table (fanout_table : list Z) : result unit :=
  (* for (i = 0; i < 0xff - 1; i++) *)
  verify_fanout_table_loop (seq 0 (0xff - 1)) fanout_table.

(** Modelled from the spec: [got_object_id_cmp] of lib/object.c, which is
    not under src/: the lexicographic order over the bytes (memcmp). *)
Fixpoint got_object_id_cmp (id1 id2 : got_object_id) : Z :=
  match id1, id2 with
  | [], [] => 0
  | [], _ :: _ => -1
  | _ :: _, [] => 1
  | a :: id1', b :: id2' =>
      if a <? b then -1 else if b <? a then 1 else got_object_id_cmp id1' id2'
  end.

(** An array read [a[i]] with an [int] index; [None] is a read outside the
    array. *)
Definition array_get {A : Type} (a : list A) (i : Z) : option A :=
  if i <? 0 then None else a !! Z.to_nat i.

(** [get_object_offset]: [None] when the function reads outside an array;
    [Some (-1)] is its error return. *)
Definition get_object_offset (packidx : got_packidx_v2_hdr) (idx : Z) : option Z :=
  let totobj := fanout_table packidx !!! 0xff%nat in
  match array_get (offsets packidx) idx with
  | None => None
  | Some offset =>
      if negb (Z.land offset GOT_PACKIDX_OFFSET_VAL_IS_LARGE_IDX =? 0) then
        let idx := Z.land offset GOT_PACKIDX_OFFSET_VAL_MASK in
        match large_offsets packidx with
        | None => Some (-1)
        | Some large =>
            if (idx <? 0) || (to_uint32 idx >? totobj) then Some (-1)
            else match array_get large idx with
                 | None => None
                 | Some loffset => Some (if loffset >? INT64_MAX then -1 else loffset)
                 end
        end
      else Some (Z.land offset GOT_PACKIDX_OFFSET_VAL_MASK)
  end.

(** The [while] loop of [get_object_idx]; [i] is an [int], compared with the
    [uint32_t totobj] as unsigned. [n] bounds the iterations that remain. *)
Fixpoint get_object_idx_loop (n : nat) (i totobj : Z)
    (sorted_ids : list got_object_id) (id : got_object_id) : option Z :=
  if to_uint32 i <? totobj then
    match n with
    | O => None
    | S n' =>
        match array_get sorted_ids i with
        | None => None
        | Some oid =>
            let cmp := got_object_id_cmp id oid in
            if cmp =? 0 then Some i
            else get_object_idx_loop n' (to_int32 (i + 1)) totobj sorted_ids id
        end
    end
  else Some (-1).

(** [get_object_idx]: [None] when the scan reads outside [sorted_ids];
    [Some (-1)] is "not found". *)
Definition get_object_idx (packidx : got_packidx_v2_hdr) (id : got_object_id)
  : option Z :=
  let id0 := id !!! 0%nat in
  let totobj := fanout_table packidx !!! 0xff%nat in
  let i := if id0 >? 0
           then to_int32 (fanout_table packidx !!! Z.to_nat (id0 - 1))
           else 0 in
  get_object_idx_loop (Z.to_nat totobj) i totobj (sorted_ids packidx) id.

(** ** Delta chains and objects (got_delta_lib.h, got_object_lib.h) *)

Record got_delta : Type := mkDelta {
  d_path_packfile : string;
  d_offset : Z;
  d_tslen : Z;
  d_type : Z;
  d_size : Z;
  d_data_offset : Z
}.

(** [entries] is the SIMPLEQ, head first. *)
Record got_delta_chain : Type := mkChain {
  nentries : Z;
  entries : list got_delta
}.

(** Modelled from the spec: the flag bits of got_object_lib.h, which is not
    under src/: two distinct bits, Packed and Deltified. *)
Definition GOT_OBJ_FLAG_PACKED : Z := 1.
Definition GOT_OBJ_FLAG_DELTIFIED : Z := 2.

Record got_object : Type := mkObject {
  o_type : Z;
  o_flags : Z;
  o_hdrlen : Z;
  o_size : Z;
  o_id : got_object_id;
  o_path_packfile : string;
  o_pack_offset : Z;
  o_deltas : got_delta_chain
}.

(** ** The repository handle and the state of the process *)

(** Modelled from the spec: the cache dimensions of got_repository_lib.h,
    which is not under src/: 4 packs, and 4 x 256 deltas. *)
Definition GOT_PACK_CACHE_SIZE : nat := 4.
Definition GOT_DELTA_CACHE_SIZE : nat := 4.
Definition GOT_DELTA_CACHE_ENTRIES : nat := 256.

(** One slot of [repo->pack_cache]; a slot is free when [pc_packidx] is
    NULL. [pc_packfile] is the stream identifier. *)
Record got_pack_cache_entry : Type := mkPackCacheEntry {
  pc_packidx : option got_packidx_v2_hdr;
  pc_packfile : nat;
  pc_path_packfile : string
}.

Definition empty_pack_cache_entry : got_pack_cache_entry :=
  mkPackCacheEntry None 0 "".

(** One slot of a delta cache; free when [dce_data_offset] is 0. *)
Record got_delta_cache_entry : Type := mkDeltaCacheEntry {
  dce_data_offset : Z;
  dce_delta_buf : option (list Z);
  dce_delta_len : Z
}.

Record got_delta_cache : Type := mkDeltaCache {
  dc_path_packfile : option string;
  dc_deltas : list got_delta_cache_entry   (* GOT_DELTA_CACHE_ENTRIES slots *)
}.

Record got_repository : Type := mkRepo {
  path_git_dir : string;
  pack_cache : list got_pack_cache_entry;  (* GOT_PACK_CACHE_SIZE slots *)
  delta_cache : list got_delta_cache       (* GOT_DELTA_CACHE_SIZE slots *)
}.

(** The process state: the files and directories on disk, the open
    streams, the next stream identifier, an oracle for the requests that
    may be refused (allocations, temporary files; the head answers the next
    request, an exhausted oracle grants), and the repository handle. *)
Record state : Type := mkState {
  st_fs : gmap string (list Z);
  st_dirs : gmap string (list string);
  st_open : gmap nat FILE;
  st_next : nat;
  st_oracle : list bool;
  st_repo : got_repository
}.

Inductive outcome (A : Type) : Type :=
| Done (a : A) (s : state)
| Fail (e : got_error_code) (s : state)
| Undefined
| OutOfFuel.
Arguments Done {A} a s.
Arguments Fail {A} e s.
Arguments Undefined {A}.
Arguments OutOfFuel {A}.

Definition M (A : Type) : Type := state -> outcome A.

#[global] Instance M_ret : MRet M := fun A a s => Done a s.
#[global] Instance M_bind : MBind M := fun A B k m s =>
  match m s with
  | Done a s' => k a s'
  | Fail e s' => Fail e s'
  | Undefined => Undefined
  | OutOfFuel => OutOfFuel
  end.

Definition fail {A : Type} (e : got_error_code) : M A := fun s => Fail e s.
Definition undefined {A : Type} : M A := fun _ => Undefined.

(** Runs [m] and hands its error to the continuation: the C idiom
    [err = ...; goto done; done: cleanup]. *)
Definition attempt {A : Type} (m : M A) : M (result A) := fun s =>
  match m s with
  | Done a s' => Done (Ok a) s'
  | Fail e s' => Done (Err e) s'
  | Undefined => Undefined
  | OutOfFuel => OutOfFuel
  end.

Definition of_result {A : Type} (r : result A) : M A :=
  match r with Ok a => mret a | Err e => fail e end.

Definition get_repo : M got_repository := fun s => Done (st_repo s) s.
Definition put_repo (r : got_repository) : M unit := fun s =>
  Done () (mkState (st_fs s) (st_dirs s) (st_open s) (st_next s) (st_oracle s) r).

(** An allocation ([malloc], [calloc], [strdup], [asprintf], ...):
    [true] when it is granted. *)
Definition alloc : M bool := fun s =>
  match st_oracle s with
  | [] => Done true s
  | b :: o => Done b (mkState (st_fs s) (st_dirs s) (st_open s) (st_next s) o (st_repo s))
  end.

Definition open_stream (f : FILE) : M nat := fun s =>
  Done (st_next s)
       (mkState (st_fs s) (st_dirs s) (<[st_next s := f]> (st_open s))
                (S (st_next s)) (st_oracle s) (st_repo s)).

(** [fopen(path, "rb")]: [None] is NULL. *)
Definition fopen (path : string) : M (option nat) := fun s =>
  match st_fs s !! path with
  | None => Done None s
  | Some data => (h ← open_stream (mkFILE data 0); mret (Some h)) s
  end.

(** [fclose]; closing a stream that is not open is undefined. *)
Definition fclose (h : nat) : M unit := fun s =>
  match st_open s !! h with
  | None => Undefined
  | Some _ =>
      Done () (mkState (st_fs s) (st_dirs s) (delete h (st_open s))
                       (st_next s) (st_oracle s) (st_repo s))
  end.

(** Runs a stream operation on the open stream [h]; using a stream that is
    not open is undefined. *)
Definition on_file {A : Type} (h : nat) (op : FILE -> A * FILE) : M A := fun s =>
  match st_open s !! h with
  | None => Undefined
  | Some f =>
      let '(a, f') := op f in
      Done a (mkState (st_fs s) (st_dirs s) (<[h := f']> (st_open s))
                      (st_next s) (st_oracle s) (st_repo s))
  end.

(** A stream operation with an error result, lifted to [M]. *)
Definition on_file_err {A : Type} (h : nat) (op : FILE -> result A * FILE) : M A :=
  r ← on_file h op; of_result r.

(** [fseeko(h, off, SEEK_SET) != 0] gives [false]. *)
Definition fseeko_h (h : nat) (off : Z) : M bool :=
  on_file h (fun f => match fseeko off f with
                      | Some f' => (true, f')
                      | None => (false, f)
                      end).

(** [got_opentemp] of lib/path.c: a fresh empty stream, or NULL when the
    request is refused. *)
Definition got_opentemp : M (option nat) :=
  ok ← alloc;
  if ok : bool then h ← open_stream (mkFILE [] 0); mret (Some h) else mret None.

(** [stat(path)]: the size of the file, [None] when there is none. *)
Definition stat_size (path : string) : M (option Z) := fun s =>
  Done (Z.of_nat ∘ length <$> st_fs s !! path) s.

(** [opendir] followed by the [readdir] sequence: the names in the order
    [readdir] yields them; [None] when [opendir] fails. *)
Definition opendir (path : string) : M (option (list string)) := fun s =>
  Done (st_dirs s !! path) s.

(** ** Loading a pack index *)

Definition PATH_MAX : Z := 1024.
Definition SHA1_DIGEST_STRING_LENGTH : nat := 41.
Definition GOT_PACK_PREFIX : string := "pack-".
Definition GOT_PACKFILE_SUFFIX : string := ".pack".
Definition GOT_PACKIDX_SUFFIX : string := ".idx".
Definition GOT_PACKIDX_NAMELEN : nat :=
  (String.length GOT_PACK_PREFIX + SHA1_DIGEST_STRING_LENGTH - 1
   + String.length GOT_PACKIDX_SUFFIX)%nat.

(** [strrchr(s, '.')] followed by [*dot = '\0']: the part of [s] before its
    last dot; [None] when [s] has no dot. *)
Fixpoint cut_at_last_dot (s : string) : option string :=
  match s with
  | EmptyString => None
  | String c s' =>
      match cut_at_last_dot s' with
      | Some p => Some (String c p)
      | None => if String.eqb (String c EmptyString) "." then Some EmptyString else None
      end
  end.

Definition get_packfile_size (path_idx : string) : M Z :=
  if Z.of_nat (String.length path_idx) >? PATH_MAX then fail GOT_ERR_NO_SPACE else
  (* strlcpy truncates to PATH_MAX - 1 characters *)
  let base_path := String.substring 0 (Z.to_nat (PATH_MAX - 1)) path_idx in
  match cut_at_last_dot base_path with
  | None => fail GOT_ERR_BAD_PATH
  | Some base_path =>
      ok ← alloc;
      if negb ok then fail GOT_ERR_NO_MEM else
      let path_pack := base_path +:+ ".pack" in
      sz ← stat_size path_pack;
      match sz with
      | None => fail GOT_ERR_ERRNO
      | Some size => mret size
      end
  end.

(** [calloc] of one of the arrays of the index. *)
Definition calloc_or_fail : M unit :=
  ok ← alloc; if negb ok then fail GOT_ERR_NO_MEM else mret ().

(** One [fread] of [nmemb] items of [size] bytes that must be complete. *)
Definition fread_all (f : nat) (size nmemb : Z) : M (list Z) :=
  '(raw, n) ← on_file f (fread size nmemb);
  if negb (n =? nmemb) then fail GOT_ERR_BAD_PACKIDX (* got_ferror *) else mret raw.

(** The body of [got_packidx_open] between the allocation of [p] and the
    label [done]; [f] is the open index file. *)
Definition got_packidx_open_body (f : nat) (packfile_size : Z) : M got_packidx_v2_hdr :=
  raw_magic ← fread_all f 4 1;
  if negb (betoh raw_magic =? GOT_PACKIDX_V2_MAGIC) then fail GOT_ERR_BAD_PACKIDX else
  raw_version ← fread_all f 4 1;
  if negb (betoh raw_version =? GOT_PACKIDX_VERSION) then fail GOT_ERR_BAD_PACKIDX else
  raw_fanout ← fread_all f (4 * 256) 1;
  let fanout := betoh <$> items 256 4 raw_fanout in
  _ ← of_result (verify_fanout_table fanout);
  let nobj := fanout !!! 0xff%nat in
  _ ← calloc_or_fail;
  raw_ids ← fread_all f 20 nobj;
  _ ← calloc_or_fail;
  raw_crc32 ← fread_all f 4 nobj;
  _ ← calloc_or_fail;
  raw_offsets ← fread_all f 4 nobj;
  (* Large file offsets are contained only in files > 2GB. *)
  raw_large ←
    (if packfile_size <=? 0x80000000 then mret None
     else _ ← calloc_or_fail; raw ← fread_all f 8 nobj; mret (Some raw));
  raw_trailer ← fread_all f 40 1;
  let tr := mkTrailer (take 20 raw_trailer) (drop 20 raw_trailer) in
  let sha1 := SHA1 (raw_magic ++ raw_version ++ raw_fanout ++ raw_ids ++ raw_crc32
                    ++ raw_offsets ++ default [] raw_large ++ packfile_sha1 tr) in
  if negb (bool_decide (packidx_sha1 tr = sha1)) then fail GOT_ERR_PACKIDX_CSUM else
  mret (mkPackidx (betoh raw_magic) (betoh raw_version) fanout
          (items (Z.to_nat nobj) 20 raw_ids)
          (betoh <$> items (Z.to_nat nobj) 4 raw_crc32)
          (betoh <$> items (Z.to_nat nobj) 4 raw_offsets)
          ((fun raw => betoh <$> items (Z.to_nat nobj) 8 raw) <$> raw_large)
          tr).

(** [got_packidx_open]. When the header structure [p] cannot be allocated
    the function reaches [got_packidx_close(NULL)], which dereferences the
    null pointer. When [get_packfile_size] fails the index file stays
    open. *)
Definition got_packidx_open (path : string) : M got_packidx_v2_hdr :=
  f ← fopen path;
  match f with
  | None => fail GOT_ERR_ERRNO
  | Some f =>
      packfile_size ← get_packfile_size path;
      p ← alloc;
      if negb p then _ ← fclose f; undefined else
      r ← attempt (got_packidx_open_body f packfile_size);
      _ ← fclose f;
      of_result r
  end.

Definition is_packidx_filename (name : string) (len : nat) : bool :=
  if negb (len =? GOT_PACKIDX_NAMELEN)%nat then false
  else if negb (String.prefix GOT_PACK_PREFIX name) then false
  else if negb (String.eqb
                  (String.substring
                     (String.length GOT_PACK_PREFIX + SHA1_DIGEST_STRING_LENGTH - 1)
                     (String.length name) name)
                  GOT_PACKIDX_SUFFIX) then false
  else true.

(** [dup_packidx]: [None] is NULL. The copy never carries large offsets:
    the C code tests [p->large_offsets] after having set it to NULL. *)
Definition dup_packidx (packidx : got_packidx_v2_hdr) : M (option got_packidx_v2_hdr) :=
  p ← alloc;
  if negb p then mret None else
  ids ← alloc;
  if negb ids then mret None else
  crc ← alloc;
  if negb crc then mret None else
  offs ← alloc;
  if negb offs then mret None else
  mret (Some (mkPackidx (magic packidx) (version packidx) (fanout_table packidx)
                (sorted_ids packidx) (crc32 packidx) (offsets packidx) None
                (trailer packidx))).

(** ** Locating and caching pack files *)

Definition hex_digit (n : Z) : string :=
  String.substring (Z.to_nat n) 1 "0123456789abcdef".

(** Modelled from the spec: [got_sha1_digest_to_str] of lib/sha1.c, which is
    not under src/: the 40 lowercase hexadecimal characters of a digest. *)
Fixpoint got_sha1_digest_to_str (digest : list Z) : string :=
  match digest with
  | [] => ""
  | b :: digest' =>
      hex_digit (b / 16) +:+ hex_digit (b mod 16) +:+ got_sha1_digest_to_str digest'
  end.

(** Modelled from the spec: [got_repo_get_path_objects_pack] of
    lib/repository.c, which is not under src/: an allocated copy of
    [<repo>/objects/pack], NULL when the allocation is refused. *)
Definition got_repo_get_path_objects_pack : M (option string) :=
  ok ← alloc;
  if negb ok then mret None else
  repo ← get_repo; mret (Some (path_git_dir repo +:+ "/objects/pack")).

Definition get_packfile_path (packidx : got_packidx_v2_hdr) : M string :=
  path_packdir ← got_repo_get_path_objects_pack;
  match path_packdir with
  | None => fail GOT_ERR_NO_MEM
  | Some path_packdir =>
      let sha1str := got_sha1_digest_to_str (packfile_sha1 (trailer packidx)) in
      ok ← alloc;
      if negb ok then fail GOT_ERR_NO_MEM else
      mret (path_packdir +:+ "/" +:+ GOT_PACK_PREFIX +:+ sha1str +:+ GOT_PACKFILE_SUFFIX)
  end.

Definition read_packfile_hdr (packidx : got_packidx_v2_hdr) (f : FILE)
  : result unit * FILE :=
  let totobj := fanout_table packidx !!! 0xff%nat in
  match fread 12 1 f with
  | (hdr, 1, f') =>
      if negb (betoh (take 4 hdr) =? GOT_PACKFILE_SIGNATURE)
         || negb (betoh (take 4 (drop 4 hdr)) =? GOT_PACKFILE_VERSION)
         || negb (betoh (take 4 (drop 8 hdr)) =? totobj)
      then (Err GOT_ERR_BAD_PACKFILE, f')
      else (Ok (), f')
  | (_, _, f') => (Err (got_ferror f' GOT_ERR_BAD_PACKIDX), f')
  end.

(** The index of the first free slot of the pack cache, its length when
    every slot is taken. *)
Fixpoint first_free_pack_slot (cache : list got_pack_cache_entry) : nat :=
  match cache with
  | [] => O
  | e :: cache' =>
      match pc_packidx e with
      | None => O
      | Some _ => S (first_free_pack_slot cache')
      end
  end.

(** [memmove(&a[1], &a[0], sizeof(a) - sizeof(a[0]))]: every slot moves up by
    one, the last one is overwritten, slot 0 keeps its content. *)
Definition memmove_up {A : Type} (a : list A) : list A :=
  take 1 a ++ take (length a - 1) a.

Definition cache_pack (packidx : got_packidx_v2_hdr) : M unit :=
  path_packfile ← get_packfile_path packidx;
  packfile ← fopen path_packfile;
  match packfile with
  | None => fail GOT_ERR_ERRNO
  | Some packfile =>
      r ← attempt (on_file_err packfile (read_packfile_hdr packidx));
      match r with
      | Err e => _ ← fclose packfile; fail e
      | Ok _ =>
          repo ← get_repo;
          let i := first_free_pack_slot (pack_cache repo) in
          '(cache, i) ←
            (if (i =? length (pack_cache repo))%nat then
               match pack_cache repo !! (i - 1)%nat with
               | None => undefined
               | Some last =>
                   (* got_packidx_close, fclose, free of the last slot *)
                   _ ← fclose (pc_packfile last);
                   mret (memmove_up (pack_cache repo), O)
               end
             else mret (pack_cache repo, i));
          dup ← dup_packidx packidx;
          repo ← get_repo;
          match dup with
          | Some p =>
              put_repo (mkRepo (path_git_dir repo)
                          (<[i := mkPackCacheEntry (Some p) packfile path_packfile]> cache)
                          (delta_cache repo))
          | None =>
              _ ← put_repo (mkRepo (path_git_dir repo)
                          (alter (fun e => mkPackCacheEntry None (pc_packfile e)
                                             (pc_path_packfile e)) i cache)
                          (delta_cache repo));
              fclose packfile
          end
      end
  end.

(** The first loop of [search_packidx], over the slots of the pack cache. *)
Fixpoint search_pack_cache (cache : list got_pack_cache_entry) (id : got_object_id)
  : M (option (got_packidx_v2_hdr * Z)) :=
  match cache with
  | [] => mret None
  | e :: cache' =>
      match pc_packidx e with
      | None => mret None
      | Some cached =>
          match get_object_idx cached id with
          | None => undefined
          | Some idx =>
              if negb (idx =? -1) then
                dup ← dup_packidx cached;
                match dup with
                | None => fail GOT_ERR_NO_MEM
                | Some packidx => mret (Some (packidx, idx))
                end
              else search_pack_cache cache' id
          end
      end
  end.

(** The [readdir] loop of [search_packidx] over the names [dents]. *)
Fixpoint search_packdir (path_packdir : string) (dents : list string)
    (id : got_object_id) : M (got_packidx_v2_hdr * Z) :=
  match dents with
  | [] => fail GOT_ERR_NO_OBJ
  | d_name :: dents' =>
      if negb (is_packidx_filename d_name (String.length d_name))
      then search_packdir path_packdir dents' id
      else
        ok ← alloc;
        if negb ok then fail GOT_ERR_NO_MEM else
        let path_packidx := path_packdir +:+ "/" +:+ d_name in
        packidx ← got_packidx_open path_packidx;
        match get_object_idx packidx id with
        | None => undefined
        | Some idx =>
            if negb (idx =? -1) then
              (* found the object; the result of cache_pack is dropped *)
              _ ← attempt (cache_pack packidx);
              mret (packidx, idx)
            else search_packdir path_packdir dents' id
        end
  end.

Definition search_packidx (id : got_object_id) : M (got_packidx_v2_hdr * Z) :=
  (* Search pack cache. *)
  repo ← get_repo;
  hit ← search_pack_cache (pack_cache repo) id;
  match hit with
  | Some found => mret found
  | None =>
      (* No luck. Search the filesystem. *)
      path_packdir ← got_repo_get_path_objects_pack;
      match path_packdir with
      | None => fail GOT_ERR_NO_MEM
      | Some path_packdir =>
          packdir ← opendir path_packdir;
          match packdir with
          | None => fail GOT_ERR_ERRNO
          | Some dents => search_packdir path_packdir dents id
          end
      end
  end.

(** The loop of [open_packfile] over the slots of the pack cache. *)
Fixpoint find_cached_packfile (cache : list got_pack_cache_entry)
    (packidx : got_packidx_v2_hdr) : option (nat * string) :=
  match cache with
  | [] => None
  | e :: cache' =>
      match pc_packidx e with
      | None => None
      | Some cached =>
          (* The pack index trailer acts as a cache key. *)
          if bool_decide (packfile_sha1 (trailer packidx) = packfile_sha1 (trailer cached))
             && bool_decide (packidx_sha1 (trailer packidx) = packidx_sha1 (trailer cached))
          then Some (pc_packfile e, pc_path_packfile e)
          else find_cached_packfile cache' packidx
      end
  end.

(** Returns [(packfile, path_packfile, is_cached)]. *)
Definition open_packfile (packidx : got_packidx_v2_hdr) : M (nat * string * bool) :=
  repo ← get_repo;
  (* The pack could already be cached after an object search. *)
  match find_cached_packfile (pack_cache repo) packidx with
  | Some (packfile, path_packfile) => mret (packfile, path_packfile, true)
  | None =>
      (* No luck. Try the filesystem. *)
      path_packfile ← get_packfile_path packidx;
      packfile ← fopen path_packfile;
      match packfile with
      | None => fail GOT_ERR_ERRNO
      | Some packfile =>
          r ← attempt (on_file_err packfile (read_packfile_hdr packidx));
          match r with
          | Err e => _ ← fclose packfile; fail e
          | Ok _ => mret (packfile, path_packfile, false)
          end
      end
  end.

(** ** Delta-chain resolution *)

Definition is_plain_type (t : Z) : bool :=
  (t =? GOT_OBJ_TYPE_COMMIT) || (t =? GOT_OBJ_TYPE_TREE)
  || (t =? GOT_OBJ_TYPE_BLOB) || (t =? GOT_OBJ_TYPE_TAG).

(** Modelled from the spec: [got_delta_open] of lib/delta.c, which is not
    under src/: an allocated chain entry holding its arguments, NULL when
    the allocation is refused. *)
Definition got_delta_open (path_packfile : string)
    (offset tslen type size data_offset : Z) : M (option got_delta) :=
  ok ← alloc;
  if negb ok then mret None
  else mret (Some (mkDelta path_packfile offset tslen type size data_offset)).

(** [add_delta] updates the chain in place; the model returns the updated
    chain. A chain is dropped with the error when resolution fails (its
    owner, [open_delta_object], closes the object). *)
Definition add_delta (deltas : got_delta_chain) (path_packfile : string)
    (delta_offset tslen delta_type delta_size delta_data_offset : Z)
  : M got_delta_chain :=
  delta ← got_delta_open path_packfile delta_offset tslen delta_type delta_size
            delta_data_offset;
  match delta with
  | None => fail GOT_ERR_NO_MEM
  | Some delta =>
      (* delta is freed in got_object_close() *)
      mret (mkChain (nentries deltas + 1) (delta :: entries deltas))
  end.

(** The type of [resolve_delta_chain], which the two delta resolvers call
    back. *)
Definition resolver : Type :=
  got_delta_chain -> nat -> string -> Z -> Z -> Z -> Z -> M got_delta_chain.

Definition resolve_offset_delta (resolve_delta_chain : resolver)
    (deltas : got_delta_chain) (packfile : nat) (path_packfile : string)
    (delta_offset tslen delta_type delta_size : Z) : M got_delta_chain :=
  base_offset ← on_file_err packfile (fun f => parse_offset_delta f delta_offset);
  delta_data_offset ← on_file packfile (fun f => (ftello f, f));
  deltas ← add_delta deltas path_packfile delta_offset tslen delta_type delta_size
             delta_data_offset;
  (* An offset delta must be in the same packfile. *)
  ok ← fseeko_h packfile base_offset;
  if negb ok then fail GOT_ERR_ERRNO else
  '(base_type, base_size, base_tslen) ← on_file_err packfile parse_object_type_and_size;
  resolve_delta_chain deltas packfile path_packfile base_offset base_tslen
    base_type base_size.

Definition resolve_ref_delta (resolve_delta_chain : resolver)
    (deltas : got_delta_chain) (packfile : nat) (path_packfile : string)
    (delta_offset tslen delta_type delta_size : Z) : M got_delta_chain :=
  '(id, n) ← on_file packfile (fread 20 1);
  if negb (n =? 1) then fail GOT_ERR_IO (* got_ferror *) else
  delta_data_offset ← on_file packfile (fun f => (ftello f, f));
  deltas ← add_delta deltas path_packfile delta_offset tslen delta_type delta_size
             delta_data_offset;
  '(packidx, idx) ← search_packidx id;
  match get_object_offset packidx idx with
  | None => undefined
  | Some base_offset =>
      if base_offset =? -1 then fail GOT_ERR_BAD_PACKIDX else
      '(base_packfile, path_base_packfile, pack_cached) ← open_packfile packidx;
      r ← attempt (
        ok ← fseeko_h base_packfile base_offset;
        if negb ok then fail GOT_ERR_ERRNO else
        '(base_type, base_size, base_tslen) ←
          on_file_err base_packfile parse_object_type_and_size;
        resolve_delta_chain deltas base_packfile path_base_packfile base_offset
          base_tslen base_type base_size);
      _ ← (if negb pack_cached then fclose base_packfile else mret ());
      of_result r
  end.

(** [resolve_delta_chain]; the C function recurses without a bound, the
    model on [fuel]. *)
Fixpoint resolve_delta_chain (fuel : nat) (deltas : got_delta_chain) (packfile : nat)
    (path_packfile : string) (delta_offset tslen delta_type delta_size : Z)
  : M got_delta_chain :=
  match fuel with
  | O => fun _ => OutOfFuel
  | S fuel' =>
      if is_plain_type delta_type then
        (* Plain types are the final delta base. Recursion ends. *)
        add_delta deltas path_packfile delta_offset tslen delta_type delta_size 0
      else if delta_type =? GOT_OBJ_TYPE_OFFSET_DELTA then
        resolve_offset_delta (resolve_delta_chain fuel') deltas packfile
          path_packfile delta_offset tslen delta_type delta_size
      else if delta_type =? GOT_OBJ_TYPE_REF_DELTA then
        resolve_ref_delta (resolve_delta_chain fuel') deltas packfile
          path_packfile delta_offset tslen delta_type delta_size
      else fail GOT_ERR_NOT_IMPL
  end.

(** The steps that enter [resolve_delta_chain] for the object at [offset]
    of the open pack file, as [resolve_offset_delta] runs them for a base
    and [open_packed_object] for the object looked up: seek to the object,
    decode its header, resolve. *)
Definition resolve_object_at (fuel : nat) (deltas : got_delta_chain) (packfile : nat)
    (path_packfile : string) (offset : Z) : M got_delta_chain :=
  ok ← fseeko_h packfile offset;
  if negb ok then fail GOT_ERR_ERRNO else
  '(type, size, tslen) ← on_file_err packfile parse_object_type_and_size;
  resolve_delta_chain fuel deltas packfile path_packfile offset tslen type size.

(** ** Delta application

    [got_delta_get_sizes], [got_delta_apply_in_mem] and [got_delta_apply]
    belong to lib/delta.c, which is not under src/; they follow section
    4.4 of the specification: two variable-length sizes, then copy and
    insert commands; the declared base size must be the length of the base
    and the declared result size the length of the output. Every violation
    is [GOT_ERR_BAD_DELTA_CHAIN]. *)

(** Modelled from the spec: a variable-length size of a delta stream, 7
    bits a byte, least significant first, the top bit continues; at most
    [n] bytes. Returns the size and the rest of the stream. *)
Fixpoint delta_varint (n : nat) (shift acc : Z) (buf : list Z) : option (Z * list Z) :=
  match buf, n with
  | b :: buf', S n' =>
      let acc' := Z.lor acc (Z.shiftl (Z.land b 0x7f) shift) in
      if Z.land b 0x80 =? 0 then Some (to_uint64 acc', buf')
      else delta_varint n' (shift + 7) acc' buf'
  | _, _ => None
  end.

(** Modelled from the spec: [got_delta_get_sizes] of lib/delta.c, which is
    not under src/. Returns [(base_size, result_size)] and the commands
    that follow. *)
Definition got_delta_get_sizes (delta_buf : list Z) : result (Z * Z * list Z) :=
  match delta_varint 10 0 0 delta_buf with
  | None => Err GOT_ERR_BAD_DELTA_CHAIN
  | Some (base_size, rest) =>
      match delta_varint 10 0 0 rest with
      | None => Err GOT_ERR_BAD_DELTA_CHAIN
      | Some (result_size, rest') => Ok (base_size, result_size, rest')
      end
  end.

(** Modelled from the spec: the operand of a copy command: for each bit of [c] from [bit] on,
    [count] of them, a set bit takes the next byte of the stream as the
    byte of that rank. Returns the value, whether a byte was present, and
    the rest of the stream. *)
Fixpoint copy_operand (count : nat) (c bit rank : Z) (buf : list Z)
  : option (Z * bool * list Z) :=
  match count with
  | O => Some (0, false, buf)
  | S count' =>
      if Z.testbit c bit then
        match buf with
        | [] => None
        | b :: buf' =>
            match copy_operand count' c (bit + 1) (rank + 1) buf' with
            | None => None
            | Some (v, _, rest) => Some (Z.lor (Z.shiftl b (8 * rank)) v, true, rest)
            end
        end
      else copy_operand count' c (bit + 1) (rank + 1) buf
  end.

(** Modelled from the spec: step 2 of section 4.4, the commands of a delta
    stream run over [base] with the output so far [out]. A command takes at
    least one byte, so [fuel] is the length of the stream. *)
Fixpoint delta_commands (fuel : nat) (base cmds out : list Z) : result (list Z) :=
  match cmds, fuel with
  | [], _ => Ok out
  | _, O => Err GOT_ERR_BAD_DELTA_CHAIN
  | c :: rest, S fuel' =>
      if Z.testbit c 7 then
        match copy_operand 4 c 0 0 rest with
        | None => Err GOT_ERR_BAD_DELTA_CHAIN
        | Some (offset, _, rest1) =>
            match copy_operand 3 c 4 0 rest1 with
            | None => Err GOT_ERR_BAD_DELTA_CHAIN
            | Some (size, present, rest2) =>
                let size := if present then size else 0x10000 in
                if offset + size >? Z.of_nat (length base)
                then Err GOT_ERR_BAD_DELTA_CHAIN
                else delta_commands fuel' base rest2
                       (out ++ take (Z.to_nat size) (drop (Z.to_nat offset) base))
            end
        end
      else if negb (c =? 0) then
        if c >? Z.of_nat (length rest) then Err GOT_ERR_BAD_DELTA_CHAIN
        else delta_commands fuel' base (drop (Z.to_nat c) rest)
               (out ++ take (Z.to_nat c) rest)
      else Err GOT_ERR_BAD_DELTA_CHAIN
  end.

(** Modelled from the spec: [apply(base_buf, delta_buf)] of section
    4.4. *)
Definition delta_apply (base delta_buf : list Z) : result (list Z) :=
  match got_delta_get_sizes delta_buf with
  | Err e => Err e
  | Ok (base_size, result_size, cmds) =>
      if negb (base_size =? Z.of_nat (length base)) then Err GOT_ERR_BAD_DELTA_CHAIN
      else match delta_commands (length cmds) base cmds [] with
           | Err e => Err e
           | Ok out =>
               if negb (result_size =? Z.of_nat (length out))
               then Err GOT_ERR_BAD_DELTA_CHAIN else Ok out
           end
  end.

(** Modelled from the spec: [got_delta_apply_in_mem] of lib/delta.c, which
    is not under src/: the result and its size, as written to [outbuf] and
    [*outsize]. *)
Definition got_delta_apply_in_mem (base_buf delta_buf : list Z) : result (list Z) :=
  delta_apply base_buf delta_buf.

(** Modelled from the spec: [got_delta_apply] of lib/delta.c, which is not
    under src/: the base is the content of [base_file]; the result is
    written to [outfile] at its position. *)
Definition got_delta_apply (base_file : nat) (delta_buf : list Z) (outfile : nat)
  : M unit :=
  base ← on_file base_file (fun f => (f_data f, f));
  out ← of_result (delta_apply base delta_buf);
  on_file outfile (fun f => ((), fwrite out f)).

(** ** The delta cache *)

Definition clear_delta_cache_entry (entry : got_delta_cache_entry)
  : got_delta_cache_entry :=
  mkDeltaCacheEntry 0 None 0.

Fixpoint first_free_delta_slot (deltas : list got_delta_cache_entry) : nat :=
  match deltas with
  | [] => O
  | e :: deltas' =>
      if dce_data_offset e =? 0 then O else S (first_free_delta_slot deltas')
  end.

Definition add_delta_cache_entry (cache : got_delta_cache) (data_offset : Z)
    (delta_buf : option (list Z)) (delta_len : Z) : got_delta_cache :=
  let i := first_free_delta_slot (dc_deltas cache) in
  let '(deltas, i) :=
    if (i =? length (dc_deltas cache))%nat
    then (memmove_up (alter clear_delta_cache_entry (i - 1)%nat (dc_deltas cache)), O)
    else (dc_deltas cache, i) in
  mkDeltaCache (dc_path_packfile cache)
    (<[i := mkDeltaCacheEntry data_offset delta_buf delta_len]> deltas).

(** The first loop of [cache_delta] and of [get_cached_delta]: the index
    where it stops, and whether it stopped on the cache of [path_packfile]. *)
Fixpoint find_delta_cache (caches : list got_delta_cache) (path_packfile : string)
  : nat * bool :=
  match caches with
  | [] => (O, false)
  | cache :: caches' =>
      match dc_path_packfile cache with
      | None => (O, false)
      | Some p =>
          if String.eqb p path_packfile then (O, true)
          else let '(i, found) := find_delta_cache caches' path_packfile in (S i, found)
      end
  end.

(** The loop of [cache_delta] that clears the entries of an evicted cache
    up to its first free slot. *)
Fixpoint clear_used_entries (deltas : list got_delta_cache_entry)
  : list got_delta_cache_entry :=
  match deltas with
  | [] => []
  | e :: deltas' =>
      if dce_data_offset e =? 0 then e :: deltas'
      else clear_delta_cache_entry e :: clear_used_entries deltas'
  end.

Definition put_delta_cache (dc : list got_delta_cache) : M unit :=
  repo ← get_repo; put_repo (mkRepo (path_git_dir repo) (pack_cache repo) dc).

Definition cache_delta (data_offset : Z) (delta_buf : option (list Z))
    (delta_len : Z) (path_packfile : string) : M unit :=
  repo ← get_repo;
  let dc := delta_cache repo in
  match find_delta_cache dc path_packfile with
  | (i, true) =>
      put_delta_cache
        (alter (fun cache => add_delta_cache_entry cache data_offset delta_buf delta_len)
               i dc)
  | (i, false) =>
      let '(dc, i) :=
        if (i =? length dc)%nat then
          (memmove_up
             (alter (fun cache => mkDeltaCache None (clear_used_entries (dc_deltas cache)))
                    (i - 1)%nat dc), O)
        else (dc, i) in
      ok ← alloc; (* strdup *)
      if negb ok then
        _ ← put_delta_cache (alter (fun cache => mkDeltaCache None (dc_deltas cache)) i dc);
        fail GOT_ERR_NO_MEM
      else
        put_delta_cache
          (alter (fun cache =>
                    add_delta_cache_entry
                      (mkDeltaCache (Some path_packfile) (dc_deltas cache))
                      data_offset delta_buf delta_len) i dc)
  end.

(** The second loop of [get_cached_delta]. *)
Fixpoint find_cached_delta (deltas : list got_delta_cache_entry) (data_offset : Z)
  : option (list Z) * Z :=
  match deltas with
  | [] => (None, 0)
  | entry :: deltas' =>
      if dce_data_offset entry =? 0 then (None, 0)
      else if dce_data_offset entry =? data_offset
           then (dce_delta_buf entry, dce_delta_len entry)
           else find_cached_delta deltas' data_offset
  end.

(** Returns [(delta_buf, delta_len)]; [None] is NULL. *)
Definition get_cached_delta (data_offset : Z) (path_packfile : string)
  : M (option (list Z) * Z) :=
  repo ← get_repo;
  match find_delta_cache (delta_cache repo) path_packfile with
  | (i, true) =>
      match delta_cache repo !! i with
      | Some cache => mret (find_cached_delta (dc_deltas cache) data_offset)
      | None => mret (None, 0)
      end
  | (_, false) => mret (None, 0)
  end.

(** ** Materialisation *)

Section Materialisation.

(** Modelled from the spec: the zlib decoder behind lib/zbuf.c, which is
    not under src/. [inflate bytes] decodes the zlib stream that starts
    [bytes]: the inflated data and the number of bytes the stream takes,
    or the error of a stream that does not decode. *)
Variable inflate : list Z -> result (list Z * Z).

(** The constant of got_delta_lib.h, which is not under src/ (the spec
    suggests 8 MiB). *)
Variable GOT_DELTA_RESULT_SIZE_CACHED_MAX : Z.

Definition inflate_stream (f : FILE) : result (list Z) * FILE :=
  match inflate (drop (Z.to_nat (f_pos f)) (f_data f)) with
  | Err e => (Err e, f)
  | Ok (out, used) => (Ok out, mkFILE (f_data f) (f_pos f + used))
  end.

(** Modelled from the spec: [got_inflate_to_mem] of lib/zbuf.c, which is
    not under src/: inflates the stream at the position of [f] into an
    allocated buffer. On failure the caller's buffer pointer and length
    are read as NULL and 0. *)
Definition got_inflate_to_mem (f : nat) : M (list Z) :=
  ok ← alloc;
  if negb ok then fail GOT_ERR_NO_MEM else on_file_err f inflate_stream.

(** Modelled from the spec: [got_inflate_to_file] of lib/zbuf.c, which is
    not under src/: inflates the stream at the position of [f] and writes
    the data to [outfile]; returns the length written. *)
Definition got_inflate_to_file (f outfile : nat) : M Z :=
  out ← on_file_err f inflate_stream;
  _ ← on_file outfile (fun o => ((), fwrite out o));
  mret (Z.of_nat (length out)).

(** Returns [(base_size, result_size)]. *)
Definition get_delta_sizes (delta : got_delta) (packfile : nat) : M (Z * Z) :=
  ok ← fseeko_h packfile (d_data_offset delta);
  if negb ok then fail GOT_ERR_ERRNO else
  delta_buf ← got_inflate_to_mem packfile;
  '(base_size, result_size, _) ← of_result (got_delta_get_sizes delta_buf);
  mret (base_size, result_size).

(** The SIMPLEQ_FOREACH of [get_delta_chain_max_size]; [base_size] and
    [result_size] live across the iterations. *)
Fixpoint get_delta_chain_max_size_loop (ds : list got_delta) (packfile : nat)
    (max_size base_size result_size : Z) : M Z :=
  match ds with
  | [] => mret max_size
  | delta :: ds' =>
      '(base_size, result_size) ←
        (* Plain object types are the delta base. *)
        (if negb (is_plain_type (d_type delta))
         then get_delta_sizes delta packfile
         else mret (d_size delta, result_size));
      let max_size := if base_size >? max_size then base_size else max_size in
      let max_size := if result_size >? max_size then result_size else max_size in
      get_delta_chain_max_size_loop ds' packfile max_size base_size result_size
  end.

Definition get_delta_chain_max_size (deltas : got_delta_chain) (packfile : nat) : M Z :=
  get_delta_chain_max_size_loop (entries deltas) packfile 0 0 0.

(** The block both dump loops run for a delta: the inflated delta stream,
    from the delta cache or inflated from the pack file and cached. *)
Definition cached_delta_buf (delta : got_delta) (packfile : nat)
    (path_packfile : string) : M (list Z) :=
  '(delta_buf, delta_len) ← get_cached_delta (d_data_offset delta) path_packfile;
  match delta_buf with
  | Some delta_buf => mret delta_buf
  | None =>
      ok ← fseeko_h packfile (d_data_offset delta);
      if negb ok then fail GOT_ERR_ERRNO else
      (* Delta streams should always fit in memory. *)
      delta_buf ← got_inflate_to_mem packfile;
      _ ← cache_delta (d_data_offset delta) (Some delta_buf)
            (Z.of_nat (length delta_buf)) path_packfile;
      mret delta_buf
  end.

(** The block both dump loops run for the first entry when the base is
    held in memory: the base buffer. The length test precedes the error
    test, as in the source. *)
Definition inflate_base_to_mem (delta : got_delta) (packfile : nat) (max_size : Z)
  : M (list Z) :=
  r ← attempt (got_inflate_to_mem packfile);
  let base_len := match r with Ok b => Z.of_nat (length b) | Err _ => 0 end in
  _ ← (if base_len <? max_size
       then ok ← alloc; (* reallocarray *)
            if negb ok then fail GOT_ERR_NO_MEM else mret ()
       else mret ());
  of_result r.

(** A memory buffer is [Some l]: its first [length l] bytes are [l], the
    rest is indeterminate; [None] is NULL. [accum_size] is [None] until
    it is first assigned. *)
Record dump_vars : Type := mkVars {
  v_n : Z;
  v_base_file : option nat;
  v_accum_file : option nat;
  v_base_buf : option (list Z);
  v_accum_buf : option (list Z);
  v_accum_size : option Z
}.

(** The SIMPLEQ_FOREACH of [dump_delta_chain_to_file]. Returns the error
    that leaves the loop, if any, and the variables at the label
    [done]. *)
Fixpoint dump_delta_chain_to_file_loop (ds : list got_delta) (nentries max_size : Z)
    (outfile packfile : nat) (path_packfile : string) (v : dump_vars)
  : M (option got_error_code * dump_vars) :=
  match ds with
  | [] => mret (None, v)
  | delta :: ds' =>
      if v_n v =? 0 then
        (* Plain object types are the delta base. *)
        if negb (is_plain_type (d_type delta)) then mret (Some GOT_ERR_BAD_DELTA_CHAIN, v) else
        ok ← fseeko_h packfile (d_offset delta + d_tslen delta);
        if negb ok then mret (Some GOT_ERR_ERRNO, v) else
        match v_base_file v with
        | Some base_file =>
            r ← attempt (got_inflate_to_file packfile base_file);
            match r with
            | Err e => mret (Some e, v)
            | Ok _ =>
                _ ← on_file base_file (fun f => ((), rewind f));
                dump_delta_chain_to_file_loop ds' nentries max_size outfile packfile
                  path_packfile
                  (mkVars (v_n v + 1) (v_base_file v) (v_accum_file v) (v_base_buf v)
                          (v_accum_buf v) (v_accum_size v))
            end
        | None =>
            r ← attempt (inflate_base_to_mem delta packfile max_size);
            match r with
            | Err e => mret (Some e, v)
            | Ok base =>
                dump_delta_chain_to_file_loop ds' nentries max_size outfile packfile
                  path_packfile
                  (mkVars (v_n v + 1) (v_base_file v) (v_accum_file v) (Some base)
                          (v_accum_buf v) (v_accum_size v))
            end
        end
      else
        r ← attempt (cached_delta_buf delta packfile path_packfile);
        match r with
        | Err e => mret (Some e, v)
        | Ok delta_buf =>
            (* delta_buf is now cached *)
            let n := v_n v + 1 in
            applied ←
              match v_base_buf v, v_base_file v, v_accum_file v with
              | Some base_buf, _, _ =>
                  match got_delta_apply_in_mem base_buf delta_buf with
                  | Err e => mret (Err e)
                  | Ok out =>
                      mret (Ok (mkVars n (v_base_file v) (v_accum_file v) (v_base_buf v)
                                  (Some out) (Some (Z.of_nat (length out)))))
                  end
              | None, Some base_file, Some accum_file =>
                  (* Final delta application writes to output file. *)
                  r ← attempt (got_delta_apply base_file delta_buf
                                 (if n <? nentries then accum_file else outfile));
                  match r with
                  | Err e => mret (Err e)
                  | Ok _ => mret (Ok (mkVars n (v_base_file v) (v_accum_file v)
                                        (v_base_buf v) (v_accum_buf v) (v_accum_size v)))
                  end
              | _, _, _ => undefined
              end;
            match applied with
            | Err e =>
                mret (Some e, mkVars n (v_base_file v) (v_accum_file v) (v_base_buf v)
                                (v_accum_buf v) (v_accum_size v))
            | Ok v =>
                if n <? nentries then
                  (* Accumulated delta becomes the new base. *)
                  match v_base_buf v, v_base_file v, v_accum_file v with
                  | Some _, _, _ =>
                      dump_delta_chain_to_file_loop ds' nentries max_size outfile
                        packfile path_packfile
                        (mkVars n (v_base_file v) (v_accum_file v) (v_accum_buf v)
                                (v_base_buf v) (v_accum_size v))
                  | None, Some base_file, Some accum_file =>
                      _ ← on_file accum_file (fun f => ((), rewind f));
                      _ ← on_file base_file (fun f => ((), rewind f));
                      dump_delta_chain_to_file_loop ds' nentries max_size outfile
                        packfile path_packfile
                        (mkVars n (Some accum_file) (Some base_file) (v_base_buf v)
                                (v_accum_buf v) (v_accum_size v))
                  | _, _, _ => undefined
                  end
                else
                  dump_delta_chain_to_file_loop ds' nentries max_size outfile
                    packfile path_packfile v
            end
        end
  end.

Definition fclose_if_open (f : option nat) : M unit :=
  match f with Some f => fclose f | None => mret () end.

Definition dump_delta_chain_to_file (deltas : got_delta_chain) (outfile packfile : nat)
    (path_packfile : string) : M unit :=
  if bool_decide (entries deltas = []) then fail GOT_ERR_BAD_DELTA_CHAIN else
  (* We process small enough files entirely in memory for speed. *)
  max_size ← get_delta_chain_max_size deltas packfile;
  v ←
    (if max_size <? GOT_DELTA_RESULT_SIZE_CACHED_MAX then
       ok ← alloc;
       if negb ok then fail GOT_ERR_NO_MEM
       else mret (mkVars 0 None None None (Some []) None)
     else
       base_file ← got_opentemp;
       match base_file with
       | None => fail GOT_ERR_ERRNO
       | Some base_file =>
           accum_file ← got_opentemp;
           match accum_file with
           | None => _ ← fclose base_file; fail GOT_ERR_ERRNO
           | Some accum_file =>
               mret (mkVars 0 (Some base_file) (Some accum_file) None None None)
           end
       end);
  (* Deltas are ordered in ascending order. *)
  '(err, v) ← dump_delta_chain_to_file_loop (entries deltas) (nentries deltas) max_size
                outfile packfile path_packfile v;
  (* done: *)
  _ ← match v_accum_buf v with
      | Some accum_buf =>
          match v_accum_size v with
          | None => undefined
          | Some accum_size =>
              if accum_size >? Z.of_nat (length accum_buf) then undefined
              else on_file outfile
                     (fun f => ((), fwrite (take (Z.to_nat accum_size) accum_buf) f))
          end
      | None => mret ()
      end;
  _ ← fclose_if_open (v_base_file v);
  _ ← fclose_if_open (v_accum_file v);
  _ ← on_file outfile (fun f => ((), rewind f));
  match err with Some e => fail e | None => mret () end.

(** The SIMPLEQ_FOREACH of [dump_delta_chain_to_mem]; an error leaves the
    loop for the label [done], where the variables no longer matter.
    Returns [accum_buf] and [accum_size]. *)
Fixpoint dump_delta_chain_to_mem_loop (ds : list got_delta) (nentries max_size : Z)
    (packfile : nat) (path_packfile : string) (n : Z)
    (base_buf accum_buf : option (list Z)) (accum_size : option Z)
  : M (option (list Z) * option Z) :=
  match ds with
  | [] => mret (accum_buf, accum_size)
  | delta :: ds' =>
      if n =? 0 then
        (* Plain object types are the delta base. *)
        if negb (is_plain_type (d_type delta)) then fail GOT_ERR_BAD_DELTA_CHAIN else
        ok ← fseeko_h packfile (d_offset delta + d_tslen delta);
        if negb ok then fail GOT_ERR_ERRNO else
        base ← inflate_base_to_mem delta packfile max_size;
        dump_delta_chain_to_mem_loop ds' nentries max_size packfile path_packfile
          (n + 1) (Some base) accum_buf accum_size
      else
        delta_buf ← cached_delta_buf delta packfile path_packfile;
        (* delta_buf is now cached *)
        match base_buf with
        | None => undefined
        | Some base =>
            out ← of_result (got_delta_apply_in_mem base delta_buf);
            let n := n + 1 in
            if n <? nentries then
              (* Accumulated delta becomes the new base. *)
              dump_delta_chain_to_mem_loop ds' nentries max_size packfile path_packfile
                n (Some out) base_buf (Some (Z.of_nat (length out)))
            else
              dump_delta_chain_to_mem_loop ds' nentries max_size packfile path_packfile
                n base_buf (Some out) (Some (Z.of_nat (length out)))
        end
  end.

(** Returns the error, [*outbuf] and [*outlen]. *)
Definition dump_delta_chain_to_mem (deltas : got_delta_chain) (packfile : nat)
    (path_packfile : string) : M (option got_error_code * option (list Z) * Z) :=
  (* *outbuf = NULL; *outlen = 0; *)
  r ← attempt (
    if bool_decide (entries deltas = []) then fail GOT_ERR_BAD_DELTA_CHAIN else
    max_size ← get_delta_chain_max_size deltas packfile;
    ok ← alloc;
    if negb ok then fail GOT_ERR_NO_MEM else
    (* Deltas are ordered in ascending order. *)
    dump_delta_chain_to_mem_loop (entries deltas) (nentries deltas) max_size packfile
      path_packfile 0 None (Some []) None);
  match r with
  | Err e => mret (Some e, None, 0)
  | Ok (Some accum_buf, Some accum_size) =>
      if accum_size >? Z.of_nat (length accum_buf) then undefined
      else mret (None, Some (take (Z.to_nat accum_size) accum_buf), accum_size)
  | Ok (_, _) => undefined
  end.

(** Returns [*f] and the size stored in [obj->size]. On an error [*f]
    is closed if it was opened. *)
Definition got_packfile_extract_object (obj : got_object) : M (nat * Z) :=
  if Z.land (o_flags obj) GOT_OBJ_FLAG_PACKED =? 0 then fail GOT_ERR_OBJ_NOT_PACKED else
  f ← got_opentemp;
  match f with
  | None => fail GOT_ERR_FILE_OPEN
  | Some f =>
      packfile ← fopen (o_path_packfile obj);
      match packfile with
      | None => _ ← fclose f; fail GOT_ERR_ERRNO
      | Some packfile =>
          r ← attempt (
            if Z.land (o_flags obj) GOT_OBJ_FLAG_DELTIFIED =? 0 then
              ok ← fseeko_h packfile (o_pack_offset obj);
              if negb ok then fail GOT_ERR_ERRNO else
              got_inflate_to_file packfile f
            else
              _ ← dump_delta_chain_to_file (o_deltas obj) f packfile (o_path_packfile obj);
              mret (o_size obj));
          _ ← fclose packfile;
          match r with
          | Err e => _ ← fclose f; fail e
          | Ok size => mret (f, size)
          end
      end
  end.

(** [buf] and [len] are the caller's [*buf] and [*len] on entry; returns
    the error and their values on return. *)
Definition got_packfile_extract_object_to_mem (buf : option (list Z)) (len : Z)
    (obj : got_object) : M (option got_error_code * option (list Z) * Z) :=
  if Z.land (o_flags obj) GOT_OBJ_FLAG_PACKED =? 0
  then mret (Some GOT_ERR_OBJ_NOT_PACKED, buf, len) else
  packfile ← fopen (o_path_packfile obj);
  match packfile with
  | None => mret (Some GOT_ERR_ERRNO, buf, len)
  | Some packfile =>
      r ←
        (if Z.land (o_flags obj) GOT_OBJ_FLAG_DELTIFIED =? 0 then
           ok ← fseeko_h packfile (o_pack_offset obj);
           if negb ok then mret (Some GOT_ERR_ERRNO, buf, len) else
           r ← attempt (got_inflate_to_mem packfile);
           match r with
           | Err e => mret (Some e, None, 0)
           | Ok out => mret (None, Some out, Z.of_nat (length out))
           end
         else dump_delta_chain_to_mem (o_deltas obj) packfile (o_path_packfile obj));
      _ ← fclose packfile;
      mret r
  end.

End Materialisation.

(** ** Opening a packed object *)

Definition open_plain_object (path_packfile : string) (id : got_object_id)
    (type offset size : Z) : M got_object :=
  obj ← alloc; (* calloc *)
  if negb obj then fail GOT_ERR_NO_MEM else
  path ← alloc; (* strdup *)
  if negb path then fail GOT_ERR_NO_MEM else
  mret (mkObject type GOT_OBJ_FLAG_PACKED 0 size id path_packfile offset (mkChain 0 [])).

(** Modelled from the spec: [got_delta_chain_get_base_type] of lib/delta.c,
    which is not under src/: the type of the base of the chain, its first
    entry, which must be a plain object. *)
Definition got_delta_chain_get_base_type (deltas : got_delta_chain) : result Z :=
  match entries deltas with
  | delta :: _ =>
      if is_plain_type (d_type delta) then Ok (d_type delta)
      else Err GOT_ERR_BAD_DELTA_CHAIN
  | [] => Err GOT_ERR_BAD_DELTA_CHAIN
  end.

(** [open_delta_object]; on an error the object is closed, which frees the
    entries resolved so far. [fuel] bounds the recursion of
    [resolve_delta_chain]. *)
Definition open_delta_object (fuel : nat) (path_packfile : string) (packfile : nat)
    (id : got_object_id) (offset tslen delta_type delta_size : Z) : M got_object :=
  obj ← alloc; (* calloc *)
  if negb obj then fail GOT_ERR_NO_MEM else
  let flags := 0 in
  (* Not known because deltas aren't applied yet. *)
  let size := 0 in
  let pack_offset := to_int64 (offset + tslen) in
  path ← alloc; (* strdup *)
  if negb path then fail GOT_ERR_NO_MEM else
  let flags := Z.lor flags GOT_OBJ_FLAG_PACKED in
  let flags := Z.lor flags GOT_OBJ_FLAG_DELTIFIED in
  deltas ← resolve_delta_chain fuel (mkChain 0 []) packfile path_packfile offset tslen
             delta_type delta_size;
  resolved_type ← of_result (got_delta_chain_get_base_type deltas);
  mret (mkObject resolved_type flags 0 size id path_packfile pack_offset deltas).

Definition open_packed_object (fuel : nat) (packidx : got_packidx_v2_hdr) (idx : Z)
    (id : got_object_id) : M got_object :=
  match get_object_offset packidx idx with
  | None => undefined
  | Some offset =>
      if offset =? -1 then fail GOT_ERR_BAD_PACKIDX else
      '(packfile, path_packfile, pack_cached) ← open_packfile packidx;
      r ← attempt (
        ok ← fseeko_h packfile offset;
        if negb ok then fail GOT_ERR_ERRNO else
        '(type, size, tslen) ← on_file_err packfile parse_object_type_and_size;
        if is_plain_type type then
          open_plain_object path_packfile id type (to_int64 (offset + tslen)) size
        else if (type =? GOT_OBJ_TYPE_OFFSET_DELTA) || (type =? GOT_OBJ_TYPE_REF_DELTA) then
          open_delta_object fuel path_packfile packfile id offset tslen type size
        else fail GOT_ERR_NOT_IMPL);
      (* done: *)
      _ ← (if negb pack_cached then fclose packfile else mret ());
      of_result r
  end.

(** [got_packfile_open_object]; the index that [search_packidx] returned
    is closed on every path. *)
Definition got_packfile_open_object (fuel : nat) (id : got_object_id) : M got_object :=
  '(packidx, idx) ← search_packidx id;
  open_packed_object fuel packidx idx id.

(** * Concrete indexes, packs and states the examples run on *)

Definition be32 (x : Z) : list Z := SHA1.be_bytes 4 x.
Definition be64 (x : Z) : list Z := SHA1.be_bytes 8 x.

(** The bytes of a fanout table whose entry [i] is [fanout i]. *)
Definition fanout_bytes (fanout : Z -> Z) : list Z :=
  flat_map (fun i => be32 (fanout (Z.of_nat i))) (seq 0 256).

(** The bytes of a version 2 index file, with the trailing digest the
    loader expects. *)
Definition idx_file (fanout : Z -> Z) (ids : list got_object_id)
    (crcs offs larges : list Z) (pack_sha1 : list Z) : list Z :=
  let body := be32 GOT_PACKIDX_V2_MAGIC ++ be32 GOT_PACKIDX_VERSION
              ++ fanout_bytes fanout ++ concat ids ++ flat_map be32 crcs
              ++ flat_map be32 offs ++ flat_map be64 larges ++ pack_sha1 in
  body ++ SHA1 body.

Definition empty_repo (git_dir : string) : got_repository :=
  mkRepo git_dir
    (repeat empty_pack_cache_entry GOT_PACK_CACHE_SIZE)
    (repeat (mkDeltaCache None
               (repeat (mkDeltaCacheEntry 0 None 0) GOT_DELTA_CACHE_ENTRIES))
            GOT_DELTA_CACHE_SIZE).

(** A fresh process over the files [fs] and directories [dirs]. *)
Definition fresh_state (fs : gmap string (list Z)) (dirs : gmap string (list string))
  : state :=
  mkState fs dirs ∅ 0 [] (empty_repo "repo").

Definition id_3 : got_object_id := 3 :: repeat 0 19.
Definition id_5 : got_object_id := 5 :: repeat 0 19.
Definition zero_sha1 : list Z := repeat 0 20.

(** An index whose fanout table describes [id_3; id_5] but whose id table
    holds them in the order [id_5; id_3]. *)
Definition fanout_3_5 (i : Z) : Z := if i <? 3 then 0 else if i <? 5 then 1 else 2.
Definition idx_unsorted : list Z :=
  idx_file fanout_3_5 [id_5; id_3] [0; 0] [12; 13] [] zero_sha1.

(** An index without objects whose fanout table drops at its last entry. *)
Definition fanout_drop (i : Z) : Z := if i =? 254 then 7 else 0.
Definition idx_fanout_drop : list Z :=
  idx_file fanout_drop [] [] [] [] zero_sha1.

Definition pack_12 : list Z := be32 GOT_PACKFILE_SIGNATURE ++ be32 2 ++ be32 0.

Definition state_unsorted : state :=
  fresh_state (<["p.idx" := idx_unsorted]> (<["p.pack" := pack_12]> ∅)) ∅.
Definition state_fanout_drop : state :=
  fresh_state (<["p.idx" := idx_fanout_drop]> (<["p.pack" := pack_12]> ∅)) ∅.

(** The index [idx_unsorted] as loaded. *)
Definition packidx_unsorted : got_packidx_v2_hdr :=
  mkPackidx GOT_PACKIDX_V2_MAGIC GOT_PACKIDX_VERSION
    (fanout_3_5 ∘ Z.of_nat <$> seq 0 256) [id_5; id_3] [0; 0] [12; 13] None
    (mkTrailer zero_sha1
       (SHA1 (take (length idx_unsorted - 20) idx_unsorted))).

(** An index of one object whose offset entry points one past the end of
    its large-offset table. *)
Definition packidx_large_at_totobj : got_packidx_v2_hdr :=
  mkPackidx GOT_PACKIDX_V2_MAGIC GOT_PACKIDX_VERSION
    (repeat 1 256) [id_3] [0] [0x80000001] (Some [5])
    (mkTrailer zero_sha1 zero_sha1).

(** ** A zlib decoder for streams of stored blocks

    The instance of [inflate] the examples run on: the two header bytes,
    stored deflate blocks (BTYPE 00), and the Adler-32 of the data. Any
    other stream is an error. *)

Definition adler32 (data : list Z) : Z :=
  let '(a, b) := fold_left (fun '(a, b) x => let a' := (a + x) mod 65521 in
                                             (a', (b + a') mod 65521))
                           data (1, 0) in
  b * 65536 + a.

Fixpoint stored_blocks (fuel : nat) (bytes out : list Z) (used : Z)
  : option (list Z * Z * list Z) :=
  match fuel, bytes with
  | S fuel', hdr :: l0 :: l1 :: n0 :: n1 :: rest =>
      let len := l0 + 256 * l1 in
      if negb (Z.land hdr 6 =? 0) then None
      else if negb (n0 + 256 * n1 =? 65535 - len) then None
      else if Z.of_nat (length rest) <? len then None
      else
        let out' := out ++ take (Z.to_nat len) rest in
        let rest' := drop (Z.to_nat len) rest in
        if Z.testbit hdr 0 then Some (out', used + 5 + len, rest')
        else stored_blocks fuel' rest' out' (used + 5 + len)
  | _, _ => None
  end.

Definition stored_inflate (bytes : list Z) : result (list Z * Z) :=
  match bytes with
  | 0x78 :: flg :: rest =>
      if negb ((0x78 * 256 + flg) mod 31 =? 0) || Z.testbit flg 5 then Err GOT_ERR_IO
      else match stored_blocks (length rest) rest [] 2 with
           | Some (out, used, a3 :: a2 :: a1 :: a0 :: _) =>
               if betoh [a3; a2; a1; a0] =? adler32 out then Ok (out, used + 4)
               else Err GOT_ERR_IO
           | _ => Err GOT_ERR_IO
           end
  | _ => Err GOT_ERR_IO
  end.

(** The zlib stream of one stored block holding [data]
    ([length data < 65536]). *)
Definition deflate_stored (data : list Z) : list Z :=
  let len := Z.of_nat (length data) in
  [0x78; 0x01; 0x01; len mod 256; len / 256; (65535 - len) mod 256; (65535 - len) / 256]
  ++ data ++ be32 (adler32 data).

(** An object that is not packed. *)
Definition loose_object : got_object :=
  mkObject GOT_OBJ_TYPE_BLOB 0 0 0 id_3 "" 0 (mkChain 0 []).

(** The states after [idx_unsorted] and [idx_fanout_drop] were loaded. *)
Definition state_unsorted_loaded : state :=
  mkState (st_fs state_unsorted) ∅ ∅ 1 [] (empty_repo "repo").
Definition state_fanout_drop_loaded : state :=
  mkState (st_fs state_fanout_drop) ∅ ∅ 1 [] (empty_repo "repo").

(** The index [idx_fanout_drop] as loaded. *)
Definition packidx_fanout_drop : got_packidx_v2_hdr :=
  mkPackidx GOT_PACKIDX_V2_MAGIC GOT_PACKIDX_VERSION
    (fanout_drop ∘ Z.of_nat <$> seq 0 256) [] [] [] None
    (mkTrailer zero_sha1
       (SHA1 (take (length idx_fanout_drop - 20) idx_fanout_drop))).

(** ** Packs in the pack directory of the repository *)

Definition pack_dir : string := "repo/objects/pack".
Definition pack_path (sha1 : list Z) (suffix : string) : string :=
  pack_dir +:+ "/" +:+ GOT_PACK_PREFIX +:+ got_sha1_digest_to_str sha1 +:+ suffix.
Definition pack_idx_name (sha1 : list Z) : string :=
  GOT_PACK_PREFIX +:+ got_sha1_digest_to_str sha1 +:+ GOT_PACKIDX_SUFFIX.

(** The 12-byte header of a pack of [nobjects] objects. *)
Definition pack_header (nobjects : Z) : list Z :=
  be32 GOT_PACKFILE_SIGNATURE ++ be32 GOT_PACKFILE_VERSION ++ be32 nobjects.

(** A loaded index of the single object [id] at offset 12, for the pack
    named by [sha1]. *)
Definition packidx_of (id : got_object_id) (sha1 : list Z) : got_packidx_v2_hdr :=
  mkPackidx GOT_PACKIDX_V2_MAGIC GOT_PACKIDX_VERSION
    ((fun i => if i <? id !!! 0%nat then 0 else 1) ∘ Z.of_nat <$> seq 0 256)
    [id] [0] [12] None (mkTrailer sha1 zero_sha1).

Definition sha_a : list Z := repeat 0xaa 20.
Definition sha_b : list Z := repeat 0xbb 20.
Definition sha_c : list Z := repeat 0xcc 20.
Definition sha_d : list Z := repeat 0xdd 20.
Definition sha_e : list Z := repeat 0xee 20.
Definition id_1 : got_object_id := 1 :: repeat 0 19.
Definition id_2 : got_object_id := 2 :: repeat 0 19.
Definition id_4 : got_object_id := 4 :: repeat 0 19.

Definition cached (id : got_object_id) (sha1 : list Z) (packfile : nat)
  : got_pack_cache_entry :=
  mkPackCacheEntry (Some (packidx_of id sha1)) packfile (pack_path sha1 ".pack").

(** A process whose pack cache is full: the packs a, b, c, d are cached in
    this order, their streams 0 to 3 are open, and pack e is on disk. *)
Definition state_cache_full : state :=
  mkState
    (<[pack_path sha_e ".pack" := pack_header 1]> ∅)
    ∅
    (<[0%nat := mkFILE (pack_header 1) 12]>
       (<[1%nat := mkFILE (pack_header 1) 12]>
          (<[2%nat := mkFILE (pack_header 1) 12]>
             (<[3%nat := mkFILE (pack_header 1) 12]> ∅))))
    4 []
    (mkRepo "repo"
       [cached id_1 sha_a 0; cached id_2 sha_b 1; cached id_3 sha_c 2; cached id_4 sha_d 3]
       (delta_cache (empty_repo "repo"))).

(** The same process after pack e was cached. *)
Definition state_cache_full_after : state :=
  mkState
    (st_fs state_cache_full)
    ∅
    (<[0%nat := mkFILE (pack_header 1) 12]>
       (<[1%nat := mkFILE (pack_header 1) 12]>
          (<[2%nat := mkFILE (pack_header 1) 12]>
             (<[4%nat := mkFILE (pack_header 1) 12]> ∅))))
    5 []
    (mkRepo "repo"
       [cached id_5 sha_e 4; cached id_1 sha_a 0; cached id_2 sha_b 1; cached id_3 sha_c 2]
       (delta_cache (empty_repo "repo"))).

(** ** Packs with delta chains *)

(** A one-byte object header: [type] and a size below 16. *)
Definition obj_header (type size : Z) : list Z := [type * 16 + size].

Definition plain_object (type : Z) (data : list Z) : list Z :=
  obj_header type (Z.of_nat (length data)) ++ deflate_stored data.

(** An OFS delta whose base lies [neg] bytes before it ([neg < 128]). *)
Definition ofs_delta_object (neg : Z) (delta : list Z) : list Z :=
  obj_header GOT_OBJ_TYPE_OFFSET_DELTA (Z.of_nat (length delta)) ++ [neg]
  ++ deflate_stored delta.

Definition base_data : list Z := [10; 20; 30; 40].
(** 4 bytes to 6: copy 4 from 0, insert 50 60. *)
Definition delta_1 : list Z := [4; 6; 0x90; 4; 2; 50; 60].
(** 6 bytes to 3: copy 3 from 2. *)
Definition delta_2 : list Z := [6; 3; 0x91; 2; 3].
(** 3 bytes to 5: copy 3 from 0, insert 70 80. *)
Definition delta_3 : list Z := [3; 5; 0x90; 3; 2; 70; 80].

(** A pack of a blob at offset 12 and three OFS deltas, each against the
    object before it, at the offsets 28, 48 and 66. *)
Definition pack_chain : list Z :=
  pack_header 4 ++ plain_object GOT_OBJ_TYPE_BLOB base_data
  ++ ofs_delta_object 16 delta_1 ++ ofs_delta_object 20 delta_2
  ++ ofs_delta_object 18 delta_3.

Definition path_chain : string := pack_path sha_c ".pack".

(** A process that has [data] open as stream 0 at position [pos]; the
    file is on disk under [path_chain]. *)
Definition state_with_pack (data : list Z) (pos : Z) : state :=
  mkState (<[path_chain := data]> ∅) ∅ (<[0%nat := mkFILE data pos]> ∅) 1 []
          (empty_repo "repo").

(** The chain of the last object of [pack_chain]. *)
Definition chain_of_delta_3 : got_delta_chain :=
  mkChain 4
    [ mkDelta path_chain 12 1 GOT_OBJ_TYPE_BLOB 4 0;
      mkDelta path_chain 28 1 GOT_OBJ_TYPE_OFFSET_DELTA 7 30;
      mkDelta path_chain 48 1 GOT_OBJ_TYPE_OFFSET_DELTA 5 50;
      mkDelta path_chain 66 1 GOT_OBJ_TYPE_OFFSET_DELTA 7 68 ].

(** A pack whose only object, at offset 12, is an OFS delta with the
    negative offset 0: its base is itself. *)
Definition pack_self : list Z := pack_header 1 ++ [0x60; 0x00].

(** A pack of an empty blob at offset 12 and 60 OFS deltas of two bytes,
    each against the object before it; the last one lies at offset 142. *)
Definition pack_deep : list Z :=
  pack_header 61 ++ plain_object GOT_OBJ_TYPE_BLOB []
  ++ [0x60; 12] ++ concat (repeat [0x60; 2] 59).

(** ** Chains of OFS deltas with decreasing offsets *)

(** Follows the base references from the object at [offset] of [data], at
    most [n] of them: [true] when the walk meets only OFS deltas whose base
    lies at a smaller offset, until an object of another type, a header
    that does not decode, or a base offset that is rejected; [false] when
    it meets a REF delta or an OFS delta whose base does not lie before
    it. *)
Fixpoint ofs_chain (n : nat) (data : list Z) (offset : Z) : bool :=
  match parse_object_type_and_size (mkFILE data offset) with
  | (Ok (type, _, _), f) =>
      if type =? GOT_OBJ_TYPE_REF_DELTA then false
      else if type =? GOT_OBJ_TYPE_OFFSET_DELTA then
        match parse_offset_delta f offset with
        | (Ok base_offset, _) =>
            match n with
            | O => false
            | S n' => (base_offset <? offset) && ofs_chain n' data base_offset
            end
        | (Err _, _) => true
        end
      else true
  | (Err _, _) => true
  end.

(** The computation ended: it returned a value or an error. *)
Definition terminates {A : Type} (o : outcome A) : Prop :=
  match o with
  | Done _ _ | Fail _ _ => True
  | Undefined | OutOfFuel => False
  end.

(** ** Objects to extract *)

(** The last object of [pack_chain], as [open_delta_object] describes
    it. *)
Definition object_delta_3 : got_object :=
  mkObject GOT_OBJ_TYPE_BLOB (Z.lor GOT_OBJ_FLAG_PACKED GOT_OBJ_FLAG_DELTIFIED) 0 0 id_3
           path_chain 67 chain_of_delta_3.

(** The blob of [pack_chain], as [open_plain_object] describes it. *)
Definition object_blob : got_object :=
  mkObject GOT_OBJ_TYPE_BLOB GOT_OBJ_FLAG_PACKED 0 4 id_5 path_chain 13 (mkChain 0 []).

(** A process with [pack_chain] on disk, no open stream, and the oracle
    [oracle]. *)
Definition state_chain_on_disk (oracle : list bool) : state :=
  mkState (<[path_chain := pack_chain]> ∅) ∅ ∅ 0 oracle (empty_repo "repo").

(** The bytes of the last object of [pack_chain]. *)
Definition data_delta_3 : list Z := [30; 40; 50; 70; 80].

(** [set_stream s h f] is [s] with the stream [h] set to [f]. *)
Definition set_stream (s : state) (h : nat) (f : FILE) : state :=
  mkState (st_fs s) (st_dirs s) (<[h := f]> (st_open s)) (st_next s) (st_oracle s)
          (st_repo s).

(** ** Two runs over the same pack file

    The extraction to memory reads the pack file through the stream [pm],
    the extraction to a file through the stream [pf]. *)

(** The two runs hold the same repository handle and their pack file
    streams are in the same condition. *)
Definition same_pack (pm pf : nat) (sm sf : state) : Prop :=
  st_repo sm = st_repo sf
  /\ exists f, st_open sm !! pm = Some f /\ st_open sf !! pf = Some f.

(** From [s] to [s'] no stream was opened and no stream but [h] changed. *)
Definition frame (h : nat) (s s' : state) : Prop :=
  st_next s' = st_next s /\ forall h', h' <> h -> st_open s' !! h' = st_open s !! h'.

(** Two computations that, run side by side from [same_pack] states and
    both returning, return the same value in [same_pack] states, the second
    one within [frame]. *)
Definition rel {A : Type} (pm pf : nat) (mm mf : M A) : Prop :=
  forall sm sf am af sm' sf',
    same_pack pm pf sm sf -> mm sm = Done am sm' -> mf sf = Done af sf' ->
    am = af /\ same_pack pm pf sm' sf' /\ frame pf sf sf'.

(** A computation that never returns a value. *)
Definition never_done {A : Type} (m : M A) : Prop :=
  forall s a s', m s <> Done a s'.

(** The second object of [pack_chain] with its chain, and its bytes. *)
Definition chain_of_delta_2 : got_delta_chain :=
  mkChain 3
    [ mkDelta path_chain 12 1 GOT_OBJ_TYPE_BLOB 4 0;
      mkDelta path_chain 28 1 GOT_OBJ_TYPE_OFFSET_DELTA 7 30;
      mkDelta path_chain 48 1 GOT_OBJ_TYPE_OFFSET_DELTA 5 50 ].
Definition object_delta_2 : got_object :=
  mkObject GOT_OBJ_TYPE_BLOB (Z.lor GOT_OBJ_FLAG_PACKED GOT_OBJ_FLAG_DELTIFIED) 0 0 id_4
           path_chain 49 chain_of_delta_2.
Definition data_delta_2 : list Z := [30; 40; 50].

(** Four streams that are pairwise distinct. *)
Definition distinct4 (a b c d : nat) : Prop :=
  a <> b /\ a <> c /\ a <> d /\ b <> c /\ b <> d /\ c <> d.

(** What holds of the run of [dump_delta_chain_to_file] over temporary
    files when its loop is about to take entry number [n], next to the
    buffers of [dump_delta_chain_to_mem] at the same point: the four
    streams are distinct and the accumulator file is rewound; before the
    base, the base file and the output file are empty; between deltas the
    base file starts with the base buffer and the output file is empty;
    after the last delta the output file holds the accumulator. *)
Definition file_inv (pf outfile : nat) (nentries n : Z)
    (base_buf accum_buf : option (list Z)) (accum_size : option Z)
    (v : dump_vars) (sf : state) : Prop :=
  exists bf af,
    v = mkVars n (Some bf) (Some af) None None None
    /\ distinct4 pf outfile bf af
    /\ (exists fa, st_open sf !! af = Some fa /\ f_pos fa = 0)
    /\ (exists fb, st_open sf !! bf = Some fb)
    /\ if n =? 0 then
         accum_size = None
         /\ st_open sf !! bf = Some (mkFILE [] 0)
         /\ st_open sf !! outfile = Some (mkFILE [] 0)
       else if n <? nentries then
         (exists B tail fb, base_buf = Some B /\ st_open sf !! bf = Some fb
                            /\ f_data fb = B ++ tail)
         /\ st_open sf !! outfile = Some (mkFILE [] 0)
       else
         match accum_size with
         | None => True
         | Some sz =>
             exists out fo, accum_buf = Some out /\ sz = Z.of_nat (length out)
                            /\ st_open sf !! outfile = Some fo /\ f_data fo = out
         end.

(** ** Predicates of the statements *)

(** A byte whose continuation flag is set. *)
Definition continued (b : Z) : Prop := Z.land b GOT_PACK_OBJ_SIZE_MORE <> 0.

(** What the scan from [start] returns: [-1] when no entry of
    [sorted_ids] in [start, totobj) is [id], else the first such index. *)
Definition scan_result (sorted_ids : list got_object_id) (id : got_object_id)
    (start totobj r : Z) : Prop :=
  (r = -1 /\ forall k, start <= k < totobj -> sorted_ids !! Z.to_nat k <> Some id)
  \/ (start <= r < totobj /\ sorted_ids !! Z.to_nat r = Some id
      /\ forall k, start <= k < r -> sorted_ids !! Z.to_nat k <> Some id).

(** [Q] holds of a value and final state, [E] of an error and final state;
    undefined behaviour and an exhausted budget promise nothing. *)
Definition post {A : Type} (m : M A) (s : state)
    (Q : A -> state -> Prop) (E : got_error_code -> state -> Prop) : Prop :=
  match m s with
  | Done a s' => Q a s'
  | Fail e s' => E e s'
  | Undefined | OutOfFuel => True
  end.

(** A computation that leaves the repository handle as it is. *)
Definition keeps_repo {A : Type} (m : M A) : Prop :=
  forall s, post m s (fun _ s' => st_repo s' = st_repo s)
                     (fun _ s' => st_repo s' = st_repo s).

(** The pack cache has its [GOT_PACK_CACHE_SIZE] slots. *)
Definition pack_cache_sized (s : state) : Prop :=
  length (pack_cache (st_repo s)) = GOT_PACK_CACHE_SIZE.

(** Streams and files are left alone by a computation that only asks the
    oracle. *)
Definition keeps_streams {A : Type} (m : M A) : Prop :=
  forall s, post m s (fun _ s' => st_open s' = st_open s /\ st_repo s' = st_repo s)
                     (fun _ s' => st_open s' = st_open s /\ st_repo s' = st_repo s).

(** The computation ends, and [Q] holds when it returns a value. *)
Definition total {A : Type} (m : M A) (s : state) (Q : A -> state -> Prop) : Prop :=
  match m s with
  | Done a s' => Q a s'
  | Fail _ _ => True
  | Undefined | OutOfFuel => False
  end.

(** The stream [h] is open on the bytes [data]. *)
Definition stream_of (s : state) (h : nat) (data : list Z) : Prop :=
  exists f, st_open s !! h = Some f /\ f_data f = data.

(** An entry of a delta type. *)
Definition is_delta_entry (d : got_delta) : Prop :=
  d_type d = GOT_OBJ_TYPE_OFFSET_DELTA \/ d_type d = GOT_OBJ_TYPE_REF_DELTA.

(** In [l], every OFS delta is preceded by an entry of the same pack file
    at a positive offset. *)
Definition ofs_after_base (l : list got_delta) : Prop :=
  forall i b d, l !! i = Some b -> l !! S i = Some d ->
                d_type d = GOT_OBJ_TYPE_OFFSET_DELTA ->
                d_path_packfile b = d_path_packfile d /\ 0 < d_offset b.


(** * Further examples *)

(** An index of one object that lies at offset 2^33 of its pack; the
    offset is held in the large-offset table. *)
Definition packidx_large : got_packidx_v2_hdr :=
  mkPackidx GOT_PACKIDX_V2_MAGIC GOT_PACKIDX_VERSION
    ((fun i => if i <? 3 then 0 else 1) ∘ Z.of_nat <$> seq 0 256)
    [id_3] [0] [0x80000000] (Some [0x200000000])
    (mkTrailer zero_sha1 zero_sha1).

(** The delta cache has its dimensions: [GOT_DELTA_CACHE_SIZE] caches of
    [GOT_DELTA_CACHE_ENTRIES] slots each. *)
Definition delta_cache_sized (repo : got_repository) : Prop :=
  length (delta_cache repo) = GOT_DELTA_CACHE_SIZE
  /\ Forall (fun cache => length (dc_deltas cache) = GOT_DELTA_CACHE_ENTRIES)
            (delta_cache repo).

(** No slot of the delta cache, of whatever pack file, holds
    [data_offset]. *)
Definition offset_not_cached (repo : got_repository) (data_offset : Z) : Prop :=
  Forall (fun cache => Forall (fun e => dce_data_offset e <> data_offset)
                              (dc_deltas cache))
         (delta_cache repo).

(** The delta cache of [path], holding the one delta [buf] under the
    offset [off]. *)
Definition delta_cache_of (path : string) (off : Z) (buf : list Z) : got_delta_cache :=
  mkDeltaCache (Some path)
    (mkDeltaCacheEntry off (Some buf) (Z.of_nat (length buf))
     :: repeat (mkDeltaCacheEntry 0 None 0) (GOT_DELTA_CACHE_ENTRIES - 1)).

(** A process whose four delta caches are taken by the pack files a, b, c
    and d, each with one delta cached under the offset 10. *)
Definition state_delta_caches_full : state :=
  mkState ∅ ∅ ∅ 0 []
    (mkRepo "repo" (pack_cache (empty_repo "repo"))
       [delta_cache_of "a.pack" 10 [1]; delta_cache_of "b.pack" 10 [2];
        delta_cache_of "c.pack" 10 [3]; delta_cache_of "d.pack" 10 [4]]).

(** From [s] to [s'] no stream was opened and no stream outside [P]
    changed. *)
Definition frame_on (P : nat -> Prop) (s s' : state) : Prop :=
  st_next s' = st_next s /\ forall h, ~ P h -> st_open s' !! h = st_open s !! h.

(** A computation that opens no stream and leaves the streams outside [P]
    as they are, whether it returns a value or an error. *)
Definition only_streams {A : Type} (P : nat -> Prop) (m : M A) : Prop :=
  forall s, post m s (fun _ s' => frame_on P s s') (fun _ s' => frame_on P s s').

(** A process that has the index [idx_unsorted] on disk but not its pack
    file, and the same process with the index file open. *)
Definition state_idx_only : state :=
  fresh_state (<["p.idx" := idx_unsorted]> ∅) ∅.
Definition state_idx_only_open : state :=
  mkState (st_fs state_idx_only) ∅ (<[0%nat := mkFILE idx_unsorted 0]> ∅) 1 []
          (empty_repo "repo").

(** The index of [pack_chain] as loaded: the blob at offset 12 is [id_5],
    the deltas at the offsets 28, 48 and 66 are [id_1], [id_4] and
    [id_3]. *)
Definition packidx_chain : got_packidx_v2_hdr :=
  mkPackidx GOT_PACKIDX_V2_MAGIC GOT_PACKIDX_VERSION
    ((fun i => if i <? 1 then 0 else if i <? 3 then 1 else if i <? 4 then 2
               else if i <? 5 then 3 else 4) ∘ Z.of_nat <$> seq 0 256)
    [id_1; id_3; id_4; id_5] [0; 0; 0; 0] [28; 66; 48; 12] None
    (mkTrailer sha_c zero_sha1).

(** A process that has [pack_chain] and its index in slot 0 of the pack
    cache, with the pack file open as stream 0. *)
Definition state_chain_cached : state :=
  mkState (<[path_chain := pack_chain]> ∅) ∅ (<[0%nat := mkFILE pack_chain 12]> ∅) 1 []
    (mkRepo "repo"
       (mkPackCacheEntry (Some packidx_chain) 0 path_chain
        :: repeat empty_pack_cache_entry (GOT_PACK_CACHE_SIZE - 1))
       (delta_cache (empty_repo "repo"))).

(** A process whose pack cache holds, in slot 0, the index [packidx_large]
    with its pack file open as stream 0. *)
Definition state_large_cached : state :=
  mkState ∅ ∅ (<[0%nat := mkFILE (pack_header 1) 12]> ∅) 1 []
    (mkRepo "repo"
       (mkPackCacheEntry (Some packidx_large) 0 (pack_path zero_sha1 ".pack")
        :: repeat empty_pack_cache_entry (GOT_PACK_CACHE_SIZE - 1))
       (delta_cache (empty_repo "repo"))).

(** An index as a pack writer makes it: the fanout table has 256 entries,
    none negative or beyond [fanout[255]]; the id table has [fanout[255]]
    entries, fewer than 2^31; and an id whose first byte is above [k] does
    not lie below [fanout[k]]. *)
Definition packidx_well_formed (packidx : got_packidx_v2_hdr) : Prop :=
  let totobj := fanout_table packidx !!! 0xff%nat in
  totobj < 2 ^ 31
  /\ length (fanout_table packidx) = 256%nat
  /\ length (sorted_ids packidx) = Z.to_nat totobj
  /\ Forall (fun x => 0 <= x <= totobj) (fanout_table packidx)
  /\ forall (j k : nat) (oid : got_object_id),
       sorted_ids packidx !! j = Some oid -> Z.of_nat k < oid !!! 0%nat ->
       (k < 256)%nat -> fanout_table packidx !!! k <= Z.of_nat j.

(** The number a run of size bytes spells: seven bits a byte, the least
    significant group first, the first group at bit [shift]. *)
Fixpoint size_digits (bs : list Z) (shift : Z) : Z :=
  match bs with
  | [] => 0
  | b :: bs' => b mod 128 * 2 ^ shift + size_digits bs' (shift + 7)
  end.

(** The number an encoded negative offset spells: seven bits a byte, the
    most significant group first, one added before each further group. *)
Definition negoff_step (o b : Z) : Z := (o + 1) * 128 + b mod 128.

Definition negoff_value (bs : list Z) : Z :=
  fold_left negoff_step (tail bs) (hd 0 bs mod 128).

(** The first entry of a chain cannot be read as a base from the stream
    [packfile] of [s]: it is not of a plain type, or it lies at a negative
    offset, or the bytes at its offset do not inflate. *)
Definition base_unreadable (inflate : list Z -> result (list Z * Z))
    (base : got_delta) (packfile : nat) (s : state) : Prop :=
  is_plain_type (d_type base) = false
  \/ d_offset base + d_tslen base < 0
  \/ exists pf e,
       st_open s !! packfile = Some pf
       /\ inflate (drop (Z.to_nat (d_offset base + d_tslen base)) (f_data pf)) = Err e.


(** A pack of a blob at offset 12 whose zlib stream is damaged in its first
    byte, and an OFS delta against it at offset 28; the chain of the
    delta. *)
Definition pack_bad_base : list Z :=
  pack_header 2 ++ obj_header GOT_OBJ_TYPE_BLOB 4 ++ 0 :: drop 1 (deflate_stored base_data)
  ++ ofs_delta_object 16 delta_1.
Definition chain_bad_base : got_delta_chain :=
  mkChain 2
    [ mkDelta path_chain 12 1 GOT_OBJ_TYPE_BLOB 4 0;
      mkDelta path_chain 28 1 GOT_OBJ_TYPE_OFFSET_DELTA 7 30 ].

(** No stream identifier that is still to be handed out is open. *)
Definition wf_streams (s : state) : Prop :=
  forall h, (st_next s <= h)%nat -> st_open s !! h = None.

(** The temporary files of [v'] are those of [v], possibly with their
    roles exchanged. *)
Definition same_files (v v' : dump_vars) : Prop :=
  (v_base_file v' = v_base_file v /\ v_accum_file v' = v_accum_file v)
  \/ (v_base_file v' = v_accum_file v /\ v_accum_file v' = v_base_file v).

(** From [s] to [s'] the streams of [s] outside [P] are as they were and
    no stream opened since is left open. *)
Definition tidy (P : nat -> Prop) (s s' : state) : Prop :=
  (forall h, (h < st_next s)%nat -> ~ P h -> st_open s' !! h = st_open s !! h)
  /\ (forall h, (st_next s <= h)%nat -> st_open s' !! h = None).

(** * Properties *)

(** ** Streams *)

Lemma fread_byte (f : FILE) :
  0 <= f_pos f ->
  fread 1 1 f =
  match drop (Z.to_nat (f_pos f)) (f_data f) with
  | [] => ([], 0, mkFILE (f_data f) (f_pos f))
  | b :: _ => ([b], 1, mkFILE (f_data f) (f_pos f + 1))
  end.
Proof.
  intros Hpos. unfold fread.
  destruct (drop (Z.to_nat (f_pos f)) (f_data f)) as [|b l] eqn:E; cbn [length].
  - change (Z.of_nat 0) with 0. cbn. rewrite Z.add_0_r. reflexivity.
  - rewrite Z.div_1_r.
    replace (Z.min 1 (Z.of_nat (S (length l)))) with 1 by lia.
    replace (Z.min (1 * 1) (Z.of_nat (S (length l)))) with 1 by lia.
    reflexivity.
Qed.

Lemma drop_succ_pos (data : list Z) (pos b : Z) (l : list Z) :
  0 <= pos ->
  drop (Z.to_nat pos) data = b :: l ->
  drop (Z.to_nat (pos + 1)) data = l.
Proof.
  intros Hpos E.
  replace (Z.to_nat (pos + 1)) with (Z.to_nat pos + 1)%nat by lia.
  rewrite <- drop_drop, E. reflexivity.
Qed.

(** ** Object headers *)

Lemma parse_object_type_and_size_from_continued (n : nat) :
  forall (i t s : Z) (packfile : FILE),
    0 <= f_pos packfile -> i + Z.of_nat n = 10 ->
    let avail := drop (Z.to_nat (f_pos packfile)) (f_data packfile) in
    Forall continued (take n avail) ->
    fst (parse_object_type_and_size_from n i t s packfile) =
    if (length avail <? n)%nat then Err GOT_ERR_BAD_PACKIDX else Err GOT_ERR_NO_SPACE.
Proof.
  induction n as [|n IH]; intros i t s packfile Hpos Hn avail Hall.
  - assert (Hi : i = 10) by lia. subst i. reflexivity.
  - cbn [parse_object_type_and_size_from].
    assert (Hi : (9 <? i) = false) by lia. rewrite Hi.
    rewrite fread_byte by assumption. fold avail.
    destruct avail as [|b l] eqn:E; [reflexivity|].
    cbn [take] in Hall. apply Forall_cons in Hall as [Hb Hall].
    unfold continued in Hb. apply Z.eqb_neq in Hb. rewrite Hb.
    pose proof (drop_succ_pos _ _ _ _ Hpos E) as E'.
    destruct (i =? 0); cbv iota beta;
      (rewrite IH; [ cbn [f_pos f_data]; rewrite E'; reflexivity
                   | cbn [f_pos]; lia | lia
                   | cbn [f_pos f_data]; rewrite E'; exact Hall ]).
Qed.




(** ** Offsets of the index *)

(** C8 at the failing input: with one object and a large-offset table of
    one entry, the indirection index 1 passes the range check and the
    table is read one entry past its end. *)
Lemma get_object_offset_reads_past_table :
  large_offsets packidx_large_at_totobj = Some [5]
  /\ fanout_table packidx_large_at_totobj !!! 0xff%nat = 1
  /\ get_object_offset packidx_large_at_totobj 0 = None.
Proof. repeat split. Qed.

(** ** Objects that are not packed *)

(** C10: extraction of an object without the Packed flag fails with
    [GOT_ERR_OBJ_NOT_PACKED] and leaves the state as it was: no stream is
    opened, no temporary file created, and the caller's buffer and length
    stay untouched. *)
Theorem extract_object_not_packed
    (inflate : list Z -> result (list Z * Z)) (cached_max : Z)
    (obj : got_object) (buf : option (list Z)) (len : Z) (s : state) :
  Z.land (o_flags obj) GOT_OBJ_FLAG_PACKED = 0 ->
  got_packfile_extract_object inflate cached_max obj s = Fail GOT_ERR_OBJ_NOT_PACKED s
  /\ got_packfile_extract_object_to_mem inflate buf len obj s
     = Done (Some GOT_ERR_OBJ_NOT_PACKED, buf, len) s.
Proof.
  intros H. unfold got_packfile_extract_object, got_packfile_extract_object_to_mem.
  rewrite H. split; reflexivity.
Qed.

Lemma extract_object_not_packed_witness :
  got_packfile_extract_object stored_inflate 8388608 loose_object (fresh_state ∅ ∅)
    = Fail GOT_ERR_OBJ_NOT_PACKED (fresh_state ∅ ∅)
  /\ got_packfile_extract_object_to_mem stored_inflate (Some [1; 2]) 2 loose_object
       (fresh_state ∅ ∅)
     = Done (Some GOT_ERR_OBJ_NOT_PACKED, Some [1; 2], 2) (fresh_state ∅ ∅).
Proof.
  apply (extract_object_not_packed stored_inflate 8388608 loose_object (Some [1; 2]) 2
           (fresh_state ∅ ∅)).
  reflexivity.
Defined.

(** ** The monad *)

Lemma bind_Done {A B : Type} (m : M A) (k : A -> M B) (s s' : state) (b : B) :
  (m ≫= k) s = Done b s' ->
  exists a s1, m s = Done a s1 /\ k a s1 = Done b s'.
Proof.
  unfold mbind, M_bind. destruct (m s) as [a s1| | |]; try discriminate. eauto.
Qed.

Lemma attempt_Done {A : Type} (m : M A) (s s' : state) (r : result A) :
  attempt m s = Done r s' ->
  match r with
  | Ok a => m s = Done a s'
  | Err e => m s = Fail e s'
  end.
Proof.
  unfold attempt. destruct (m s); intros H; inversion H; subst; reflexivity.
Qed.

Lemma of_result_Done {A : Type} (r : result A) (s s' : state) (a : A) :
  of_result r s = Done a s' -> r = Ok a /\ s' = s.
Proof.
  destruct r; cbn; intros H; inversion H; auto.
Qed.

Lemma mret_Done {A : Type} (a b : A) (s s' : state) :
  (mret a : M A) s = Done b s' -> a = b /\ s = s'.
Proof. intros H. inversion H. auto. Qed.

(** One step through a computation that finished with [Done]. *)
Tactic Notation "step" hyp(H) "as" ident(a) ident(s) ident(H1) :=
  apply bind_Done in H as (a & s & H1 & H).

Tactic Notation "cond" hyp(H) "as" ident(E) :=
  match type of H with
  | (if negb ?c then _ else _) _ = Done _ _ =>
      destruct c eqn:E; cbn [negb] in H; [|discriminate H]
  end.

(** ** The index loader *)

Lemma got_object_id_cmp_eq (id1 id2 : got_object_id) :
  got_object_id_cmp id1 id2 = 0 <-> id1 = id2.
Proof.
  revert id2. induction id1 as [|a id1 IH]; intros [|b id2]; cbn; try easy.
  destruct (Z.ltb_spec a b); [split; [discriminate | intros [=]; lia]|].
  destruct (Z.ltb_spec b a); [split; [discriminate | intros [=]; lia]|].
  assert (a = b) by lia. subst b. rewrite IH. split; [congruence | intros [=]; auto].
Qed.

Lemma items_length (n size : nat) (raw : list Z) : length (items n size raw) = n.
Proof. revert raw. induction n; intros raw; cbn; auto. Qed.

Lemma verify_fanout_table_loop_Ok (ix : list nat) (fanout_table : list Z) :
  verify_fanout_table_loop ix fanout_table = Ok () ->
  forall i, i ∈ ix -> fanout_table !!! i <= fanout_table !!! (i + 1)%nat.
Proof.
  induction ix as [|j ix IH]; cbn; intros H i Hi.
  - inversion Hi.
  - destruct (Z.gtb_spec (fanout_table !!! j) (fanout_table !!! (j + 1)%nat));
      [discriminate|].
    apply elem_of_cons in Hi as [->|Hi]; [lia | auto].
Qed.

Lemma verify_fanout_table_Ok (fanout_table : list Z) :
  verify_fanout_table fanout_table = Ok () ->
  forall i, (i < 254)%nat -> fanout_table !!! i <= fanout_table !!! (i + 1)%nat.
Proof.
  intros H i Hi. eapply verify_fanout_table_loop_Ok; [exact H|].
  apply elem_of_seq. cbn. lia.
Qed.

Lemma got_packidx_open_body_Done (f : nat) (packfile_size : Z)
    (p : got_packidx_v2_hdr) (s s' : state) :
  got_packidx_open_body f packfile_size s = Done p s' ->
  verify_fanout_table (fanout_table p) = Ok ()
  /\ length (fanout_table p) = 256%nat
  /\ length (sorted_ids p) = Z.to_nat (fanout_table p !!! 0xff%nat)
  /\ length (offsets p) = Z.to_nat (fanout_table p !!! 0xff%nat)
  /\ magic p = GOT_PACKIDX_V2_MAGIC /\ version p = GOT_PACKIDX_VERSION.
Proof.
  unfold got_packidx_open_body. intros H.
  step H as raw_magic s1 H1. cond H as Emagic.
  step H as raw_version s2 H2. cond H as Eversion.
  step H as raw_fanout s3 H3.
  step H as u4 s4 H4. apply of_result_Done in H4 as [Hfan _].
  step H as u5 s5 H5. step H as raw_ids s6 H6.
  step H as u7 s7 H7. step H as raw_crc32 s8 H8.
  step H as u9 s9 H9. step H as raw_offsets s10 H10.
  step H as raw_large s11 H11. step H as raw_trailer s12 H12.
  cond H as Esha1.
  apply mret_Done in H as [<- _].
  cbn [fanout_table sorted_ids offsets magic version].
  rewrite !length_fmap, !items_length.
  apply Z.eqb_eq in Emagic, Eversion. destruct u4.
  repeat split; assumption.
Qed.

(** C2, as the code has it: an index that [got_packidx_open] returns has a
    fanout table that does not decrease over its entries 0 to 254, and an
    id table of [fanout[255]] entries. The last pair of the fanout table
    and the order of the ids are outside the statement. *)
Theorem got_packidx_open_fanout (path : string) (p : got_packidx_v2_hdr)
    (s s' : state) :
  got_packidx_open path s = Done p s' ->
  (forall i, (i < 254)%nat -> fanout_table p !!! i <= fanout_table p !!! (i + 1)%nat)
  /\ length (sorted_ids p) = Z.to_nat (fanout_table p !!! 0xff%nat).
Proof.
  unfold got_packidx_open. intros H.
  step H as f s1 H1. destruct f as [f|]; [|discriminate H].
  step H as packfile_size s2 H2. step H as ok s3 H3.
  destruct ok; cbn [negb] in H; [|step H as u s4 H4; discriminate H].
  step H as r s4 H4. step H as u s5 H5.
  apply of_result_Done in H as [-> _].
  apply attempt_Done in H4.
  apply got_packidx_open_body_Done in H4 as (Hfan & _ & Hids & _).
  split; [apply verify_fanout_table_Ok; exact Hfan | exact Hids].
Qed.

Lemma got_packidx_open_unsorted :
  got_packidx_open "p.idx" state_unsorted = Done packidx_unsorted state_unsorted_loaded.
Proof. vm_compute. reflexivity. Qed.

Lemma got_packidx_open_fanout_drop :
  got_packidx_open "p.idx" state_fanout_drop
  = Done packidx_fanout_drop state_fanout_drop_loaded.
Proof. vm_compute. reflexivity. Qed.

Lemma got_packidx_open_fanout_witness :
  (forall i, (i < 254)%nat ->
     fanout_table packidx_unsorted !!! i <= fanout_table packidx_unsorted !!! (i + 1)%nat)
  /\ length (sorted_ids packidx_unsorted)
     = Z.to_nat (fanout_table packidx_unsorted !!! 0xff%nat).
Proof.
  apply (got_packidx_open_fanout "p.idx" packidx_unsorted state_unsorted
           state_unsorted_loaded).
  vm_compute. reflexivity.
Defined.

(** C2 as the spec words it fails on two indexes the loader accepts: one
    whose ids are stored in descending order, one whose fanout table drops
    from entry 254 to entry 255. *)
Lemma got_packidx_open_accepts_unordered :
  (got_packidx_open "p.idx" state_unsorted = Done packidx_unsorted state_unsorted_loaded
   /\ sorted_ids packidx_unsorted = [id_5; id_3]
   /\ got_object_id_cmp id_5 id_3 = 1)
  /\ (got_packidx_open "p.idx" state_fanout_drop
        = Done packidx_fanout_drop state_fanout_drop_loaded
      /\ fanout_table packidx_fanout_drop !!! 254%nat = 7
      /\ fanout_table packidx_fanout_drop !!! 255%nat = 0).
Proof.
  split; split.
  - exact got_packidx_open_unsorted.
  - split; reflexivity.
  - exact got_packidx_open_fanout_drop.
  - split; reflexivity.
Qed.

(** ** Looking up an id *)

Lemma to_uint32_small (x : Z) : 0 <= x < 2 ^ 32 -> to_uint32 x = x.
Proof. intros H. unfold to_uint32. apply Z.mod_small. exact H. Qed.

Lemma to_int32_small (x : Z) : 0 <= x < 2 ^ 31 -> to_int32 x = x.
Proof. intros H. unfold to_int32. rewrite Z.mod_small; lia. Qed.

Lemma to_uint32_to_int32 (x : Z) : 0 <= x < 2 ^ 32 -> to_uint32 (to_int32 x) = x.
Proof.
  intros H. unfold to_uint32, to_int32.
  destruct (Z.lt_ge_cases x (2 ^ 31)).
  - rewrite (Z.mod_small (x + 2 ^ 31)) by lia.
    rewrite Z.mod_small; lia.
  - replace (x + 2 ^ 31) with (x - 2 ^ 31 + 1 * 2 ^ 32) by lia.
    rewrite Z.mod_add by lia. rewrite (Z.mod_small (x - 2 ^ 31)) by lia.
    replace (x - 2 ^ 31 - 2 ^ 31) with (x + (-1) * 2 ^ 32) by lia.
    rewrite Z.mod_add by lia. apply Z.mod_small. lia.
Qed.

Lemma get_object_idx_loop_scan (n : nat) :
  forall (i totobj : Z) (sorted_ids : list got_object_id) (id : got_object_id),
    0 <= i <= totobj -> totobj < 2 ^ 31 ->
    length sorted_ids = Z.to_nat totobj ->
    (Z.to_nat (totobj - i) <= n)%nat ->
    exists r, get_object_idx_loop n i totobj sorted_ids id = Some r
              /\ scan_result sorted_ids id i totobj r.
Proof.
  induction n as [|n IH]; intros i totobj ids id Hi Htot Hlen Hn.
  - assert (i = totobj) by lia. subst i. cbn.
    rewrite to_uint32_small by lia. rewrite Z.ltb_irrefl.
    exists (-1). split; [reflexivity|]. left. split; [reflexivity|]. intros k Hk. lia.
  - cbn [get_object_idx_loop]. rewrite to_uint32_small by lia.
    destruct (Z.ltb_spec i totobj) as [Hlt|Hge].
    + unfold array_get. destruct (Z.ltb_spec i 0); [lia|].
      destruct (ids !! Z.to_nat i) as [oid|] eqn:Eoid.
      2:{ apply lookup_ge_None in Eoid. lia. }
      destruct (Z.eqb_spec (got_object_id_cmp id oid) 0) as [Hcmp|Hcmp].
      * apply got_object_id_cmp_eq in Hcmp. subst oid.
        exists i. split; [reflexivity|]. right.
        split; [lia|]. split; [exact Eoid|]. intros k Hk. lia.
      * rewrite to_int32_small by lia.
        destruct (IH (i + 1) totobj ids id) as (r & Hr & Hscan); try lia.
        exists r. split; [exact Hr|].
        assert (Hne : ids !! Z.to_nat i <> Some id).
        { rewrite Eoid. intros [=]. apply Hcmp. apply got_object_id_cmp_eq. congruence. }
        destruct Hscan as [[-> Hnone]|(Hrange & Hfound & Hnone)].
        -- left. split; [reflexivity|]. intros k Hk.
           destruct (Z.eq_dec k i) as [->|]; [exact Hne | apply Hnone; lia].
        -- right. split; [lia|]. split; [exact Hfound|]. intros k Hk.
           destruct (Z.eq_dec k i) as [->|]; [exact Hne | apply Hnone; lia].
    + assert (i = totobj) by lia. subst i.
      exists (-1). split; [reflexivity|]. left. split; [reflexivity|]. intros k Hk. lia.
Qed.

(** C3, as the code has it: the scan starts at [fanout[id[0] - 1]] (at 0
    for a first byte 0) and runs up to [fanout[255]], not to
    [fanout[id[0]]]; it returns the first index in that range that holds
    [id], and -1 exactly when the range holds none. *)
Theorem get_object_idx_scans_to_totobj (packidx : got_packidx_v2_hdr)
    (id : got_object_id) :
  let totobj := fanout_table packidx !!! 0xff%nat in
  let start := if id !!! 0%nat >? 0
               then fanout_table packidx !!! Z.to_nat (id !!! 0%nat - 1) else 0 in
  0 <= start < 2 ^ 32 -> 0 <= totobj < 2 ^ 31 ->
  length (sorted_ids packidx) = Z.to_nat totobj ->
  exists r, get_object_idx packidx id = Some r
            /\ scan_result (sorted_ids packidx) id start totobj r.
Proof.
  intros totobj start Hstart Htot Hlen. unfold get_object_idx.
  fold totobj.
  set (i := if id !!! 0%nat >? 0
            then to_int32 (fanout_table packidx !!! Z.to_nat (id !!! 0%nat - 1))
            else 0).
  destruct (Z.le_gt_cases start totobj) as [Hle|Hgt].
  - assert (Hi : i = start).
    { unfold i, start in *. destruct (id !!! 0%nat >? 0);
        [apply to_int32_small; lia | reflexivity]. }
    rewrite Hi. apply get_object_idx_loop_scan; try lia.
  - assert (Hi : to_uint32 i = start).
    { unfold i, start in *. destruct (id !!! 0%nat >? 0);
        [apply to_uint32_to_int32; lia | lia]. }
    exists (-1). split.
    + destruct (Z.to_nat totobj); cbn [get_object_idx_loop]; rewrite Hi;
        destruct (Z.ltb_spec start totobj); (lia || reflexivity).
    + left. split; [reflexivity|]. intros k Hk. lia.
Qed.

Lemma get_object_idx_scans_to_totobj_witness :
  exists r, get_object_idx packidx_unsorted id_3 = Some r
            /\ scan_result (sorted_ids packidx_unsorted) id_3 0 2 r.
Proof.
  apply (get_object_idx_scans_to_totobj packidx_unsorted id_3).
  - vm_compute. split; [discriminate | reflexivity].
  - vm_compute. split; [discriminate | reflexivity].
  - reflexivity.
Defined.

(** C3 as the spec words it fails on the loaded index [packidx_unsorted]:
    the bucket of [id_3] is [fanout[2], fanout[3]) = [0, 1), yet the lookup
    returns index 1, where [id_3] is stored outside its bucket. *)
Lemma get_object_idx_leaves_bucket :
  got_packidx_open "p.idx" state_unsorted = Done packidx_unsorted state_unsorted_loaded
  /\ fanout_table packidx_unsorted !!! 2%nat = 0
  /\ fanout_table packidx_unsorted !!! 3%nat = 1
  /\ get_object_idx packidx_unsorted id_3 = Some 1
  /\ ~ (fanout_table packidx_unsorted !!! 2%nat <= 1 < fanout_table packidx_unsorted !!! 3%nat).
Proof.
  split; [exact got_packidx_open_unsorted|].
  repeat split. vm_compute. intros [_ H]. discriminate H.
Qed.

(** ** Reasoning about computations in [M] *)

Lemma post_bind {A B : Type} (m : M A) (k : A -> M B) (s : state)
    (Q : B -> state -> Prop) (E : got_error_code -> state -> Prop) :
  post m s (fun a s1 => post (k a) s1 Q E) E -> post (m ≫= k) s Q E.
Proof.
  unfold post, mbind, M_bind. destruct (m s); auto.
Qed.

Lemma post_weaken {A : Type} (m : M A) (s : state)
    (Q Q' : A -> state -> Prop) (E E' : got_error_code -> state -> Prop) :
  post m s Q E -> (forall a s', Q a s' -> Q' a s') -> (forall e s', E e s' -> E' e s') ->
  post m s Q' E'.
Proof.
  unfold post. destruct (m s); auto.
Qed.

Lemma post_attempt {A : Type} (m : M A) (s : state)
    (Q : result A -> state -> Prop) (E : got_error_code -> state -> Prop) :
  post m s (fun a s' => Q (Ok a) s') (fun e s' => Q (Err e) s') -> post (attempt m) s Q E.
Proof.
  unfold post, attempt. destruct (m s); auto.
Qed.

Lemma keeps_repo_bind {A B : Type} (m : M A) (k : A -> M B) :
  keeps_repo m -> (forall a, keeps_repo (k a)) -> keeps_repo (m ≫= k).
Proof.
  intros Hm Hk s. apply post_bind.
  eapply post_weaken; [apply Hm | | auto].
  intros a s1 H1. eapply post_weaken; [apply Hk | |]; cbn; intros; congruence.
Qed.

Lemma keeps_repo_ret {A : Type} (a : A) : keeps_repo (mret a).
Proof. intros s. reflexivity. Qed.

Lemma keeps_repo_fail {A : Type} (e : got_error_code) : keeps_repo (@fail A e).
Proof. intros s. reflexivity. Qed.

Lemma keeps_repo_undefined {A : Type} : keeps_repo (@undefined A).
Proof. intros s. exact I. Qed.

Lemma keeps_repo_attempt {A : Type} (m : M A) : keeps_repo m -> keeps_repo (attempt m).
Proof. intros H s. apply post_attempt. apply H. Qed.

Lemma keeps_repo_of_result {A : Type} (r : result A) : keeps_repo (of_result r).
Proof. destruct r; intros s; reflexivity. Qed.

Lemma keeps_repo_alloc : keeps_repo alloc.
Proof. intros s. unfold post, alloc. destruct (st_oracle s); reflexivity. Qed.

Lemma keeps_repo_get_repo : keeps_repo get_repo.
Proof. intros s. reflexivity. Qed.

Lemma keeps_repo_open_stream (f : FILE) : keeps_repo (open_stream f).
Proof. intros s. reflexivity. Qed.

Lemma keeps_repo_fopen (path : string) : keeps_repo (fopen path).
Proof. intros s. unfold post, fopen. destruct (st_fs s !! path); reflexivity. Qed.

Lemma keeps_repo_fclose (h : nat) : keeps_repo (fclose h).
Proof. intros s. unfold post, fclose. destruct (st_open s !! h); [reflexivity | exact I]. Qed.

Lemma keeps_repo_on_file {A : Type} (h : nat) (op : FILE -> A * FILE) :
  keeps_repo (on_file h op).
Proof.
  intros s. unfold post, on_file. destruct (st_open s !! h) as [f|]; [|exact I].
  destruct (op f). reflexivity.
Qed.

Lemma keeps_repo_stat_size (path : string) : keeps_repo (stat_size path).
Proof. intros s. reflexivity. Qed.

Lemma keeps_repo_opendir (path : string) : keeps_repo (opendir path).
Proof. intros s. reflexivity. Qed.

Create HintDb keeps discriminated.
#[local] Hint Resolve keeps_repo_ret keeps_repo_fail keeps_repo_undefined keeps_repo_alloc
  keeps_repo_get_repo keeps_repo_open_stream keeps_repo_fopen keeps_repo_fclose
  keeps_repo_on_file keeps_repo_stat_size keeps_repo_opendir keeps_repo_of_result : keeps.

(** Walks through a computation built from operations that keep the
    repository handle. *)
Ltac keeps_repo :=
  repeat first
    [ solve [auto with keeps]
    | apply keeps_repo_attempt
    | apply keeps_repo_bind; [|intros ?]
    | match goal with
      | |- keeps_repo (if ?c then _ else _) => destruct c
      | |- keeps_repo (match ?x with _ => _ end) => destruct x
      end ].

Lemma keeps_repo_on_file_err {A : Type} (h : nat) (op : FILE -> result A * FILE) :
  keeps_repo (on_file_err h op).
Proof. unfold on_file_err. keeps_repo. Qed.
#[local] Hint Resolve keeps_repo_on_file_err : keeps.

Lemma keeps_repo_fseeko_h (h : nat) (off : Z) : keeps_repo (fseeko_h h off).
Proof. unfold fseeko_h. keeps_repo. Qed.
#[local] Hint Resolve keeps_repo_fseeko_h : keeps.

Lemma keeps_repo_got_opentemp : keeps_repo got_opentemp.
Proof. unfold got_opentemp. keeps_repo. Qed.
#[local] Hint Resolve keeps_repo_got_opentemp : keeps.

Lemma keeps_repo_get_packfile_size (path : string) : keeps_repo (get_packfile_size path).
Proof. unfold get_packfile_size. keeps_repo. Qed.
#[local] Hint Resolve keeps_repo_get_packfile_size : keeps.

Lemma keeps_repo_fread_all (f : nat) (size nmemb : Z) : keeps_repo (fread_all f size nmemb).
Proof. unfold fread_all. keeps_repo. Qed.
#[local] Hint Resolve keeps_repo_fread_all : keeps.

Lemma keeps_repo_got_packidx_open (path : string) : keeps_repo (got_packidx_open path).
Proof.
  unfold got_packidx_open, got_packidx_open_body, calloc_or_fail. keeps_repo.
Qed.
#[local] Hint Resolve keeps_repo_got_packidx_open : keeps.

Lemma keeps_repo_dup_packidx (packidx : got_packidx_v2_hdr) : keeps_repo (dup_packidx packidx).
Proof. unfold dup_packidx. keeps_repo. Qed.
#[local] Hint Resolve keeps_repo_dup_packidx : keeps.

Lemma keeps_repo_got_repo_get_path_objects_pack : keeps_repo got_repo_get_path_objects_pack.
Proof. unfold got_repo_get_path_objects_pack. keeps_repo. Qed.
#[local] Hint Resolve keeps_repo_got_repo_get_path_objects_pack : keeps.

Lemma keeps_repo_get_packfile_path (packidx : got_packidx_v2_hdr) :
  keeps_repo (get_packfile_path packidx).
Proof.
  unfold get_packfile_path. keeps_repo.
Qed.
#[local] Hint Resolve keeps_repo_get_packfile_path : keeps.

Lemma keeps_repo_search_pack_cache (cache : list got_pack_cache_entry) (id : got_object_id) :
  keeps_repo (search_pack_cache cache id).
Proof.
  induction cache as [|e cache IH]; cbn [search_pack_cache].
  - keeps_repo.
  - keeps_repo.
Qed.
#[local] Hint Resolve keeps_repo_search_pack_cache : keeps.

Lemma keeps_repo_Done {A : Type} (m : M A) (s s' : state) (a : A) :
  keeps_repo m -> m s = Done a s' -> st_repo s' = st_repo s.
Proof. intros H E. specialize (H s). unfold post in H. rewrite E in H. exact H. Qed.

Lemma post_keeps_bind {A B : Type} (m : M A) (k : A -> M B) (s : state)
    (Q : B -> state -> Prop) (E : got_error_code -> state -> Prop) :
  keeps_repo m ->
  (forall a s1, st_repo s1 = st_repo s -> post (k a) s1 Q E) ->
  (forall e s1, st_repo s1 = st_repo s -> E e s1) ->
  post (m ≫= k) s Q E.
Proof.
  intros Hm Hk He. apply post_bind.
  eapply post_weaken; [apply Hm | exact Hk | exact He].
Qed.

(** ** The pack cache *)

Lemma memmove_up_length {A : Type} (a : list A) : length (memmove_up a) = length a.
Proof.
  unfold memmove_up. destruct a as [|x a]; [reflexivity|].
  rewrite length_app, !length_take. cbn [length]. lia.
Qed.

Lemma cache_pack_sized (packidx : got_packidx_v2_hdr) (s : state) :
  pack_cache_sized s ->
  post (cache_pack packidx) s (fun _ s' => pack_cache_sized s')
                              (fun _ s' => pack_cache_sized s').
Proof.
  unfold pack_cache_sized. intros Hs. unfold cache_pack.
  apply post_keeps_bind; [auto with keeps | | intros; congruence].
  intros path_packfile s1 H1.
  apply post_keeps_bind; [auto with keeps | | intros; congruence].
  intros [packfile|] s2 H2; [|cbn; congruence].
  apply post_keeps_bind; [keeps_repo | | intros; congruence].
  intros [[]|e] s3 H3.
  2:{ apply post_keeps_bind; [auto with keeps | | intros; congruence].
      intros _ s4 H4. cbn. congruence. }
  apply post_bind. unfold post at 1, get_repo.
  assert (Hlen : length (pack_cache (st_repo s3)) = GOT_PACK_CACHE_SIZE) by congruence.
  set (cache0 := pack_cache (st_repo s3)) in *.
  set (i0 := first_free_pack_slot cache0).
  assert (Hevict :
    forall (k : list got_pack_cache_entry * nat -> M unit) ,
      (forall cache i s4, length cache = GOT_PACK_CACHE_SIZE -> st_repo s4 = st_repo s3 ->
         post (k (cache, i)) s4 (fun _ s' => pack_cache_sized s')
                                (fun _ s' => pack_cache_sized s')) ->
      post ((if (i0 =? length cache0)%nat
             then match cache0 !! (i0 - 1)%nat with
                  | None => undefined
                  | Some last => _ ← fclose (pc_packfile last); mret (memmove_up cache0, O)
                  end
             else mret (cache0, i0)) ≫= k) s3
           (fun _ s' => pack_cache_sized s') (fun _ s' => pack_cache_sized s')).
  { intros k Hk. apply post_bind. destruct (i0 =? length cache0)%nat.
    - destruct (cache0 !! (i0 - 1)%nat) as [last|]; [|exact I].
      apply post_keeps_bind; [auto with keeps | | unfold pack_cache_sized; intros; congruence].
      intros _ s4 H4. unfold post at 1. cbn. apply Hk; [|exact H4].
      rewrite memmove_up_length. exact Hlen.
    - unfold post at 1. cbn. apply Hk; [exact Hlen | reflexivity]. }
  apply Hevict. clear Hevict. intros cache i s4 Hcache H4.
  apply post_keeps_bind; [auto with keeps | | unfold pack_cache_sized; intros; congruence].
  intros dup s5 H5. apply post_bind. unfold post at 1, get_repo.
  destruct dup as [p|].
  - unfold post, put_repo, pack_cache_sized. cbn. rewrite length_insert. exact Hcache.
  - apply post_bind. unfold post at 1, put_repo.
    eapply post_weaken; [apply keeps_repo_fclose | |];
      unfold pack_cache_sized; cbn; intros ? ? ->; cbn; rewrite length_alter; exact Hcache.
Qed.

Lemma search_packdir_sized (path_packdir : string) (dents : list string)
    (id : got_object_id) :
  forall s, pack_cache_sized s ->
    post (search_packdir path_packdir dents id) s
      (fun _ s' => pack_cache_sized s') (fun _ s' => pack_cache_sized s').
Proof.
  induction dents as [|d_name dents IH]; intros s Hs; cbn [search_packdir].
  - exact Hs.
  - destruct (negb (is_packidx_filename d_name (String.length d_name))); [auto|].
    unfold pack_cache_sized in *.
    apply post_keeps_bind; [auto with keeps | | intros; congruence].
    intros [|] s1 H1; cbn [negb]; [|cbn; congruence].
    apply post_keeps_bind; [auto with keeps | | intros; congruence].
    intros packidx s2 H2.
    destruct (get_object_idx packidx id) as [idx|]; [|exact I].
    destruct (negb (idx =? -1)).
    + apply post_bind. apply post_attempt.
      assert (Hs2 : pack_cache_sized s2) by (unfold pack_cache_sized; congruence).
      eapply post_weaken; [apply cache_pack_sized; exact Hs2 | |];
        cbn; intros; assumption.
    + apply IH. congruence.
Qed.

Lemma search_packidx_sized (id : got_object_id) (s : state) :
  pack_cache_sized s ->
  post (search_packidx id) s
    (fun _ s' => pack_cache_sized s') (fun _ s' => pack_cache_sized s').
Proof.
  intros Hs. unfold search_packidx.
  apply post_bind. unfold post at 1, get_repo.
  unfold pack_cache_sized in *.
  apply post_keeps_bind; [auto with keeps | | intros; congruence].
  intros [found|] s1 H1; [cbn; congruence|].
  apply post_keeps_bind; [auto with keeps | | intros; congruence].
  intros [path_packdir|] s2 H2; [|cbn; congruence].
  apply post_keeps_bind; [auto with keeps | | intros; congruence].
  intros [dents|] s3 H3; [|cbn; congruence].
  apply search_packdir_sized. unfold pack_cache_sized. congruence.
Qed.

Lemma keeps_streams_bind {A B : Type} (m : M A) (k : A -> M B) :
  keeps_streams m -> (forall a, keeps_streams (k a)) -> keeps_streams (m ≫= k).
Proof.
  intros Hm Hk s. apply post_bind.
  eapply post_weaken; [apply Hm | | auto].
  intros a s1 [H1 H1']. eapply post_weaken; [apply Hk | |]; cbn;
    intros ? ? [? ?]; split; congruence.
Qed.

Lemma keeps_streams_alloc : keeps_streams alloc.
Proof. intros s. unfold post, alloc. destruct (st_oracle s); split; reflexivity. Qed.

Lemma keeps_streams_ret {A : Type} (a : A) : keeps_streams (mret a).
Proof. intros s. split; reflexivity. Qed.

Lemma keeps_streams_fail {A : Type} (e : got_error_code) : keeps_streams (@fail A e).
Proof. intros s. split; reflexivity. Qed.

Lemma keeps_streams_dup_packidx (packidx : got_packidx_v2_hdr) :
  keeps_streams (dup_packidx packidx).
Proof.
  unfold dup_packidx.
  repeat first [ apply keeps_streams_alloc | apply keeps_streams_ret
               | apply keeps_streams_bind; [|intros ?]
               | match goal with |- keeps_streams (if ?c then _ else _) => destruct c end ].
Qed.

Lemma keeps_streams_search_pack_cache (cache : list got_pack_cache_entry)
    (id : got_object_id) :
  keeps_streams (search_pack_cache cache id).
Proof.
  induction cache as [|e cache IH]; cbn [search_pack_cache].
  - apply keeps_streams_ret.
  - destruct (pc_packidx e) as [cached|]; [|apply keeps_streams_ret].
    destruct (get_object_idx cached id) as [idx|]; [|intros s; exact I].
    destruct (negb (idx =? -1)); [|exact IH].
    apply keeps_streams_bind; [apply keeps_streams_dup_packidx|].
    intros [p|]; [apply keeps_streams_ret | apply keeps_streams_fail].
Qed.

Lemma keeps_streams_Done {A : Type} (m : M A) (s s' : state) (a : A) :
  keeps_streams m -> m s = Done a s' -> st_open s' = st_open s /\ st_repo s' = st_repo s.
Proof. intros H E. specialize (H s). unfold post in H. rewrite E in H. exact H. Qed.

(** What [cache_pack] does to a cache without a free slot. *)
Lemma cache_pack_full (packidx : got_packidx_v2_hdr) (s s' : state) :
  pack_cache_sized s ->
  first_free_pack_slot (pack_cache (st_repo s)) = GOT_PACK_CACHE_SIZE ->
  cache_pack packidx s = Done () s' ->
  exists last, pack_cache (st_repo s) !! 3%nat = Some last
               /\ st_open s' !! pc_packfile last = None
               /\ drop 1 (pack_cache (st_repo s')) = take 3 (pack_cache (st_repo s)).
Proof.
  unfold pack_cache_sized. intros Hs Hfull H. unfold cache_pack in H.
  step H as path_packfile s1 H1. apply keeps_repo_Done in H1; [|auto with keeps].
  step H as packfile s2 H2. apply keeps_repo_Done in H2; [|auto with keeps].
  destruct packfile as [packfile|]; [|discriminate H].
  step H as r s3 H3. apply keeps_repo_Done in H3; [|keeps_repo].
  destruct r as [[]|e]; [|step H as u s4 H4; discriminate H].
  step H as repo s4 H4. apply mret_Done in H4 as [<- <-].
  assert (Hrepo : st_repo s3 = st_repo s) by congruence.
  rewrite Hrepo in H. rewrite Hfull, Hs in H. cbn [Nat.eqb GOT_PACK_CACHE_SIZE] in H.
  step H as ci s5 H5.
  change (GOT_PACK_CACHE_SIZE - 1)%nat with 3%nat in H5.
  destruct (pack_cache (st_repo s) !! 3%nat) as [last|] eqn:Elast; [|discriminate H5].
  step H5 as u s6 H6. apply mret_Done in H5 as [<- <-].
  exists last. split; [reflexivity|].
  assert (Hclosed : st_open s6 !! pc_packfile last = None).
  { unfold fclose in H6. destruct (st_open s3 !! pc_packfile last); [|discriminate H6].
    inversion H6; subst. cbn. apply lookup_delete_eq. }
  assert (Hrepo6 : st_repo s6 = st_repo s).
  { apply keeps_repo_Done in H6; [congruence | auto with keeps]. }
  step H as dup s7 H7. apply keeps_streams_Done in H7 as [Hopen7 Hrepo7];
    [|apply keeps_streams_dup_packidx].
  step H as repo s8 H8. apply mret_Done in H8 as [<- <-].
  destruct (pack_cache (st_repo s)) as [|c0 [|c1 [|c2 [|c3 [|]]]]] eqn:Ecache;
    try discriminate Hs.
  destruct dup as [p|].
  - inversion H; subst. cbn. split; [congruence | reflexivity].
  - step H as u' s9 H9. inversion H9; subst. cbn in H.
    unfold fclose in H. cbn in H.
    destruct (st_open s7 !! packfile) eqn:Epf; [|discriminate H].
    inversion H; subst. cbn. split; [|reflexivity].
    destruct (decide (packfile = pc_packfile last)) as [->|Hne].
    + apply lookup_delete_eq.
    + rewrite lookup_delete_ne by exact Hne. congruence.
Qed.

(** What [cache_pack] does to a cache with a free slot: the other slots
    stay. *)
Lemma cache_pack_free_slot (packidx : got_packidx_v2_hdr) (s s' : state) :
  (first_free_pack_slot (pack_cache (st_repo s)) < length (pack_cache (st_repo s)))%nat ->
  cache_pack packidx s = Done () s' ->
  forall j, j <> first_free_pack_slot (pack_cache (st_repo s)) ->
            pack_cache (st_repo s') !! j = pack_cache (st_repo s) !! j.
Proof.
  intros Hfree H j Hj. unfold cache_pack in H.
  step H as path_packfile s1 H1. apply keeps_repo_Done in H1; [|auto with keeps].
  step H as packfile s2 H2. apply keeps_repo_Done in H2; [|auto with keeps].
  destruct packfile as [packfile|]; [|discriminate H].
  step H as r s3 H3. apply keeps_repo_Done in H3; [|keeps_repo].
  destruct r as [[]|e]; [|step H as u s4 H4; discriminate H].
  step H as repo s4 H4. apply mret_Done in H4 as [<- <-].
  assert (Hrepo : st_repo s3 = st_repo s) by congruence.
  rewrite Hrepo in H.
  destruct (Nat.eqb_spec (first_free_pack_slot (pack_cache (st_repo s)))
                         (length (pack_cache (st_repo s)))) as [Heq|_]; [lia|].
  step H as ci s5 H5. apply mret_Done in H5 as [<- <-].
  step H as dup s7 H7.
  step H as repo s8 H8. apply mret_Done in H8 as [<- <-].
  destruct dup as [p|].
  - inversion H; subst. cbn. apply list_lookup_insert_ne. congruence.
  - step H as u s9 H9. inversion H9; subst. cbn in H.
    unfold fclose in H. cbn in H.
    destruct (st_open s7 !! packfile) eqn:Epf; [|discriminate H].
    inversion H; subst. cbn. apply list_lookup_alter_ne. congruence.
Qed.




(** ** Termination of computations *)

Lemma total_bind {A B : Type} (m : M A) (k : A -> M B) (s : state)
    (Q : B -> state -> Prop) :
  total m s (fun a s1 => total (k a) s1 Q) -> total (m ≫= k) s Q.
Proof. unfold total, mbind, M_bind. destruct (m s); auto. Qed.

Lemma total_terminates {A : Type} (m : M A) (s : state) (Q : A -> state -> Prop) :
  total m s Q -> terminates (m s).
Proof. unfold total, terminates. destruct (m s); auto. Qed.

Lemma total_on_file {A : Type} (h : nat) (op : FILE -> A * FILE) (s : state) (f : FILE)
    (Q : A -> state -> Prop) :
  st_open s !! h = Some f ->
  (forall s', st_open s' !! h = Some (op f).2 -> Q (op f).1 s') ->
  total (on_file h op) s Q.
Proof.
  intros Hf HQ. unfold total, on_file. rewrite Hf.
  destruct (op f) as [a f'] eqn:E. apply HQ. cbn. apply lookup_insert_eq.
Qed.

Lemma total_alloc (s : state) (Q : bool -> state -> Prop) :
  (forall b s', st_open s' = st_open s -> Q b s') -> total alloc s Q.
Proof.
  intros HQ. unfold total, alloc. destruct (st_oracle s); apply HQ; reflexivity.
Qed.

Lemma total_add_delta (deltas : got_delta_chain) (path_packfile : string)
    (offset tslen type size data_offset : Z) (s : state)
    (Q : got_delta_chain -> state -> Prop) :
  (forall s', st_open s' = st_open s ->
     Q (mkChain (nentries deltas + 1)
          (mkDelta path_packfile offset tslen type size data_offset :: entries deltas)) s') ->
  total (add_delta deltas path_packfile offset tslen type size data_offset) s Q.
Proof.
  intros HQ. unfold add_delta, got_delta_open.
  apply total_bind. apply total_bind. apply total_alloc. intros [|] s1 H1; cbn.
  - apply HQ. exact H1.
  - exact I.
Qed.

(** ** Streams keep their bytes *)

Lemma fread_data (size nmemb : Z) (f : FILE) : f_data (fread size nmemb f).2 = f_data f.
Proof. reflexivity. Qed.

Lemma parse_object_type_and_size_from_data (n : nat) :
  forall (i t s : Z) (f : FILE),
    f_data (parse_object_type_and_size_from n i t s f).2 = f_data f.
Proof.
  induction n as [|n IH]; intros i t s f; cbn [parse_object_type_and_size_from];
    pose proof (fread_data 1 1 f) as Hd;
    destruct (fread 1 1 f) as [[l k] f']; cbn [snd] in Hd;
    repeat match goal with
           | |- context [match ?x with _ => _ end] => destruct x; cbn [snd]
           | |- context [if ?c then _ else _] => destruct c; cbn [snd]
           end;
    try reflexivity; try exact Hd; rewrite IH; exact Hd.
Qed.

Lemma parse_object_type_and_size_data (f : FILE) :
  f_data (parse_object_type_and_size f).2 = f_data f.
Proof. apply parse_object_type_and_size_from_data. Qed.

Lemma parse_negative_offset_from_data (n : nat) :
  forall (i o : Z) (f : FILE),
    f_data (parse_negative_offset_from n i o f).2 = f_data f.
Proof.
  induction n as [|n IH]; intros i o f; cbn [parse_negative_offset_from];
    pose proof (fread_data 1 1 f) as Hd;
    destruct (fread 1 1 f) as [[l k] f']; cbn [snd] in Hd;
    repeat match goal with
           | |- context [match ?x with _ => _ end] => destruct x; cbn [snd]
           | |- context [if ?c then _ else _] => destruct c; cbn [snd]
           end;
    try reflexivity; try exact Hd; rewrite IH; exact Hd.
Qed.

Lemma parse_offset_delta_data (f : FILE) (offset : Z) :
  f_data (parse_offset_delta f offset).2 = f_data f.
Proof.
  unfold parse_offset_delta.
  pose proof (parse_negative_offset_from_data 9 0 0 f) as Hd.
  unfold parse_negative_offset.
  destruct (parse_negative_offset_from 9 0 0 f) as [[[negoffset len]|e] f'];
    cbn [snd] in Hd; [|exact Hd].
  destruct (to_int64 (offset - negoffset) <=? 0); exact Hd.
Qed.

Lemma parse_offset_delta_positive (f f' : FILE) (offset base_offset : Z) :
  parse_offset_delta f offset = (Ok base_offset, f') -> 0 < base_offset.
Proof.
  unfold parse_offset_delta.
  destruct (parse_negative_offset f) as [[[negoffset len]|e] f0]; [|discriminate].
  destruct (Z.leb_spec (to_int64 (offset - negoffset)) 0); [discriminate|].
  intros [= <- _]. assumption.
Qed.

(** ** Delta-chain resolution: termination *)

Lemma resolve_object_at_total (data : list Z) (packfile : nat) (path_packfile : string)
    (n : nat) :
  forall (offset : Z) (fuel : nat) (deltas : got_delta_chain) (s : state),
    ofs_chain n data offset = true -> (n < fuel)%nat ->
    stream_of s packfile data ->
    total (resolve_object_at fuel deltas packfile path_packfile offset) s
          (fun _ _ => True).
Proof.
  induction n as [|n IH]; intros offset fuel deltas s Hwalk Hfuel (f & Hf & Hdata);
    (destruct fuel as [|fuel]; [lia|]);
    unfold resolve_object_at;
    apply total_bind; unfold fseeko_h;
    (eapply total_on_file; [exact Hf|]); intros s1 Hs1;
    unfold fseeko in *;
    (destruct (offset <? 0); cbn [fst snd negb] in *; [exact I|]);
    rewrite Hdata in Hs1;
    apply total_bind; unfold on_file_err; apply total_bind;
    (eapply total_on_file; [exact Hs1|]); intros s2 Hs2;
    cbn [ofs_chain] in Hwalk;
    pose proof (parse_object_type_and_size_data (mkFILE data offset)) as Hd2;
    destruct (parse_object_type_and_size (mkFILE data offset))
      as [[[[type size] tslen]|e] f2]; cbn [fst snd of_result] in *;
    try exact I;
    unfold total at 1; cbn [mret M_ret];
    cbn [resolve_delta_chain];
    (destruct (is_plain_type type); [apply total_add_delta; intros; exact I|]);
    (destruct (type =? GOT_OBJ_TYPE_REF_DELTA) eqn:Eref; [discriminate Hwalk|]);
    (destruct (type =? GOT_OBJ_TYPE_OFFSET_DELTA) eqn:Eofs; [|exact I]);
    unfold resolve_offset_delta;
    apply total_bind; unfold on_file_err; apply total_bind;
    (eapply total_on_file; [exact Hs2|]); intros s3 Hs3;
    pose proof (parse_offset_delta_data f2 offset) as Hd3;
    destruct (parse_offset_delta f2 offset) as [[base_offset|e] f3];
    cbn [fst snd of_result] in *; try exact I;
    try discriminate Hwalk.
  (* only the step case is left: an OFS delta with an accepted base *)
  apply andb_prop in Hwalk as [Hbase Hwalk].
  unfold total at 1; cbn [mret M_ret].
  apply total_bind. eapply total_on_file; [exact Hs3|]. intros s4 Hs4.
  cbn [fst snd] in *.
  apply total_bind. apply total_add_delta. intros s5 Hs5.
  change (total (resolve_object_at fuel
                   (mkChain (nentries deltas + 1)
                      (mkDelta path_packfile offset tslen type size (ftello f3)
                       :: entries deltas))
                   packfile path_packfile base_offset) s5 (fun _ _ => True)).
  apply IH; [exact Hwalk | lia |].
  exists f3. split; [rewrite Hs5; exact Hs4 | cbn [f_data] in *; congruence].
Qed.

(** C1, as the code has it: resolution has no depth bound; it ends
    because offsets decrease. When the walk from the object at [offset]
    meets only OFS deltas whose base lies at a smaller offset, resolving
    that object ends, with a chain or an error, within [offset + 1] nested
    calls. *)
Theorem resolve_ofs_chain_terminates (data : list Z) (packfile : nat)
    (path_packfile : string) (offset : Z) (fuel : nat) (deltas : got_delta_chain)
    (s : state) :
  stream_of s packfile data ->
  ofs_chain (Z.to_nat offset) data offset = true ->
  (Z.to_nat offset < fuel)%nat ->
  terminates (resolve_object_at fuel deltas packfile path_packfile offset s).
Proof.
  intros Hs Hwalk Hfuel. eapply total_terminates.
  eapply resolve_object_at_total; eassumption.
Qed.

Lemma resolve_ofs_chain_terminates_witness :
  terminates (resolve_object_at 67 (mkChain 0 []) 0 path_chain 66
                (state_with_pack pack_chain 0)).
Proof.
  apply (resolve_ofs_chain_terminates pack_chain 0 path_chain 66 67 (mkChain 0 [])
           (state_with_pack pack_chain 0)).
  - exists (mkFILE pack_chain 0). split; reflexivity.
  - vm_compute. reflexivity.
  - vm_compute. lia.
Defined.

Lemma bind_run {A B : Type} (m : M A) (k : A -> M B) (s s1 : state) (a : A) :
  m s = Done a s1 -> (m ≫= k) s = k a s1.
Proof. intros H. unfold mbind, M_bind. rewrite H. reflexivity. Qed.

(** One round of the resolution of the object of [pack_self]: the base of
    the delta at offset 12 is the object at offset 12. *)
Lemma resolve_self_round (fuel : nat) (deltas : got_delta_chain) (pos : Z) :
  resolve_object_at (S fuel) deltas 0 path_chain 12 (state_with_pack pack_self pos)
  = resolve_object_at fuel
      (mkChain (nentries deltas + 1)
         (mkDelta path_chain 12 1 GOT_OBJ_TYPE_OFFSET_DELTA 0 14 :: entries deltas))
      0 path_chain 12 (state_with_pack pack_self 14).
Proof.
  unfold resolve_object_at at 1.
  rewrite (bind_run _ _ _ (state_with_pack pack_self 12) true) by reflexivity.
  cbn [negb].
  rewrite (bind_run _ _ _ (state_with_pack pack_self 13)
             (GOT_OBJ_TYPE_OFFSET_DELTA, 0, 1)) by reflexivity.
  cbv beta iota. cbn [resolve_delta_chain].
  change (is_plain_type GOT_OBJ_TYPE_OFFSET_DELTA) with false.
  change (GOT_OBJ_TYPE_OFFSET_DELTA =? GOT_OBJ_TYPE_OFFSET_DELTA) with true.
  cbv iota. unfold resolve_offset_delta.
  rewrite (bind_run _ _ _ (state_with_pack pack_self 14) 12) by reflexivity.
  rewrite (bind_run _ _ _ (state_with_pack pack_self 14) 14) by reflexivity.
  rewrite (bind_run _ _ _ (state_with_pack pack_self 14)
             (mkChain (nentries deltas + 1)
                (mkDelta path_chain 12 1 GOT_OBJ_TYPE_OFFSET_DELTA 0 14 :: entries deltas)))
    by reflexivity.
  reflexivity.
Qed.

Lemma resolve_self_never_ends (fuel : nat) :
  forall (deltas : got_delta_chain) (pos : Z),
    resolve_object_at fuel deltas 0 path_chain 12 (state_with_pack pack_self pos)
    = OutOfFuel.
Proof.
  induction fuel as [|fuel IH]; intros deltas pos.
  - reflexivity.
  - rewrite resolve_self_round. apply IH.
Qed.

(** C1 as the spec words it fails twice. The object of [pack_self] is an
    OFS delta whose negative offset is 0: its resolution recurses into
    itself and exhausts every budget. The last object of [pack_deep] has a
    chain of 60 deltas: its resolution returns the chain of 61 entries, not
    [GOT_ERR_BAD_DELTA_CHAIN]. *)
Lemma resolve_delta_chain_unbounded :
  (forall fuel,
     resolve_object_at fuel (mkChain 0 []) 0 path_chain 12 (state_with_pack pack_self 0)
     = OutOfFuel)
  /\ exists deltas s',
       resolve_object_at 100 (mkChain 0 []) 0 path_chain 142 (state_with_pack pack_deep 0)
       = Done deltas s'
       /\ nentries deltas = 61 /\ length (entries deltas) = 61%nat.
Proof.
  split.
  - intros fuel. apply resolve_self_never_ends.
  - destruct (resolve_object_at 100 (mkChain 0 []) 0 path_chain 142
                (state_with_pack pack_deep 0)) as [deltas s'| | |] eqn:E;
      try (vm_compute in E; discriminate E).
    exists deltas, s'. split; [reflexivity|].
    vm_compute in E. inversion E. split; reflexivity.
Qed.

(** ** Delta-chain resolution: the order of the chain *)

Lemma add_delta_Done (deltas deltas' : got_delta_chain) (path_packfile : string)
    (offset tslen type size data_offset : Z) (s s' : state) :
  add_delta deltas path_packfile offset tslen type size data_offset s = Done deltas' s' ->
  deltas' = mkChain (nentries deltas + 1)
              (mkDelta path_packfile offset tslen type size data_offset :: entries deltas).
Proof.
  unfold add_delta, got_delta_open. intros H.
  step H as delta s1 H1. step H1 as ok s2 H2.
  destruct ok; cbn [negb] in H1; apply mret_Done in H1 as [<- <-].
  - apply mret_Done in H as [<- _]. reflexivity.
  - discriminate H.
Qed.

(** [resolve_offset_delta] inserts the delta at the head of the chain and
    then resolves its base, which lies in the same pack file at a positive
    offset. *)
Lemma resolve_offset_delta_Done (rec : resolver) (deltas deltas' : got_delta_chain)
    (packfile : nat) (path_packfile : string) (delta_offset tslen delta_type delta_size : Z)
    (s s' : state) :
  resolve_offset_delta rec deltas packfile path_packfile delta_offset tslen delta_type
    delta_size s = Done deltas' s' ->
  exists data_offset base_offset base_tslen base_type base_size s1,
    0 < base_offset
    /\ rec (mkChain (nentries deltas + 1)
              (mkDelta path_packfile delta_offset tslen delta_type delta_size data_offset
               :: entries deltas))
           packfile path_packfile base_offset base_tslen base_type base_size s1
       = Done deltas' s'.
Proof.
  unfold resolve_offset_delta. intros H.
  step H as base_offset s1 H1. step H as data_offset s2 H2.
  step H as deltas1 s3 H3. apply add_delta_Done in H3. subst deltas1.
  step H as ok s4 H4. destruct ok; cbn [negb] in H; [|discriminate H].
  step H as hdr s5 H5. destruct hdr as [[base_type base_size] base_tslen].
  exists data_offset, base_offset, base_tslen, base_type, base_size, s5.
  split; [|exact H].
  unfold on_file_err in H1. step H1 as r s0 H0.
  apply of_result_Done in H1 as [-> _].
  unfold on_file in H0. destruct (st_open s !! packfile) as [f|]; [|discriminate H0].
  destruct (parse_offset_delta f delta_offset) as [r f'] eqn:E.
  inversion H0; subst. eapply parse_offset_delta_positive. exact E.
Qed.

(** [resolve_ref_delta] inserts the delta at the head of the chain and then
    resolves its base in the pack file the id was found in. *)
Lemma resolve_ref_delta_Done (rec : resolver) (deltas deltas' : got_delta_chain)
    (packfile : nat) (path_packfile : string) (delta_offset tslen delta_type delta_size : Z)
    (s s' : state) :
  resolve_ref_delta rec deltas packfile path_packfile delta_offset tslen delta_type
    delta_size s = Done deltas' s' ->
  exists data_offset base_packfile path_base_packfile base_offset base_tslen base_type
         base_size s1 s2,
    rec (mkChain (nentries deltas + 1)
           (mkDelta path_packfile delta_offset tslen delta_type delta_size data_offset
            :: entries deltas))
        base_packfile path_base_packfile base_offset base_tslen base_type base_size s1
    = Done deltas' s2.
Proof.
  unfold resolve_ref_delta. intros H.
  step H as idn s1 H1. destruct idn as [id n].
  destruct (negb (n =? 1)); [discriminate H|].
  step H as data_offset s2 H2.
  step H as deltas1 s3 H3. apply add_delta_Done in H3. subst deltas1.
  step H as found s4 H4. destruct found as [packidx idx].
  destruct (get_object_offset packidx idx) as [base_offset|]; [|discriminate H].
  destruct (base_offset =? -1); [discriminate H|].
  step H as opened s5 H5. destruct opened as [[base_packfile path_base_packfile] pack_cached].
  step H as r s6 H6. step H as u s7 H7.
  apply of_result_Done in H as [-> _].
  apply attempt_Done in H6.
  step H6 as ok s8 H8. destruct ok; cbn [negb] in H6; [|discriminate H6].
  step H6 as hdr s9 H9. destruct hdr as [[base_type base_size] base_tslen].
  exists data_offset, base_packfile, path_base_packfile, base_offset, base_tslen,
    base_type, base_size, s9, s6.
  exact H6.
Qed.



(** ** Extraction to memory: what a failure returns *)

Section MaterialisationFacts.

Variable inflate : list Z -> result (list Z * Z).
Variable cached_max : Z.

Lemma dump_delta_chain_to_mem_failure (deltas : got_delta_chain) (packfile : nat)
    (path_packfile : string) (s s' : state) (e : got_error_code)
    (outbuf : option (list Z)) (outlen : Z) :
  dump_delta_chain_to_mem inflate deltas packfile path_packfile s
    = Done (Some e, outbuf, outlen) s' ->
  outbuf = None /\ outlen = 0.
Proof.
  unfold dump_delta_chain_to_mem. intros H.
  step H as r s1 H1. destruct r as [[[accum_buf|] [accum_size|]]|e'];
    try discriminate H.
  - destruct (accum_size >? Z.of_nat (length accum_buf)); discriminate H.
  - apply mret_Done in H as [[= <- <- <-] _]. split; reflexivity.
Qed.

(** C9, as the code has it: when extraction to memory of a deltified
    object returns an error, the caller's buffer pointer and length are
    NULL and 0 if the object is packed and its pack file could be opened;
    if the object is not packed or the pack file cannot be opened they are
    what the caller passed in. The caller never gets a buffer the
    extraction built. *)
Theorem extract_object_to_mem_failure (buf buf' : option (list Z)) (len len' : Z)
    (obj : got_object) (s s' : state) (e : got_error_code) :
  Z.land (o_flags obj) GOT_OBJ_FLAG_DELTIFIED <> 0 ->
  got_packfile_extract_object_to_mem inflate buf len obj s = Done (Some e, buf', len') s' ->
  if (Z.land (o_flags obj) GOT_OBJ_FLAG_PACKED =? 0)
     || bool_decide (st_fs s !! o_path_packfile obj = None)
  then buf' = buf /\ len' = len
  else buf' = None /\ len' = 0.
Proof.
  intros Hdelta H. unfold got_packfile_extract_object_to_mem in H.
  destruct (Z.land (o_flags obj) GOT_OBJ_FLAG_PACKED =? 0); cbn [orb].
  { apply mret_Done in H as [[= <- <- <-] _]. split; reflexivity. }
  step H as packfile s1 H1. unfold fopen in H1.
  destruct (st_fs s !! o_path_packfile obj) as [data|] eqn:Efs.
  2:{ apply mret_Done in H1 as [<- <-]. apply mret_Done in H as [[= <- <- <-] _].
      rewrite bool_decide_eq_true_2 by reflexivity. split; reflexivity. }
  rewrite bool_decide_eq_false_2 by discriminate.
  step H1 as h s0 H0. apply mret_Done in H1 as [<- <-].
  step H as r s2 H2. step H as u s3 H3. apply mret_Done in H as [-> _].
  destruct (Z.eqb_spec (Z.land (o_flags obj) GOT_OBJ_FLAG_DELTIFIED) 0) as [E|_];
    [contradiction|].
  eapply dump_delta_chain_to_mem_failure. exact H2.
Qed.

End MaterialisationFacts.

Lemma extract_object_to_mem_failure_witness :
  Z.land (o_flags object_delta_3) GOT_OBJ_FLAG_DELTIFIED <> 0
  /\ got_packfile_extract_object_to_mem stored_inflate (Some [1; 2]) 2 object_delta_3
       (state_chain_on_disk [true; true; false])
     = Done (Some GOT_ERR_NO_MEM, None, 0)
            (mkState (st_fs (state_chain_on_disk [])) ∅ ∅ 1 [] (empty_repo "repo"))
  /\ (None : option (list Z)) = None /\ 0 = 0.
Proof.
  assert (H1 : Z.land (o_flags object_delta_3) GOT_OBJ_FLAG_DELTIFIED <> 0)
    by (vm_compute; discriminate).
  assert (H2 : got_packfile_extract_object_to_mem stored_inflate (Some [1; 2]) 2
                 object_delta_3 (state_chain_on_disk [true; true; false])
               = Done (Some GOT_ERR_NO_MEM, None, 0)
                      (mkState (st_fs (state_chain_on_disk [])) ∅ ∅ 1 []
                               (empty_repo "repo")))
    by (vm_compute; reflexivity).
  split; [exact H1|]. split; [exact H2|].
  exact (extract_object_to_mem_failure stored_inflate _ _ _ _ _ _ _ _ H1 H2).
Defined.

(** C9 as the spec words it fails when the pack file is gone: the error is
    returned with the caller's buffer and length as they were, not NULL and
    0. *)
Lemma extract_object_to_mem_keeps_caller_buffer :
  got_packfile_extract_object_to_mem stored_inflate (Some [1; 2]) 2 object_delta_3
    (fresh_state ∅ ∅)
  = Done (Some GOT_ERR_ERRNO, Some [1; 2], 2) (fresh_state ∅ ∅).
Proof. vm_compute. reflexivity. Qed.

(** ** Two runs side by side *)

Lemma frame_refl (h : nat) (s : state) : frame h s s.
Proof. split; [reflexivity | intros; reflexivity]. Qed.

Lemma frame_trans (h : nat) (s1 s2 s3 : state) :
  frame h s1 s2 -> frame h s2 s3 -> frame h s1 s3.
Proof.
  intros [Hn1 Ho1] [Hn2 Ho2]. split; [congruence|].
  intros h' Hh'. rewrite Ho2, Ho1 by exact Hh'. reflexivity.
Qed.

Lemma on_file_Done {A : Type} (h : nat) (op : FILE -> A * FILE) (s s' : state) (a : A) :
  on_file h op s = Done a s' ->
  exists f, st_open s !! h = Some f /\ a = (op f).1 /\ s' = set_stream s h (op f).2.
Proof.
  unfold on_file. destruct (st_open s !! h) as [f|]; [|discriminate].
  destruct (op f) as [a0 f'] eqn:E. intros [= <- <-]. exists f.
  rewrite E. repeat split.
Qed.

Section SideBySide.

Variables pm pf : nat.

Lemma rel_bind {A B : Type} (mm mf : M A) (km kf : A -> M B) :
  rel pm pf mm mf -> (forall a, rel pm pf (km a) (kf a)) ->
  rel pm pf (mm ≫= km) (mf ≫= kf).
Proof.
  intros Hm Hk sm sf bm bf sm' sf' Hsame Hrm Hrf.
  step Hrm as am sm1 Hm1. step Hrf as af sf1 Hf1.
  destruct (Hm _ _ _ _ _ _ Hsame Hm1 Hf1) as (<- & Hsame1 & Hfr1).
  destruct (Hk am _ _ _ _ _ _ Hsame1 Hrm Hrf) as (<- & Hsame2 & Hfr2).
  split; [reflexivity|]. split; [exact Hsame2|].
  eapply frame_trans; eassumption.
Qed.

Lemma rel_ret {A : Type} (a : A) : rel pm pf (mret a) (mret a).
Proof.
  intros sm sf am af sm' sf' Hsame [= <- <-] [= <- <-].
  split; [reflexivity|]. split; [exact Hsame | apply frame_refl].
Qed.

Lemma rel_never_done_l {A : Type} (mm mf : M A) : never_done mm -> rel pm pf mm mf.
Proof. intros H sm sf am af sm' sf' _ Hm. destruct (H _ _ _ Hm). Qed.

Lemma rel_never_done_r {A : Type} (mm mf : M A) : never_done mf -> rel pm pf mm mf.
Proof. intros H sm sf am af sm' sf' _ _ Hf. destruct (H _ _ _ Hf). Qed.

Lemma never_done_fail {A : Type} (e : got_error_code) : never_done (@fail A e).
Proof. intros s a s'. discriminate. Qed.

Lemma never_done_bind_fail {A B : Type} (m : M A) (e : got_error_code) :
  never_done (m ≫= fun _ => @fail B e).
Proof.
  intros s a s' H. step H as x s1 H1. discriminate H.
Qed.

Lemma rel_fail {A : Type} (e e' : got_error_code) : rel pm pf (@fail A e) (@fail A e').
Proof. apply rel_never_done_l, never_done_fail. Qed.

Lemma rel_get_repo : rel pm pf get_repo get_repo.
Proof.
  intros sm sf am af sm' sf' Hsame [= <- <-] [= <- <-].
  split; [apply Hsame|]. split; [exact Hsame | apply frame_refl].
Qed.

Lemma rel_put_repo (r : got_repository) : rel pm pf (put_repo r) (put_repo r).
Proof.
  intros sm sf am af sm' sf' (Hrepo & f & Hm & Hf) [= <- <-] [= <- <-].
  split; [reflexivity|]. split.
  - split; [reflexivity|]. exists f. split; assumption.
  - split; [reflexivity | intros; reflexivity].
Qed.

Lemma rel_of_result {A : Type} (r : result A) : rel pm pf (of_result r) (of_result r).
Proof. destruct r; [apply rel_ret | apply rel_fail]. Qed.

Lemma rel_on_file {A : Type} (op : FILE -> A * FILE) :
  rel pm pf (on_file pm op) (on_file pf op).
Proof.
  intros sm sf am af sm' sf' (Hrepo & f & Hm & Hf) Hrm Hrf.
  apply on_file_Done in Hrm as (fm & Hfm & -> & ->).
  apply on_file_Done in Hrf as (ff & Hff & -> & ->).
  assert (fm = f) by congruence. assert (ff = f) by congruence. subst fm ff.
  split; [reflexivity|]. split.
  - split; [exact Hrepo|]. exists (op f).2. cbn.
    split; apply lookup_insert_eq.
  - split; [reflexivity|]. intros h' Hh'. cbn. apply lookup_insert_ne. congruence.
Qed.

Lemma same_pack_oracle (sm sf sm' sf' : state) (bm bf : bool) :
  same_pack pm pf sm sf -> alloc sm = Done bm sm' -> alloc sf = Done bf sf' ->
  same_pack pm pf sm' sf' /\ frame pf sf sf'.
Proof.
  intros (Hrepo & f & Hm & Hf) Ham Haf. unfold alloc in Ham, Haf.
  destruct (st_oracle sm); destruct (st_oracle sf);
    injection Ham as <- <-; injection Haf as <- <-;
    (split; [split; [exact Hrepo | exists f; split; assumption]
            | split; [reflexivity | intros; reflexivity]]).
Qed.

(** An allocation whose refusal ends the computation with an error. *)
Lemma rel_alloc_guard {A : Type} (mm_fail mf_fail km kf : M A) :
  never_done mm_fail -> never_done mf_fail -> rel pm pf km kf ->
  rel pm pf (alloc ≫= fun ok => if negb ok then mm_fail else km)
            (alloc ≫= fun ok => if negb ok then mf_fail else kf).
Proof.
  intros Hm Hf Hk sm sf am af sm' sf' Hsame Hrm Hrf.
  step Hrm as okm sm1 Hm1. step Hrf as okf sf1 Hf1.
  destruct (same_pack_oracle _ _ _ _ _ _ Hsame Hm1 Hf1) as [Hsame1 Hfr1].
  destruct okm; cbn [negb] in Hrm; [|destruct (Hm _ _ _ Hrm)].
  destruct okf; cbn [negb] in Hrf; [|destruct (Hf _ _ _ Hrf)].
  destruct (Hk _ _ _ _ _ _ Hsame1 Hrm Hrf) as (<- & Hsame2 & Hfr2).
  split; [reflexivity|]. split; [exact Hsame2 | eapply frame_trans; eassumption].
Qed.

Create HintDb rel discriminated.
#[local] Hint Resolve rel_ret rel_fail rel_get_repo rel_put_repo rel_of_result rel_on_file
  never_done_fail never_done_bind_fail : rel.

(** Walks through two copies of a computation side by side. *)
Ltac rel :=
  repeat first
    [ solve [auto with rel]
    | apply rel_alloc_guard; [auto with rel | auto with rel |]
    | apply rel_bind; [|intros ?]
    | match goal with
      | |- rel _ _ (if ?c then _ else _) _ => destruct c
      | |- rel _ _ (match ?x with _ => _ end) _ => destruct x
      end ].

Lemma rel_on_file_err {A : Type} (op : FILE -> result A * FILE) :
  rel pm pf (on_file_err pm op) (on_file_err pf op).
Proof. unfold on_file_err. rel. Qed.
#[local] Hint Resolve rel_on_file_err : rel.

Lemma rel_fseeko_h (off : Z) : rel pm pf (fseeko_h pm off) (fseeko_h pf off).
Proof. unfold fseeko_h. rel. Qed.
#[local] Hint Resolve rel_fseeko_h : rel.

Variable inflate : list Z -> result (list Z * Z).

Lemma rel_got_inflate_to_mem :
  rel pm pf (got_inflate_to_mem inflate pm) (got_inflate_to_mem inflate pf).
Proof. unfold got_inflate_to_mem. rel. Qed.
#[local] Hint Resolve rel_got_inflate_to_mem : rel.

Lemma rel_get_delta_sizes (delta : got_delta) :
  rel pm pf (get_delta_sizes inflate delta pm) (get_delta_sizes inflate delta pf).
Proof. unfold get_delta_sizes. rel. Qed.
#[local] Hint Resolve rel_get_delta_sizes : rel.

Lemma rel_get_delta_chain_max_size_loop (ds : list got_delta) :
  forall max_size base_size result_size,
    rel pm pf (get_delta_chain_max_size_loop inflate ds pm max_size base_size result_size)
              (get_delta_chain_max_size_loop inflate ds pf max_size base_size result_size).
Proof.
  induction ds as [|delta ds IH]; intros max_size base_size result_size;
    cbn [get_delta_chain_max_size_loop]; rel.
Qed.

Lemma rel_get_delta_chain_max_size (deltas : got_delta_chain) :
  rel pm pf (get_delta_chain_max_size inflate deltas pm)
            (get_delta_chain_max_size inflate deltas pf).
Proof. apply rel_get_delta_chain_max_size_loop. Qed.

Lemma rel_put_delta_cache (dc : list got_delta_cache) :
  rel pm pf (put_delta_cache dc) (put_delta_cache dc).
Proof. unfold put_delta_cache. rel. Qed.
#[local] Hint Resolve rel_put_delta_cache : rel.

Lemma rel_cache_delta (data_offset : Z) (delta_buf : option (list Z)) (delta_len : Z)
    (path_packfile : string) :
  rel pm pf (cache_delta data_offset delta_buf delta_len path_packfile)
            (cache_delta data_offset delta_buf delta_len path_packfile).
Proof. unfold cache_delta. rel. Qed.
#[local] Hint Resolve rel_cache_delta : rel.

Lemma rel_get_cached_delta (data_offset : Z) (path_packfile : string) :
  rel pm pf (get_cached_delta data_offset path_packfile)
            (get_cached_delta data_offset path_packfile).
Proof. unfold get_cached_delta. rel. Qed.
#[local] Hint Resolve rel_get_cached_delta : rel.

Lemma rel_cached_delta_buf (delta : got_delta) (path_packfile : string) :
  rel pm pf (cached_delta_buf inflate delta pm path_packfile)
            (cached_delta_buf inflate delta pf path_packfile).
Proof. unfold cached_delta_buf. rel. Qed.

Lemma rel_inflate_base_to_mem (delta : got_delta) (max_size : Z) :
  rel pm pf (inflate_base_to_mem inflate delta pm max_size)
            (inflate_base_to_mem inflate delta pf max_size).
Proof.
  intros sm sf am af sm' sf' Hsame Hrm Hrf. unfold inflate_base_to_mem in Hrm, Hrf.
  step Hrm as rm sm1 Hm1. step Hrf as rf sf1 Hf1.
  step Hrm as um sm2 Hm2. step Hrf as uf sf2 Hf2.
  apply of_result_Done in Hrm as [-> ->]. apply of_result_Done in Hrf as [-> ->].
  apply attempt_Done in Hm1, Hf1.
  destruct (rel_got_inflate_to_mem _ _ _ _ _ _ Hsame Hm1 Hf1) as (<- & Hsame1 & Hfr1).
  assert (Hrel : rel pm pf
            (if Z.of_nat (length am) <? max_size
             then ok ← alloc; if negb ok then fail GOT_ERR_NO_MEM else mret ()
             else mret ())
            (if Z.of_nat (length am) <? max_size
             then ok ← alloc; if negb ok then fail GOT_ERR_NO_MEM else mret ()
             else mret ())) by rel.
  destruct (Hrel _ _ _ _ _ _ Hsame1 Hm2 Hf2) as (_ & Hsame2 & Hfr2).
  split; [reflexivity|]. split; [exact Hsame2 | eapply frame_trans; eassumption].
Qed.

(** The loop of [dump_delta_chain_to_file], holding its buffers in
    memory, next to the loop of [dump_delta_chain_to_mem]: when the former
    leaves without an error and the latter returns, they end with the same
    accumulator. *)
Lemma dump_loops_in_memory (nentries max_size : Z) (outfile : nat) (path_packfile : string)
    (ds : list got_delta) :
  forall (n : Z) (base_buf accum_buf : option (list Z)) (accum_size : option Z)
         (sm sf sm' sf' : state) (accum_buf' : option (list Z)) (accum_size' : option Z)
         (v' : dump_vars),
    same_pack pm pf sm sf ->
    dump_delta_chain_to_mem_loop inflate ds nentries max_size pm path_packfile n
      base_buf accum_buf accum_size sm = Done (accum_buf', accum_size') sm' ->
    dump_delta_chain_to_file_loop inflate ds nentries max_size outfile pf path_packfile
      (mkVars n None None base_buf accum_buf accum_size) sf = Done (None, v') sf' ->
    v_accum_buf v' = accum_buf' /\ v_accum_size v' = accum_size'
    /\ v_base_file v' = None /\ v_accum_file v' = None /\ frame pf sf sf'.
Proof.
  induction ds as [|delta ds IH];
    intros n base_buf accum_buf accum_size sm sf sm' sf' accum_buf' accum_size' v'
           Hsame Hrm Hrf;
    cbn [dump_delta_chain_to_mem_loop dump_delta_chain_to_file_loop] in Hrm, Hrf.
  { apply mret_Done in Hrm as [[= <- <-] _]. apply mret_Done in Hrf as [[= <-] <-].
    cbn. repeat split; intros; reflexivity. }
  cbn [v_n v_base_file v_accum_file v_base_buf v_accum_buf v_accum_size] in Hrf.
  destruct (n =? 0).
  - destruct (negb (is_plain_type (d_type delta))); [discriminate Hrm|].
    step Hrm as okm sm1 Hm1. step Hrf as okf sf1 Hf1.
    destruct (rel_fseeko_h _ _ _ _ _ _ _ Hsame Hm1 Hf1) as (<- & Hsame1 & Hfr1).
    destruct okm; cbn [negb] in Hrm, Hrf; [|discriminate Hrm].
    step Hrm as bm sm2 Hm2. step Hrf as rf sf2 Hf2.
    apply attempt_Done in Hf2. destruct rf as [bf|e];
      [|apply mret_Done in Hrf as [[=] _]].
    destruct (rel_inflate_base_to_mem _ _ _ _ _ _ _ _ Hsame1 Hm2 Hf2) as (<- & Hsame2 & Hfr2).
    destruct (IH _ _ _ _ _ _ _ _ _ _ _ Hsame2 Hrm Hrf) as (Ha & Hsz & Hbf & Haf & Hfr3).
    repeat (split; [assumption|]).
    eapply frame_trans; [|exact Hfr3]. eapply frame_trans; eassumption.
  - step Hrm as dm sm1 Hm1. step Hrf as rf sf1 Hf1.
    apply attempt_Done in Hf1. destruct rf as [df|e];
      [|apply mret_Done in Hrf as [[=] _]].
    destruct (rel_cached_delta_buf _ _ _ _ _ _ _ _ Hsame Hm1 Hf1) as (<- & Hsame1 & Hfr1).
    destruct base_buf as [base|]; [|discriminate Hrm].
    step Hrm as out sm2 Hm2. apply of_result_Done in Hm2 as [Hout ->].
    step Hrf as applied sf2 Hf2.
    rewrite Hout in Hf2. apply mret_Done in Hf2 as [<- <-].
    cbv beta iota in Hrf.
    cbn [v_n v_base_file v_accum_file v_base_buf v_accum_buf v_accum_size] in Hrf.
    destruct (n + 1 <? nentries).
    + destruct (IH _ _ _ _ _ _ _ _ _ _ _ Hsame1 Hrm Hrf) as (Ha & Hsz & Hbf & Haf & Hfr3).
      repeat (split; [assumption|]). eapply frame_trans; eassumption.
    + destruct (IH _ _ _ _ _ _ _ _ _ _ _ Hsame1 Hrm Hrf) as (Ha & Hsz & Hbf & Haf & Hfr3).
      repeat (split; [assumption|]). eapply frame_trans; eassumption.
Qed.

Lemma same_pack_keeps_l (sm sm' sf : state) :
  st_open sm' = st_open sm -> st_repo sm' = st_repo sm ->
  same_pack pm pf sm sf -> same_pack pm pf sm' sf.
Proof.
  intros Ho Hr (Hrepo & f & Hm & Hf). split; [congruence|].
  exists f. split; [rewrite Ho; exact Hm | exact Hf].
Qed.

Lemma same_pack_frame_r (sm sf sf' : state) :
  st_repo sf' = st_repo sf -> st_open sf' !! pf = st_open sf !! pf ->
  same_pack pm pf sm sf -> same_pack pm pf sm sf'.
Proof.
  intros Hr Ho (Hrepo & f & Hm & Hf). split; [congruence|].
  exists f. split; [exact Hm | rewrite Ho; exact Hf].
Qed.

Lemma alloc_Done (s s' : state) (b : bool) :
  alloc s = Done b s' -> st_open s' = st_open s /\ st_repo s' = st_repo s.
Proof. apply keeps_streams_Done, keeps_streams_alloc. Qed.

Lemma got_inflate_to_mem_Done (h : nat) (s s' : state) (out : list Z) :
  got_inflate_to_mem inflate h s = Done out s' ->
  exists s1, st_open s1 = st_open s /\ st_repo s1 = st_repo s
             /\ on_file_err h (inflate_stream inflate) s1 = Done out s'.
Proof.
  unfold got_inflate_to_mem. intros H. step H as ok s1 H1.
  apply alloc_Done in H1 as [Ho Hr].
  destruct ok; cbn [negb] in H; [|discriminate H]. eauto.
Qed.

Lemma inflate_base_to_mem_Done (delta : got_delta) (h : nat) (max_size : Z)
    (s s' : state) (base : list Z) :
  inflate_base_to_mem inflate delta h max_size s = Done base s' ->
  exists s1 s2, st_open s1 = st_open s /\ st_repo s1 = st_repo s
                /\ on_file_err h (inflate_stream inflate) s1 = Done base s2
                /\ st_open s' = st_open s2 /\ st_repo s' = st_repo s2.
Proof.
  unfold inflate_base_to_mem. intros H.
  step H as r s1 H1. step H as u s2 H2. apply of_result_Done in H as [-> ->].
  apply attempt_Done in H1. apply got_inflate_to_mem_Done in H1 as (s0 & Ho & Hr & H1).
  exists s0, s1. split; [exact Ho|]. split; [exact Hr|]. split; [exact H1|].
  destruct (Z.of_nat (length base) <? max_size).
  - step H2 as ok s3 H3. apply alloc_Done in H3 as [Ho3 Hr3].
    destruct ok; cbn [negb] in H2; [|discriminate H2].
    apply mret_Done in H2 as [_ <-]. split; assumption.
  - apply mret_Done in H2 as [_ <-]. split; reflexivity.
Qed.

Lemma got_delta_apply_Done (base_file outfile : nat) (delta_buf : list Z) (s s' : state) :
  base_file <> outfile ->
  got_delta_apply base_file delta_buf outfile s = Done () s' ->
  exists fb fo out,
    st_open s !! base_file = Some fb /\ st_open s !! outfile = Some fo
    /\ delta_apply (f_data fb) delta_buf = Ok out
    /\ st_repo s' = st_repo s /\ st_next s' = st_next s
    /\ st_open s' = <[outfile := fwrite out fo]> (st_open s).
Proof.
  intros Hne H. unfold got_delta_apply in H.
  step H as base s1 H1. step H as out s2 H2.
  apply on_file_Done in H1 as (fb & Hfb & -> & ->). cbn [fst snd] in *.
  apply of_result_Done in H2 as [Hout ->].
  apply on_file_Done in H as (fo & Hfo & _ & ->). cbn [fst snd] in *.
  cbn [set_stream st_open] in Hfo. rewrite lookup_insert_ne in Hfo by exact Hne.
  exists fb, fo, out. repeat split; try assumption.
  cbn. rewrite (insert_id (st_open s) base_file fb) by exact Hfb. reflexivity.
Qed.

Lemma delta_apply_base_length (base tail delta_buf out out' : list Z) :
  delta_apply base delta_buf = Ok out ->
  delta_apply (base ++ tail) delta_buf = Ok out' ->
  tail = [].
Proof.
  unfold delta_apply.
  destruct (got_delta_get_sizes delta_buf) as [[[base_size result_size] cmds]|e];
    [|discriminate].
  destruct (Z.eqb_spec base_size (Z.of_nat (length base))) as [E1|]; [|discriminate].
  destruct (Z.eqb_spec base_size (Z.of_nat (length (base ++ tail)))) as [E2|];
    [|discriminate].
  intros _ _. rewrite length_app in E2.
  apply length_zero_iff_nil. lia.
Qed.

Lemma fwrite_rewound (buf : list Z) (f : FILE) :
  f_pos f = 0 -> f_data (fwrite buf f) = buf ++ drop (length buf) (f_data f).
Proof.
  intros Hp. unfold fwrite. rewrite Hp. cbn [f_data Z.to_nat take Nat.sub repeat].
  reflexivity.
Qed.

(** What [file_inv] promises once the loop is over. *)
Lemma file_inv_end (outfile : nat) (nentries : Z) (base_buf accum_buf : option (list Z))
    (accum_size : option Z) (v : dump_vars) (sf : state) :
  file_inv pf outfile nentries nentries base_buf accum_buf accum_size v sf ->
  exists bf af,
    v_base_file v = Some bf /\ v_accum_file v = Some af /\ v_accum_buf v = None
    /\ distinct4 pf outfile bf af
    /\ match accum_size with
       | None => True
       | Some sz =>
           exists out fo, accum_buf = Some out /\ sz = Z.of_nat (length out)
                          /\ st_open sf !! outfile = Some fo /\ f_data fo = out
       end.
Proof.
  intros (bf & af & -> & Hnd & _ & _ & Hcase). exists bf, af.
  cbn [v_base_file v_accum_file v_accum_buf].
  repeat (split; [reflexivity || assumption|]).
  destruct (nentries =? 0).
  - destruct Hcase as (-> & _). exact I.
  - rewrite Z.ltb_irrefl in Hcase. exact Hcase.
Qed.

(** The loop of [dump_delta_chain_to_file] over temporary files next to
    the loop of [dump_delta_chain_to_mem]. *)
Lemma dump_loops_in_files (nentries max_size : Z) (outfile : nat) (path_packfile : string)
    (ds : list got_delta) :
  forall (n : Z) (base_buf accum_buf : option (list Z)) (accum_size : option Z)
         (v : dump_vars) (sm sf sm' sf' : state)
         (accum_buf' : option (list Z)) (accum_size' : option Z) (v' : dump_vars),
    nentries = n + Z.of_nat (length ds) -> 0 <= n ->
    same_pack pm pf sm sf ->
    file_inv pf outfile nentries n base_buf accum_buf accum_size v sf ->
    dump_delta_chain_to_mem_loop inflate ds nentries max_size pm path_packfile n
      base_buf accum_buf accum_size sm = Done (accum_buf', accum_size') sm' ->
    dump_delta_chain_to_file_loop inflate ds nentries max_size outfile pf path_packfile
      v sf = Done (None, v') sf' ->
    exists base_buf',
      file_inv pf outfile nentries nentries base_buf' accum_buf' accum_size' v' sf'.
Proof.
  induction ds as [|delta ds IH];
    intros n base_buf accum_buf accum_size v sm sf sm' sf' accum_buf' accum_size' v'
           Hlen Hn Hsame Hinv Hrm Hrf;
    cbn [dump_delta_chain_to_mem_loop dump_delta_chain_to_file_loop] in Hrm, Hrf.
  { apply mret_Done in Hrm as [[= <- <-] _]. apply mret_Done in Hrf as [[= <-] <-].
    cbn [length] in Hlen. assert (Hnn : nentries = n) by lia.
    rewrite Hnn in *. exists base_buf. exact Hinv. }
  cbn [length] in Hlen.
  destruct Hinv as (bf & af & -> & Hnd & (fa & Hfa & Hfapos) & (fb0 & Hfb0) & Hcase).
  cbn [v_n v_base_file v_accum_file v_base_buf v_accum_buf v_accum_size] in Hrf.
  pose proof Hnd as (Hpo & Hpb & Hpa & Hob & Hoa & Hba).
  destruct (Z.eqb_spec n 0) as [Hn0|Hn0].
  - (* the base *)
    destruct Hcase as (Hsz & Hbf & Hout).
    destruct (negb (is_plain_type (d_type delta))); [discriminate Hrm|].
    step Hrm as okm sm1 Hm1. step Hrf as okf sf1 Hf1.
    destruct (rel_fseeko_h _ _ _ _ _ _ _ Hsame Hm1 Hf1) as (<- & Hsame1 & Hfr1).
    destruct okm; cbn [negb] in Hrm, Hrf; [|discriminate Hrm].
    step Hrm as bm sm2 Hm2.
    apply inflate_base_to_mem_Done in Hm2 as (sm3 & sm4 & Ho3 & Hr3 & Hm2 & Ho4 & Hr4).
    step Hrf as rf sf2 Hf2. apply attempt_Done in Hf2.
    destruct rf as [lenf|e]; [|apply mret_Done in Hrf as [[=] _]].
    unfold got_inflate_to_file in Hf2.
    step Hf2 as outf sf3 Hf3. step Hf2 as u sf4 Hf4. apply mret_Done in Hf2 as [_ <-].
    pose proof (same_pack_keeps_l _ _ _ Ho3 Hr3 Hsame1) as Hsame3.
    destruct (rel_on_file_err _ _ _ _ _ _ _ Hsame3 Hm2 Hf3) as (<- & Hsame4 & Hfr3).
    apply on_file_Done in Hf4 as (fb & Hfb & _ & ->). cbn [fst snd] in *.
    step Hrf as u' sf5 Hf5.
    apply on_file_Done in Hf5 as (fb' & Hfb' & _ & ->). cbn [fst snd] in *.
    destruct Hfr1 as [Hnx1 Hfr1]. destruct Hfr3 as [Hnx3 Hfr3].
    assert (Hfb_eq : fb = mkFILE [] 0).
    { rewrite Hfr3, Hfr1 in Hfb by congruence. congruence. }
    subst fb. cbn [set_stream st_open] in Hfb'. rewrite lookup_insert_eq in Hfb'.
    injection Hfb' as <-.
    pose proof (same_pack_keeps_l _ _ _ Ho4 Hr4 Hsame4) as Hsame5.
    eapply IH; [| | | |exact Hrm|exact Hrf]; [lia | lia | | ].
    + eapply same_pack_frame_r; [| |exact Hsame5]; cbn;
        [reflexivity | rewrite !lookup_insert_ne by congruence; reflexivity].
    + exists bf, af. split; [subst n; reflexivity|]. split; [exact Hnd|].
      cbn [set_stream st_open].
      split.
      { exists fa. rewrite !lookup_insert_ne by congruence.
        rewrite Hfr3, Hfr1 by congruence. split; assumption. }
      split; [eexists; apply lookup_insert_eq|].
      assert (Hout' : st_open sf3 !! outfile = Some (mkFILE [] 0)).
      { rewrite Hfr3, Hfr1 by congruence. exact Hout. }
      destruct (Z.eqb_spec (n + 1) 0); [lia|].
      destruct (n + 1 <? nentries).
      * split; [|rewrite !lookup_insert_ne by congruence; exact Hout'].
        exists bm, [], (rewind (fwrite bm (mkFILE [] 0))).
        split; [reflexivity|]. split; [apply lookup_insert_eq|].
        cbn. rewrite app_nil_r, drop_nil, app_nil_r. reflexivity.
      * rewrite Hsz. exact I.
  - (* a delta *)
    assert (Hlt : (n <? nentries) = true) by (apply Z.ltb_lt; lia).
    rewrite Hlt in Hcase. destruct Hcase as ((B & tail & fb & -> & Hfb & Hdata) & Hout).
    step Hrm as dm sm1 Hm1. step Hrf as rf sf1 Hf1.
    apply attempt_Done in Hf1. destruct rf as [df|e];
      [|apply mret_Done in Hrf as [[=] _]].
    destruct (rel_cached_delta_buf _ _ _ _ _ _ _ _ Hsame Hm1 Hf1)
      as (<- & Hsame1 & [Hnx1 Hfr1]).
    step Hrm as out sm2 Hm2. apply of_result_Done in Hm2 as [Hout_m ->].
    unfold got_delta_apply_in_mem in Hout_m.
    step Hrf as applied sf2 Hf2.
    step Hf2 as rf sf3 Hf3. apply attempt_Done in Hf3.
    destruct rf as [[]|e]; apply mret_Done in Hf2 as [<- <-];
      [|apply mret_Done in Hrf as [[=] _]].
    cbv beta iota in Hrf.
    cbn [v_n v_base_file v_accum_file v_base_buf v_accum_buf v_accum_size] in Hrf.
    assert (Hfb1 : st_open sf1 !! bf = Some fb) by (rewrite Hfr1 by congruence; exact Hfb).
    assert (Hfa1 : st_open sf1 !! af = Some fa) by (rewrite Hfr1 by congruence; exact Hfa).
    assert (Hout1 : st_open sf1 !! outfile = Some (mkFILE [] 0))
      by (rewrite Hfr1 by congruence; exact Hout).
    destruct (n + 1 <? nentries) eqn:Emore.
    + (* the result goes to the accumulator file, which becomes the base *)
      apply got_delta_apply_Done in Hf3 as (fb' & fo & out' & Hb' & Ho' & Happ & Hr3 & Hnx3 & Hop3);
        [|congruence].
      assert (fb' = fb) by congruence. assert (fo = fa) by congruence. subst fb' fo.
      rewrite Hdata in Happ.
      pose proof (delta_apply_base_length _ _ _ _ _ Hout_m Happ) as ->.
      rewrite app_nil_r in Happ, Hdata. assert (out' = out) by congruence. subst out'.
      step Hrf as u1 sf4 Hf4. apply on_file_Done in Hf4 as (fa' & Hfa' & _ & ->).
      step Hrf as u2 sf5 Hf5. apply on_file_Done in Hf5 as (fb' & Hfb' & _ & ->).
      cbn [fst snd set_stream st_open] in *.
      rewrite Hop3, lookup_insert_eq in Hfa'. injection Hfa' as <-.
      rewrite lookup_insert_ne in Hfb' by congruence.
      rewrite Hop3, lookup_insert_ne in Hfb' by congruence.
      assert (fb' = fb) by congruence. subst fb'.
      eapply IH; [| | | |exact Hrm|exact Hrf]; [lia | lia | | ].
      * eapply same_pack_frame_r; [| |exact Hsame1]; cbn; [exact Hr3|].
        rewrite !lookup_insert_ne by congruence. rewrite Hop3.
        rewrite lookup_insert_ne by congruence. reflexivity.
      * exists af, bf. split; [reflexivity|].
        split; [unfold distinct4; repeat split; congruence|].
        cbn [st_open set_stream].
        split; [exists (rewind fb); split; [apply lookup_insert_eq | reflexivity]|].
        split; [eexists; rewrite lookup_insert_ne by congruence; apply lookup_insert_eq|].
        destruct (Z.eqb_spec (n + 1) 0); [lia|]. rewrite Emore.
        split.
        -- exists out, (drop (length out) (f_data fa)), (rewind (fwrite out fa)).
           split; [reflexivity|].
           split; [rewrite lookup_insert_ne by congruence; apply lookup_insert_eq|].
           cbn [rewind f_data]. apply fwrite_rewound. exact Hfapos.
        -- rewrite !lookup_insert_ne by congruence. rewrite Hop3.
           rewrite lookup_insert_ne by congruence. exact Hout1.
    + (* the last delta: the result goes to the output file *)
      apply got_delta_apply_Done in Hf3 as (fb' & fo & out' & Hb' & Ho' & Happ & Hr3 & Hnx3 & Hop3);
        [|congruence].
      assert (fb' = fb) by congruence. assert (fo = mkFILE [] 0) by congruence.
      subst fb' fo.
      rewrite Hdata in Happ.
      pose proof (delta_apply_base_length _ _ _ _ _ Hout_m Happ) as ->.
      rewrite app_nil_r in Happ, Hdata. assert (out' = out) by congruence. subst out'.
      eapply IH; [| | | |exact Hrm|exact Hrf]; [lia | lia | | ].
      * eapply same_pack_frame_r; [exact Hr3| |exact Hsame1].
        rewrite Hop3. rewrite lookup_insert_ne by congruence. reflexivity.
      * exists bf, af. split; [reflexivity|]. split; [exact Hnd|].
        rewrite Hop3.
        split; [exists fa; rewrite lookup_insert_ne by congruence; split; assumption|].
        split; [exists fb; rewrite lookup_insert_ne by congruence; exact Hfb1|].
        destruct (Z.eqb_spec (n + 1) 0); [lia|]. rewrite Emore.
        exists out, (fwrite out (mkFILE [] 0)).
        split; [reflexivity|]. split; [reflexivity|].
        split; [apply lookup_insert_eq|].
        cbn. rewrite drop_nil, app_nil_r. reflexivity.
Qed.

Lemma got_opentemp_Done (s s' : state) (h : nat) :
  got_opentemp s = Done (Some h) s' ->
  h = st_next s /\ st_next s' = S h /\ st_repo s' = st_repo s /\ st_fs s' = st_fs s
  /\ st_open s' = <[h := mkFILE [] 0]> (st_open s).
Proof.
  unfold got_opentemp. intros H. step H as ok s1 H1.
  destruct ok; [|apply mret_Done in H as [[=] _]].
  step H as h' s2 H2. apply mret_Done in H as [[= <-] <-].
  unfold open_stream in H2. injection H2 as <- <-. cbn.
  unfold alloc in H1. destruct (st_oracle s); inversion H1; subst; cbn;
    repeat split; reflexivity.
Qed.

Lemma fopen_Done (path : string) (s s' : state) (h : nat) :
  fopen path s = Done (Some h) s' ->
  exists data,
    st_fs s !! path = Some data
    /\ h = st_next s /\ st_next s' = S h /\ st_repo s' = st_repo s /\ st_fs s' = st_fs s
    /\ st_open s' = <[h := mkFILE data 0]> (st_open s).
Proof.
  unfold fopen. destruct (st_fs s !! path) as [data|]; [|intros [=]].
  intros H. step H as h' s1 H1. apply mret_Done in H as [[= <-] <-].
  unfold open_stream in H1. injection H1 as <- <-. cbn.
  exists data. repeat split; reflexivity.
Qed.

Lemma fclose_Done (h : nat) (s s' : state) :
  fclose h s = Done () s' ->
  st_open s' = delete h (st_open s) /\ st_next s' = st_next s /\ st_repo s' = st_repo s.
Proof.
  unfold fclose. destruct (st_open s !! h); [|discriminate].
  intros [= <-]. cbn. repeat split; reflexivity.
Qed.

Variable cached_max : Z.

(** [dump_delta_chain_to_file] next to [dump_delta_chain_to_mem], both
    returning without an error: the output file, empty on entry, holds the
    bytes of the returned buffer. *)
Lemma dump_delta_chain_same_bytes (deltas : got_delta_chain) (outfile : nat)
    (path_packfile : string) (sm sf sm' sf' : state) (bytes : list Z) (len : Z) :
  nentries deltas = Z.of_nat (length (entries deltas)) ->
  same_pack pm pf sm sf ->
  (outfile < st_next sf)%nat -> (pf < st_next sf)%nat -> outfile <> pf ->
  st_open sf !! outfile = Some (mkFILE [] 0) ->
  dump_delta_chain_to_mem inflate deltas pm path_packfile sm
    = Done (None, Some bytes, len) sm' ->
  dump_delta_chain_to_file inflate cached_max deltas outfile pf path_packfile sf
    = Done () sf' ->
  exists out, st_open sf' !! outfile = Some out /\ f_data out = bytes /\ f_pos out = 0.
Proof.
  intros Hlen Hsame Ho Hp Hne Hout Hrm Hrf.
  unfold dump_delta_chain_to_mem in Hrm. step Hrm as r sm1 Hm1.
  apply attempt_Done in Hm1.
  destruct r as [[[accum_buf|] [accum_size|]]|e]; try discriminate Hrm.
  destruct (Z.gtb_spec accum_size (Z.of_nat (length accum_buf))) as [|Hsz];
    [discriminate Hrm|].
  apply mret_Done in Hrm as [[= <- <-] <-].
  unfold dump_delta_chain_to_file in Hrf.
  destruct (bool_decide (entries deltas = [])); [discriminate Hrf|].
  step Hm1 as max_size sm2 Hm2. step Hrf as max_f sf1 Hf1.
  destruct (rel_get_delta_chain_max_size _ _ _ _ _ _ _ Hsame Hm2 Hf1)
    as (<- & Hsame1 & [Hnx1 Hfr1]).
  step Hm1 as okm sm3 Hm3. destruct okm; cbn [negb] in Hm1; [|discriminate Hm1].
  apply alloc_Done in Hm3 as [Ho3 Hr3].
  pose proof (same_pack_keeps_l _ _ _ Ho3 Hr3 Hsame1) as Hsame2.
  step Hrf as v sf2 Hf2. step Hrf as ev sf3 Hf3. destruct ev as [err v'].
  step Hrf as u1 sf4 Hf4. step Hrf as u2 sf5 Hf5. step Hrf as u3 sf6 Hf6.
  step Hrf as u4 sf7 Hf7. destruct err as [e|]; [discriminate Hrf|].
  apply mret_Done in Hrf as [_ <-].
  assert (Hout1 : st_open sf1 !! outfile = Some (mkFILE [] 0))
    by (rewrite Hfr1 by exact Hne; exact Hout).
  destruct (max_size <? cached_max).
  - (* the buffers are held in memory *)
    step Hf2 as okf sf8 Hf8. destruct okf; cbn [negb] in Hf2; [|discriminate Hf2].
    apply mret_Done in Hf2 as [<- <-].
    apply alloc_Done in Hf8 as [Ho8 Hr8].
    assert (Hsame3 : same_pack pm pf sm3 sf8).
    { eapply same_pack_frame_r; [exact Hr8 | rewrite Ho8; reflexivity | exact Hsame2]. }
    destruct (dump_loops_in_memory _ _ _ _ _ _ _ _ _ _ _ _ _ _ _ _ Hsame3 Hm1 Hf3)
      as (Ha & Hs & Hbf & Haf & [_ Hfr3]).
    rewrite Ha, Hs in Hf4. rewrite Hbf in Hf5. rewrite Haf in Hf6.
    destruct (Z.gtb_spec accum_size (Z.of_nat (length accum_buf))); [lia|].
    apply on_file_Done in Hf4 as (fo & Hfo & _ & ->).
    apply mret_Done in Hf5 as [_ <-]. apply mret_Done in Hf6 as [_ <-].
    apply on_file_Done in Hf7 as (fo' & Hfo' & _ & ->).
    rewrite Hfr3, Ho8, Hout1 in Hfo by exact Hne. injection Hfo as <-.
    cbn [set_stream st_open fst snd] in *. rewrite lookup_insert_eq in Hfo'.
    injection Hfo' as <-.
    eexists. split; [apply lookup_insert_eq|].
    split; [|reflexivity].
    cbn [rewind f_data]. rewrite fwrite_rewound by reflexivity.
    cbn [f_data]. rewrite drop_nil. apply app_nil_r.
  - (* the buffers are temporary files *)
    step Hf2 as obf sf8 Hf8. destruct obf as [bf|]; [|discriminate Hf2].
    step Hf2 as oaf sf9 Hf9. destruct oaf as [af|];
      [|step Hf2 as u5 sf10 Hf10; discriminate Hf2].
    apply mret_Done in Hf2 as [<- <-].
    apply got_opentemp_Done in Hf8 as (-> & Hnx8 & Hr8 & _ & Ho8).
    apply got_opentemp_Done in Hf9 as (-> & Hnx9 & Hr9 & _ & Ho9).
    rewrite Hnx8 in *. rewrite Hnx1 in *.
    assert (Hnd : distinct4 pf outfile (st_next sf) (S (st_next sf)))
      by (unfold distinct4; repeat split; lia).
    pose proof Hnd as (Hpo & Hpb & Hpa & Hob & Hoa & Hba).
    assert (Hsame3 : same_pack pm pf sm3 sf9).
    { eapply same_pack_frame_r; [| |exact Hsame2]; [congruence|].
      rewrite Ho9, Ho8. rewrite !lookup_insert_ne by congruence. reflexivity. }
    assert (Hlen0 : nentries deltas = 0 + Z.of_nat (length (entries deltas))) by lia.
    assert (Hinv : file_inv pf outfile (nentries deltas) 0 None (Some []) None
                     (mkVars 0 (Some (st_next sf)) (Some (S (st_next sf))) None None None)
                     sf9).
    { exists (st_next sf), (S (st_next sf)). split; [reflexivity|]. split; [exact Hnd|].
      rewrite Ho9, Ho8.
      split; [eexists; split; [apply lookup_insert_eq | reflexivity]|].
      split; [eexists; rewrite lookup_insert_ne by congruence; apply lookup_insert_eq|].
      cbn [Z.eqb]. split; [reflexivity|].
      split; [rewrite lookup_insert_ne by congruence; apply lookup_insert_eq|].
      rewrite !lookup_insert_ne by congruence. exact Hout1. }
    destruct (dump_loops_in_files _ _ _ _ _ _ _ _ _ _ _ _ _ _ _ _ _
                Hlen0 (Z.le_refl 0) Hsame3 Hinv Hm1 Hf3) as (base_buf' & Hend).
    apply file_inv_end in Hend
      as (bf & af & Hvb & Hva & Hvbuf & Hnd' & out & fo & [= <-] & -> & Hfo & Hdata).
    destruct Hnd' as (_ & _ & _ & Hob' & Hoa' & _).
    rewrite Hvbuf in Hf4. rewrite Hvb in Hf5. rewrite Hva in Hf6.
    apply mret_Done in Hf4 as [_ <-]. destruct u2, u3. cbn [fclose_if_open] in Hf5, Hf6.
    apply fclose_Done in Hf5 as (Ho5 & _ & _). apply fclose_Done in Hf6 as (Ho6 & _ & _).
    apply on_file_Done in Hf7 as (fo' & Hfo' & _ & ->).
    rewrite Ho6, Ho5 in Hfo'. rewrite !lookup_delete_ne in Hfo' by congruence.
    assert (fo' = fo) by congruence. subst fo'.
    exists (rewind fo). cbn [set_stream st_open fst snd rewind f_data f_pos].
    split; [apply lookup_insert_eq|]. split; [|reflexivity].
    rewrite Nat2Z.id, take_ge by lia. exact Hdata.
Qed.

End SideBySide.

(** ** Extraction to memory and extraction to a file *)

Section Extraction.

Variable inflate : list Z -> result (list Z * Z).
Variable cached_max : Z.


End Extraction.


(** * Further properties of the code *)

(** ** Lookups in a pack index *)

Lemma to_int32_range (x : Z) : - 2 ^ 31 <= to_int32 x < 2 ^ 31.
Proof.
  unfold to_int32. pose proof (Z.mod_pos_bound (x + 2 ^ 31) (2 ^ 32) ltac:(lia)). lia.
Qed.

Lemma array_get_Some {A : Type} (a : list A) (i : Z) (x : A) :
  array_get a i = Some x -> 0 <= i /\ a !! Z.to_nat i = Some x.
Proof.
  unfold array_get. destruct (Z.ltb_spec i 0); [discriminate|]. auto.
Qed.

Lemma get_object_idx_loop_found (n : nat) :
  forall (i totobj : Z) (sorted_ids : list got_object_id) (id : got_object_id) (r : Z),
    - 2 ^ 31 <= i < 2 ^ 31 ->
    get_object_idx_loop n i totobj sorted_ids id = Some r -> r <> -1 ->
    0 <= r < totobj /\ sorted_ids !! Z.to_nat r = Some id.
Proof.
  induction n as [|n IH]; intros i totobj sorted_ids id r Hi H Hr;
    cbn [get_object_idx_loop] in H;
    destruct (Z.ltb_spec (to_uint32 i) totobj) as [Hlt|]; try discriminate;
    try (injection H as <-; contradiction).
  destruct (array_get sorted_ids i) as [oid|] eqn:Eget; [|discriminate].
  apply array_get_Some in Eget as [Hi0 Hoid].
  destruct (Z.eqb_spec (got_object_id_cmp id oid) 0) as [Hcmp|_].
  - injection H as <-. apply got_object_id_cmp_eq in Hcmp. subst oid.
    unfold to_uint32 in Hlt. rewrite Z.mod_small in Hlt by lia.
    split; [lia | exact Hoid].
  - eapply IH; [apply to_int32_range | exact H | exact Hr].
Qed.

(** X1: an index that [get_object_idx] returns, other than the "not found"
    value -1, lies inside the id table, below [fanout[255]], and the id
    stored there is the id that was asked for. *)
Theorem get_object_idx_found (packidx : got_packidx_v2_hdr) (id : got_object_id)
    (idx : Z) :
  get_object_idx packidx id = Some idx -> idx <> -1 ->
  0 <= idx < fanout_table packidx !!! 0xff%nat
  /\ sorted_ids packidx !! Z.to_nat idx = Some id.
Proof.
  unfold get_object_idx. intros H Hidx.
  eapply get_object_idx_loop_found; [|exact H|exact Hidx].
  destruct (id !!! 0%nat >? 0); [apply to_int32_range | lia].
Qed.

Lemma get_object_idx_found_witness :
  0 <= 1 < fanout_table packidx_unsorted !!! 0xff%nat
  /\ sorted_ids packidx_unsorted !! Z.to_nat 1 = Some id_3.
Proof.
  apply (get_object_idx_found packidx_unsorted id_3 1).
  - vm_compute. reflexivity.
  - lia.
Defined.

Lemma dup_packidx_Done (packidx p : got_packidx_v2_hdr) (s s' : state) :
  dup_packidx packidx s = Done (Some p) s' ->
  p = mkPackidx (magic packidx) (version packidx) (fanout_table packidx)
        (sorted_ids packidx) (crc32 packidx) (offsets packidx) None (trailer packidx).
Proof.
  unfold dup_packidx. intros H.
  step H as a1 s1 H1. destruct a1; cbn [negb] in H; [|apply mret_Done in H as [[=] _]].
  step H as a2 s2 H2. destruct a2; cbn [negb] in H; [|apply mret_Done in H as [[=] _]].
  step H as a3 s3 H3. destruct a3; cbn [negb] in H; [|apply mret_Done in H as [[=] _]].
  step H as a4 s4 H4. destruct a4; cbn [negb] in H; [|apply mret_Done in H as [[=] _]].
  apply mret_Done in H as [[= <-] _]. reflexivity.
Qed.

Lemma search_pack_cache_found (cache : list got_pack_cache_entry) (id : got_object_id) :
  forall (s s' : state) (packidx : got_packidx_v2_hdr) (idx : Z),
    search_pack_cache cache id s = Done (Some (packidx, idx)) s' ->
    0 <= idx < fanout_table packidx !!! 0xff%nat
    /\ sorted_ids packidx !! Z.to_nat idx = Some id.
Proof.
  induction cache as [|e cache IH]; intros s s' packidx idx H;
    cbn [search_pack_cache] in H.
  { apply mret_Done in H as [[=] _]. }
  destruct (pc_packidx e) as [cached|]; [|apply mret_Done in H as [[=] _]].
  destruct (get_object_idx cached id) as [i|] eqn:Eidx; [|discriminate H].
  destruct (Z.eqb_spec i (-1)) as [|Hi]; cbn [negb] in H; [eapply IH; exact H|].
  step H as dup s1 H1. destruct dup as [p|]; [|discriminate H].
  apply mret_Done in H as [[= <- <-] _].
  apply dup_packidx_Done in H1. subst p. cbn [fanout_table sorted_ids].
  eapply get_object_idx_found; eassumption.
Qed.

Lemma search_packdir_found (path_packdir : string) (dents : list string)
    (id : got_object_id) :
  forall (s s' : state) (packidx : got_packidx_v2_hdr) (idx : Z),
    search_packdir path_packdir dents id s = Done (packidx, idx) s' ->
    0 <= idx < fanout_table packidx !!! 0xff%nat
    /\ sorted_ids packidx !! Z.to_nat idx = Some id.
Proof.
  induction dents as [|d_name dents IH]; intros s s' packidx idx H;
    cbn [search_packdir] in H; [discriminate H|].
  destruct (is_packidx_filename d_name (String.length d_name)); cbn [negb] in H;
    [|eapply IH; exact H].
  step H as ok s1 H1. destruct ok; cbn [negb] in H; [|discriminate H].
  step H as p s2 H2.
  destruct (get_object_idx p id) as [i|] eqn:Eidx; [|discriminate H].
  destruct (Z.eqb_spec i (-1)) as [|Hi]; cbn [negb] in H; [eapply IH; exact H|].
  step H as r s3 H3. apply mret_Done in H as [[= <- <-] _].
  eapply get_object_idx_found; eassumption.
Qed.

(** X2: when [search_packidx] finds an object, in the pack cache or in an
    index of the pack directory, the index it returns lies inside the id
    table of the pack index it returns, and the id stored there is the id
    that was searched. *)
Theorem search_packidx_found (id : got_object_id) (s s' : state)
    (packidx : got_packidx_v2_hdr) (idx : Z) :
  search_packidx id s = Done (packidx, idx) s' ->
  0 <= idx < fanout_table packidx !!! 0xff%nat
  /\ sorted_ids packidx !! Z.to_nat idx = Some id.
Proof.
  unfold search_packidx. intros H.
  step H as repo s1 H1. step H as hit s2 H2.
  destruct hit as [[p i]|].
  - apply mret_Done in H as [[= <- <-] _]. eapply search_pack_cache_found. exact H2.
  - step H as path_packdir s3 H3. destruct path_packdir as [path_packdir|];
      [|discriminate H].
    step H as packdir s4 H4. destruct packdir as [dents|]; [|discriminate H].
    eapply search_packdir_found. exact H.
Qed.

Lemma search_packidx_found_witness :
  exists packidx idx s',
    search_packidx id_2 state_cache_full = Done (packidx, idx) s'
    /\ 0 <= idx < fanout_table packidx !!! 0xff%nat
    /\ sorted_ids packidx !! Z.to_nat idx = Some id_2.
Proof.
  assert (H : exists packidx idx s',
             search_packidx id_2 state_cache_full = Done (packidx, idx) s')
    by (vm_compute; do 3 eexists; reflexivity).
  destruct H as (packidx & idx & s' & H).
  exists packidx, idx, s'. split; [exact H|].
  exact (search_packidx_found id_2 state_cache_full s' packidx idx H).
Defined.

(** X3: a copy made by [dup_packidx] holds the magic, version, fanout
    table, ids, CRCs, offsets and trailer of the original and no
    large-offset table, whether the original has one or not. On the copy,
    [get_object_offset] answers -1 for every entry that refers to the
    large-offset table. *)
Theorem dup_packidx_drops_large_offsets (packidx p : got_packidx_v2_hdr)
    (s s' : state) (idx offset : Z) :
  dup_packidx packidx s = Done (Some p) s' ->
  array_get (offsets packidx) idx = Some offset ->
  Z.land offset GOT_PACKIDX_OFFSET_VAL_IS_LARGE_IDX <> 0 ->
  p = mkPackidx (magic packidx) (version packidx) (fanout_table packidx)
        (sorted_ids packidx) (crc32 packidx) (offsets packidx) None (trailer packidx)
  /\ get_object_offset p idx = Some (-1).
Proof.
  intros Hdup Hget Hlarge. apply dup_packidx_Done in Hdup. split; [exact Hdup|].
  subst p. unfold get_object_offset. cbn [offsets large_offsets fanout_table].
  rewrite Hget.
  destruct (Z.eqb_spec (Z.land offset GOT_PACKIDX_OFFSET_VAL_IS_LARGE_IDX) 0);
    [contradiction | reflexivity].
Qed.

Lemma dup_packidx_drops_large_offsets_witness :
  get_object_offset packidx_large 0 = Some 0x200000000
  /\ exists p,
       dup_packidx packidx_large (fresh_state ∅ ∅) = Done (Some p) (fresh_state ∅ ∅)
       /\ get_object_offset p 0 = Some (-1).
Proof.
  split; [reflexivity|]. eexists. split; [reflexivity|].
  refine (proj2 (dup_packidx_drops_large_offsets packidx_large _
                   (fresh_state ∅ ∅) (fresh_state ∅ ∅) 0 0x80000000 _ _ _)).
  - reflexivity.
  - reflexivity.
  - vm_compute. discriminate.
Defined.

(** X4: [get_object_offset] answers -1 or an offset from 0 to [INT64_MAX],
    never another negative number, when the entries of the large-offset
    table are unsigned numbers. *)
Theorem get_object_offset_range (packidx : got_packidx_v2_hdr) (idx v : Z) :
  (forall large, large_offsets packidx = Some large -> Forall (fun x => 0 <= x) large) ->
  get_object_offset packidx idx = Some v ->
  v = -1 \/ 0 <= v <= INT64_MAX.
Proof.
  intros Hlarge H. unfold get_object_offset in H.
  destruct (array_get (offsets packidx) idx) as [offset|]; [|discriminate H].
  assert (Hmask : 0 <= Z.land offset GOT_PACKIDX_OFFSET_VAL_MASK < 2 ^ 31).
  { change GOT_PACKIDX_OFFSET_VAL_MASK with (Z.ones 31). rewrite Z.land_ones by lia.
    apply Z.mod_pos_bound. lia. }
  destruct (Z.eqb_spec (Z.land offset GOT_PACKIDX_OFFSET_VAL_IS_LARGE_IDX) 0) as [E|E];
    cbn [negb] in H.
  - injection H as <-. right. unfold INT64_MAX. lia.
  - destruct (large_offsets packidx) as [large|] eqn:El; [|injection H as <-; auto].
    destruct ((Z.land offset GOT_PACKIDX_OFFSET_VAL_MASK <? 0)
              || (to_uint32 (Z.land offset GOT_PACKIDX_OFFSET_VAL_MASK)
                  >? fanout_table packidx !!! 0xff%nat));
      [injection H as <-; auto|].
    destruct (array_get large (Z.land offset GOT_PACKIDX_OFFSET_VAL_MASK))
      as [loffset|] eqn:Eget; [|discriminate H].
    injection H as <-.
    destruct (Z.gtb_spec loffset INT64_MAX); [auto|]. right.
    apply array_get_Some in Eget as [_ Hl].
    specialize (Hlarge large eq_refl). rewrite Forall_lookup in Hlarge.
    specialize (Hlarge _ _ Hl). cbn in Hlarge. lia.
Qed.

Lemma get_object_offset_range_witness :
  0x200000000 = -1 \/ 0 <= 0x200000000 <= INT64_MAX.
Proof.
  apply (get_object_offset_range packidx_large 0 0x200000000).
  - intros large [= <-]. repeat constructor. lia.
  - reflexivity.
Defined.

(** ** The delta cache *)

Lemma find_delta_cache_true (dc : list got_delta_cache) (path : string) :
  forall i, find_delta_cache dc path = (i, true) ->
    (exists c, dc !! i = Some c /\ dc_path_packfile c = Some path)
    /\ forall j c', (j < i)%nat -> dc !! j = Some c' ->
         exists p, dc_path_packfile c' = Some p /\ p <> path.
Proof.
  induction dc as [|c dc IH]; intros i H; cbn [find_delta_cache] in H; [discriminate|].
  destruct (dc_path_packfile c) as [p|] eqn:Ep; [|discriminate].
  destruct (String.eqb_spec p path) as [->|Hne].
  - injection H as <-. split; [exists c; auto|]. intros j c' Hj. lia.
  - destruct (find_delta_cache dc path) as [i' found] eqn:E. injection H as <- ->.
    destruct (IH i' eq_refl) as [Hc Hbefore]. split; [exact Hc|].
    intros [|j] c' Hj Hl; cbn in Hl.
    + injection Hl as <-. eauto.
    + eapply Hbefore; [|exact Hl]. lia.
Qed.

Lemma find_delta_cache_false (dc : list got_delta_cache) (path : string) :
  forall i, find_delta_cache dc path = (i, false) ->
    (i <= length dc)%nat
    /\ (forall c, dc !! i = Some c -> dc_path_packfile c = None)
    /\ forall j c', (j < i)%nat -> dc !! j = Some c' ->
         exists p, dc_path_packfile c' = Some p /\ p <> path.
Proof.
  induction dc as [|c dc IH]; intros i H; cbn [find_delta_cache] in H.
  { injection H as <-. cbn. split; [lia|]. split; [intros c [=] | intros j c' Hj; lia]. }
  destruct (dc_path_packfile c) as [p|] eqn:Ep.
  - destruct (String.eqb_spec p path) as [->|Hne]; [discriminate|].
    destruct (find_delta_cache dc path) as [i' found] eqn:E. injection H as <- ->.
    destruct (IH i' eq_refl) as (Hlen & Hfree & Hbefore).
    split; [cbn; lia|]. split; [exact Hfree|].
    intros [|j] c' Hj Hl; cbn in Hl.
    + injection Hl as <-. eauto.
    + eapply Hbefore; [|exact Hl]. lia.
  - injection H as <-. split; [cbn; lia|].
    split; [intros c0 [= <-]; exact Ep | intros j c' Hj; lia].
Qed.

Lemma find_delta_cache_intro (dc : list got_delta_cache) (path : string) :
  forall i c, dc !! i = Some c -> dc_path_packfile c = Some path ->
    (forall j c', (j < i)%nat -> dc !! j = Some c' ->
       exists p, dc_path_packfile c' = Some p /\ p <> path) ->
    find_delta_cache dc path = (i, true).
Proof.
  induction dc as [|c0 dc IH]; intros i c Hl Hp Hbefore; [discriminate Hl|].
  cbn [find_delta_cache]. destruct i as [|i]; cbn in Hl.
  - injection Hl as ->. rewrite Hp, String.eqb_refl. reflexivity.
  - destruct (Hbefore O c0 ltac:(lia) eq_refl) as (p & -> & Hne).
    apply String.eqb_neq in Hne. rewrite Hne.
    rewrite (IH i c Hl Hp); [reflexivity|].
    intros j c' Hj Hl'. apply (Hbefore (S j) c'); [lia | exact Hl'].
Qed.

(** Looking up an offset that was just entered at the first free slot of a
    cache none of whose slots held it. *)
Lemma find_cached_delta_insert (deltas : list got_delta_cache_entry)
    (off len : Z) (buf : option (list Z)) :
  off <> 0 ->
  Forall (fun e => dce_data_offset e <> off) deltas ->
  (first_free_delta_slot deltas < length deltas)%nat ->
  find_cached_delta
    (<[first_free_delta_slot deltas := mkDeltaCacheEntry off buf len]> deltas) off
  = (buf, len).
Proof.
  intros Hoff. induction deltas as [|e deltas IH]; intros Hall Hfree; cbn in Hfree;
    [lia|].
  apply Forall_cons in Hall as [He Hall].
  cbn [first_free_delta_slot]. destruct (Z.eqb_spec (dce_data_offset e) 0) as [E|E].
  - cbn. destruct (Z.eqb_spec off 0); [contradiction|]. rewrite Z.eqb_refl. reflexivity.
  - cbn. destruct (Z.eqb_spec (dce_data_offset e) 0); [contradiction|].
    destruct (Z.eqb_spec (dce_data_offset e) off); [contradiction|].
    apply IH; [exact Hall|].
    destruct (dce_data_offset e =? 0) eqn:E0; [apply Z.eqb_eq in E0; contradiction|].
    cbn in Hfree. lia.
Qed.

Lemma first_free_delta_slot_le (deltas : list got_delta_cache_entry) :
  (first_free_delta_slot deltas <= length deltas)%nat.
Proof.
  induction deltas as [|e deltas IH]; cbn; [lia|].
  destruct (dce_data_offset e =? 0); cbn; lia.
Qed.

Lemma add_delta_cache_entry_length (cache : got_delta_cache) (off len : Z)
    (buf : option (list Z)) :
  length (dc_deltas (add_delta_cache_entry cache off buf len)) = length (dc_deltas cache).
Proof.
  unfold add_delta_cache_entry.
  destruct (first_free_delta_slot (dc_deltas cache) =? length (dc_deltas cache))%nat;
    cbn [dc_deltas];
    rewrite length_insert, ?memmove_up_length, ?length_alter; reflexivity.
Qed.

Lemma add_delta_cache_entry_path (cache : got_delta_cache) (off len : Z)
    (buf : option (list Z)) :
  dc_path_packfile (add_delta_cache_entry cache off buf len) = dc_path_packfile cache.
Proof.
  unfold add_delta_cache_entry.
  destruct (first_free_delta_slot (dc_deltas cache) =? length (dc_deltas cache))%nat;
    reflexivity.
Qed.

(** What [add_delta_cache_entry] enters is what the lookup of the cache
    finds, when no slot of the cache held the offset. *)
Lemma add_delta_cache_entry_find (cache : got_delta_cache) (off len : Z)
    (buf : option (list Z)) :
  off <> 0 -> dc_deltas cache <> [] ->
  Forall (fun e => dce_data_offset e <> off) (dc_deltas cache) ->
  find_cached_delta (dc_deltas (add_delta_cache_entry cache off buf len)) off = (buf, len).
Proof.
  intros Hoff Hne Hall. unfold add_delta_cache_entry.
  pose proof (first_free_delta_slot_le (dc_deltas cache)) as Hle.
  destruct (Nat.eqb_spec (first_free_delta_slot (dc_deltas cache))
                         (length (dc_deltas cache))) as [E|E]; cbn [dc_deltas].
  - destruct (memmove_up (alter clear_delta_cache_entry
                            (first_free_delta_slot (dc_deltas cache) - 1)%nat
                            (dc_deltas cache))) as [|x l] eqn:Em.
    + apply (f_equal length) in Em. rewrite memmove_up_length, length_alter in Em.
      destruct (dc_deltas cache); [contradiction | discriminate Em].
    + cbn. destruct (Z.eqb_spec off 0); [contradiction|]. rewrite Z.eqb_refl. reflexivity.
  - apply find_cached_delta_insert; [exact Hoff | exact Hall | lia].
Qed.

Lemma put_delta_cache_Done (dc : list got_delta_cache) (s s' : state) (u : unit) :
  put_delta_cache dc s = Done u s' ->
  delta_cache (st_repo s') = dc /\ pack_cache (st_repo s') = pack_cache (st_repo s)
  /\ st_open s' = st_open s.
Proof.
  unfold put_delta_cache. intros H. step H as r s1 H1.
  unfold get_repo in H1. injection H1 as <- <-.
  destruct u. unfold put_repo in H. injection H as <-. cbn. repeat split.
Qed.

(** The delta cache after a [cache_delta] that returned without an
    error. *)
Lemma cache_delta_Done (off len : Z) (buf : option (list Z)) (path : string)
    (s s' : state) (u : unit) :
  cache_delta off buf len path s = Done u s' ->
  let dc := delta_cache (st_repo s) in
  delta_cache (st_repo s') =
    match find_delta_cache dc path with
    | (i, true) => alter (fun cache => add_delta_cache_entry cache off buf len) i dc
    | (i, false) =>
        let '(dc2, i2) :=
          if (i =? length dc)%nat then
            (memmove_up
               (alter (fun cache => mkDeltaCache None (clear_used_entries (dc_deltas cache)))
                      (i - 1)%nat dc), O)
          else (dc, i) in
        alter (fun cache =>
                 add_delta_cache_entry (mkDeltaCache (Some path) (dc_deltas cache))
                   off buf len) i2 dc2
    end.
Proof.
  intros H. cbv zeta. unfold cache_delta in H. step H as r s1 H1.
  unfold get_repo in H1. injection H1 as <- <-.
  destruct (find_delta_cache (delta_cache (st_repo s)) path) as [i found].
  destruct found.
  - apply put_delta_cache_Done in H as (H & _). exact H.
  - destruct (if (i =? length (delta_cache (st_repo s)))%nat then _ else _) as [dc2 i2].
    step H as ok s1 H1. destruct ok; cbn [negb] in H.
    + apply put_delta_cache_Done in H as (H & _). exact H.
    + step H as u' s2 H2. discriminate H.
Qed.

Lemma get_cached_delta_run (off : Z) (path : string) (s : state) (i : nat)
    (c : got_delta_cache) :
  find_delta_cache (delta_cache (st_repo s)) path = (i, true) ->
  delta_cache (st_repo s) !! i = Some c ->
  get_cached_delta off path s = Done (find_cached_delta (dc_deltas c) off) s.
Proof.
  intros Hf Hl. unfold get_cached_delta.
  rewrite (bind_run _ _ s s (st_repo s)) by reflexivity.
  rewrite Hf, Hl. reflexivity.
Qed.

(** X5: a delta entered by [cache_delta] is what [get_cached_delta] then
    answers for the same pack file and offset, buffer and length, provided
    the offset is not 0, which marks a free slot, and no slot of the delta
    cache held the offset before. *)
Theorem cache_delta_get_cached_delta (off len : Z) (buf : option (list Z))
    (path : string) (s s' : state) :
  delta_cache_sized (st_repo s) -> off <> 0 -> offset_not_cached (st_repo s) off ->
  cache_delta off buf len path s = Done () s' ->
  get_cached_delta off path s' = Done (buf, len) s'.
Proof.
  intros [Hsize Hslots] Hoff Hnot H. apply cache_delta_Done in H. cbn zeta in H.
  unfold offset_not_cached in Hnot.
  remember (delta_cache (st_repo s)) as dc eqn:Edc. clear Edc.
  assert (Hfind : forall c, c ∈ dc ->
            find_cached_delta (dc_deltas (add_delta_cache_entry
                                 (mkDeltaCache (Some path) (dc_deltas c)) off buf len)) off
            = (buf, len)
            /\ find_cached_delta (dc_deltas (add_delta_cache_entry c off buf len)) off
               = (buf, len)).
  { intros c Hc. rewrite Forall_forall in Hslots, Hnot.
    specialize (Hslots c Hc). specialize (Hnot c Hc).
    assert (Hne : dc_deltas c <> []).
    { intros E. rewrite E in Hslots. discriminate Hslots. }
    split; apply add_delta_cache_entry_find; assumption. }
  destruct (find_delta_cache dc path) as [i found] eqn:Efind. destruct found.
  - destruct (find_delta_cache_true _ _ _ Efind) as [(c & Hc & Hp) Hbefore].
    rewrite (get_cached_delta_run off path s' i (add_delta_cache_entry c off buf len)).
    + f_equal. apply (proj2 (Hfind c (list_elem_of_lookup_2 _ _ _ Hc))).
    + rewrite H. eapply find_delta_cache_intro.
      * rewrite list_lookup_alter_eq, Hc. reflexivity.
      * rewrite add_delta_cache_entry_path. exact Hp.
      * intros j c' Hj Hl. rewrite list_lookup_alter_ne in Hl by lia. eauto.
    + rewrite H, list_lookup_alter_eq, Hc. reflexivity.
  - destruct (find_delta_cache_false _ _ _ Efind) as (Hlen & Hfree & Hbefore).
    destruct (Nat.eqb_spec i (length dc)) as [Ei|Ei].
    + destruct dc as [|c0 [|c1 [|c2 [|c3 [|]]]]]; try discriminate Hsize.
      subst i. cbn in H.
      rewrite (get_cached_delta_run off path s' 0
                 (add_delta_cache_entry (mkDeltaCache (Some path) (dc_deltas c0))
                    off buf len)).
      * f_equal. apply (proj1 (Hfind c0 (list_elem_of_here _ _))).
      * rewrite H. cbn [find_delta_cache].
        rewrite add_delta_cache_entry_path. cbn. rewrite String.eqb_refl. reflexivity.
      * rewrite H. reflexivity.
    + assert (Hi : (i < length dc)%nat) by lia.
      apply lookup_lt_is_Some_2 in Hi as [c Hc].
      rewrite (get_cached_delta_run off path s' i
                 (add_delta_cache_entry (mkDeltaCache (Some path) (dc_deltas c))
                    off buf len)).
      * f_equal. apply (proj1 (Hfind c (list_elem_of_lookup_2 _ _ _ Hc))).
      * rewrite H. eapply find_delta_cache_intro.
        -- rewrite list_lookup_alter_eq, Hc. reflexivity.
        -- rewrite add_delta_cache_entry_path. reflexivity.
        -- intros j c' Hj Hl. rewrite list_lookup_alter_ne in Hl by lia. eauto.
      * rewrite H, list_lookup_alter_eq, Hc. reflexivity.
Qed.

Lemma cache_delta_get_cached_delta_witness :
  exists s',
    cache_delta 30 (Some [1; 2; 3]) 3 "p.pack" (fresh_state ∅ ∅) = Done () s'
    /\ get_cached_delta 30 "p.pack" s' = Done (Some [1; 2; 3], 3) s'.
Proof.
  assert (H : exists s',
             cache_delta 30 (Some [1; 2; 3]) 3 "p.pack" (fresh_state ∅ ∅) = Done () s')
    by (vm_compute; eexists; reflexivity).
  destruct H as [s' H]. exists s'. split; [exact H|].
  apply (cache_delta_get_cached_delta 30 3 (Some [1; 2; 3]) "p.pack"
           (fresh_state ∅ ∅) s').
  - unfold delta_cache_sized. apply (bool_decide_unpack _). vm_compute. exact I.
  - lia.
  - unfold offset_not_cached. apply (bool_decide_unpack _). vm_compute. exact I.
  - exact H.
Defined.

Lemma clear_used_entries_length (deltas : list got_delta_cache_entry) :
  length (clear_used_entries deltas) = length deltas.
Proof.
  induction deltas as [|e deltas IH]; cbn; [reflexivity|].
  destruct (dce_data_offset e =? 0); cbn; congruence.
Qed.

Lemma Forall_memmove_up {A : Type} (P : A -> Prop) (a : list A) :
  Forall P a -> Forall P (memmove_up a).
Proof.
  intros H. unfold memmove_up. apply Forall_app. split; apply Forall_take; exact H.
Qed.

Lemma delta_caches_sized_alter (f : got_delta_cache -> got_delta_cache) (i : nat)
    (dc : list got_delta_cache) (n : nat) :
  (forall c, length (dc_deltas (f c)) = length (dc_deltas c)) ->
  Forall (fun cache => length (dc_deltas cache) = n) dc ->
  Forall (fun cache => length (dc_deltas cache) = n) (alter f i dc).
Proof.
  intros Hf H. apply Forall_alter; [exact H|]. intros c _ Hc. rewrite Hf. exact Hc.
Qed.

Lemma put_delta_cache_run (dc : list got_delta_cache) (s : state) :
  put_delta_cache dc s
  = Done () (mkState (st_fs s) (st_dirs s) (st_open s) (st_next s) (st_oracle s)
               (mkRepo (path_git_dir (st_repo s)) (pack_cache (st_repo s)) dc)).
Proof. reflexivity. Qed.

Lemma alloc_run (s : state) :
  exists b s1, alloc s = Done b s1 /\ st_repo s1 = st_repo s /\ st_open s1 = st_open s.
Proof.
  unfold alloc. destruct (st_oracle s) as [|b o]; eexists _, _; repeat split.
Qed.



Lemma find_cached_delta_keeps (deltas : list got_delta_cache_entry)
    (new : got_delta_cache_entry) (off0 len0 : Z) (buf0 : list Z) :
  find_cached_delta deltas off0 = (Some buf0, len0) ->
  find_cached_delta (<[first_free_delta_slot deltas := new]> deltas) off0
  = (Some buf0, len0).
Proof.
  induction deltas as [|e deltas IH]; cbn; [discriminate|].
  destruct (dce_data_offset e =? 0) eqn:E0; [discriminate|]. cbn. rewrite E0.
  destruct (dce_data_offset e =? off0); [auto | exact IH].
Qed.



(** ** Which streams a computation touches *)

Lemma frame_on_refl (P : nat -> Prop) (s : state) : frame_on P s s.
Proof. split; [reflexivity | intros; reflexivity]. Qed.

Lemma frame_on_trans (P : nat -> Prop) (s1 s2 s3 : state) :
  frame_on P s1 s2 -> frame_on P s2 s3 -> frame_on P s1 s3.
Proof.
  intros [Hn1 Ho1] [Hn2 Ho2]. split; [congruence|].
  intros h Hh. rewrite Ho2, Ho1 by exact Hh. reflexivity.
Qed.

Lemma frame_on_weaken (P Q : nat -> Prop) (s s' : state) :
  (forall h, P h -> Q h) -> frame_on P s s' -> frame_on Q s s'.
Proof. intros HPQ [Hn Ho]. split; [exact Hn|]. intros h Hh. apply Ho. auto. Qed.

Lemma only_streams_weaken {A : Type} (P Q : nat -> Prop) (m : M A) :
  (forall h, P h -> Q h) -> only_streams P m -> only_streams Q m.
Proof.
  intros HPQ H s. eapply post_weaken; [apply H | |];
    intros; eapply frame_on_weaken; eassumption.
Qed.

Lemma only_streams_bind {A B : Type} (P : nat -> Prop) (m : M A) (k : A -> M B) :
  only_streams P m -> (forall a, only_streams P (k a)) -> only_streams P (m ≫= k).
Proof.
  intros Hm Hk s. apply post_bind.
  eapply post_weaken; [apply Hm | | auto].
  intros a s1 H1. cbv beta in H1. eapply post_weaken; [apply Hk | |]; cbn;
    intros; eapply frame_on_trans; eassumption.
Qed.

Lemma only_streams_ret {A : Type} (P : nat -> Prop) (a : A) : only_streams P (mret a).
Proof. intros s. apply frame_on_refl. Qed.

Lemma only_streams_fail {A : Type} (P : nat -> Prop) (e : got_error_code) :
  only_streams P (@fail A e).
Proof. intros s. apply frame_on_refl. Qed.

Lemma only_streams_undefined {A : Type} (P : nat -> Prop) : only_streams P (@undefined A).
Proof. intros s. exact I. Qed.

Lemma only_streams_attempt {A : Type} (P : nat -> Prop) (m : M A) :
  only_streams P m -> only_streams P (attempt m).
Proof. intros H s. apply post_attempt. apply H. Qed.

Lemma only_streams_of_result {A : Type} (P : nat -> Prop) (r : result A) :
  only_streams P (of_result r).
Proof. destruct r; intros s; apply frame_on_refl. Qed.

Lemma only_streams_alloc (P : nat -> Prop) : only_streams P alloc.
Proof.
  intros s. unfold post, alloc.
  destruct (st_oracle s); split; cbn; intros; reflexivity.
Qed.

Lemma only_streams_get_repo (P : nat -> Prop) : only_streams P get_repo.
Proof. intros s. apply frame_on_refl. Qed.

Lemma only_streams_put_repo (P : nat -> Prop) (r : got_repository) :
  only_streams P (put_repo r).
Proof. intros s. split; cbn; intros; reflexivity. Qed.

Lemma only_streams_stat_size (P : nat -> Prop) (path : string) :
  only_streams P (stat_size path).
Proof. intros s. apply frame_on_refl. Qed.

Lemma only_streams_on_file {A : Type} (P : nat -> Prop) (h : nat)
    (op : FILE -> A * FILE) :
  P h -> only_streams P (on_file h op).
Proof.
  intros Hh s. unfold post, on_file. destruct (st_open s !! h) as [f|]; [|exact I].
  destruct (op f). split; [reflexivity|]. intros h' Hh'. cbn.
  apply lookup_insert_ne. intros ->. contradiction.
Qed.

Create HintDb streams discriminated.
#[local] Hint Resolve only_streams_ret only_streams_fail only_streams_undefined
  only_streams_alloc only_streams_get_repo only_streams_put_repo only_streams_stat_size
  only_streams_of_result : streams.

(** Walks through a computation built from operations on the streams of
    [P]; leaves the goals [P h] of the streams it meets. *)
Ltac only_streams :=
  repeat first
    [ solve [auto with streams]
    | apply only_streams_attempt
    | apply only_streams_on_file
    | apply only_streams_bind; [|intros ?]
    | match goal with
      | |- only_streams _ (if ?c then _ else _) => destruct c
      | |- only_streams _ (match ?x with _ => _ end) => destruct x
      end ].

Lemma only_streams_on_file_err {A : Type} (P : nat -> Prop) (h : nat)
    (op : FILE -> result A * FILE) :
  P h -> only_streams P (on_file_err h op).
Proof. intros Hh. unfold on_file_err. only_streams. Qed.

Lemma only_streams_fseeko_h (P : nat -> Prop) (h : nat) (off : Z) :
  P h -> only_streams P (fseeko_h h off).
Proof. intros Hh. unfold fseeko_h. only_streams. Qed.

Lemma only_streams_fread_all (P : nat -> Prop) (h : nat) (size nmemb : Z) :
  P h -> only_streams P (fread_all h size nmemb).
Proof. intros Hh. unfold fread_all. only_streams. Qed.

Lemma only_streams_calloc_or_fail (P : nat -> Prop) : only_streams P calloc_or_fail.
Proof. unfold calloc_or_fail. only_streams. Qed.
#[local] Hint Resolve only_streams_calloc_or_fail : streams.

Lemma only_streams_got_packidx_open_body (f : nat) (packfile_size : Z) :
  only_streams (eq f) (got_packidx_open_body f packfile_size).
Proof.
  unfold got_packidx_open_body.
  repeat first
    [ solve [auto with streams]
    | apply only_streams_fread_all; reflexivity
    | apply only_streams_bind; [|intros ?]
    | match goal with
      | |- only_streams _ (if ?c then _ else _) => destruct c
      end ].
Qed.

Lemma only_streams_get_packfile_size (P : nat -> Prop) (path : string) :
  only_streams P (get_packfile_size path).
Proof. unfold get_packfile_size. only_streams. Qed.

Lemma only_streams_Done {A : Type} (P : nat -> Prop) (m : M A) (s s' : state) (a : A) :
  only_streams P m -> m s = Done a s' -> frame_on P s s'.
Proof. intros H E. specialize (H s). unfold post in H. rewrite E in H. exact H. Qed.

Lemma only_streams_Fail {A : Type} (P : nat -> Prop) (m : M A) (s s' : state)
    (e : got_error_code) :
  only_streams P m -> m s = Fail e s' -> frame_on P s s'.
Proof. intros H E. specialize (H s). unfold post in H. rewrite E in H. exact H. Qed.

Lemma bind_Fail {A B : Type} (m : M A) (k : A -> M B) (s s' : state)
    (e : got_error_code) :
  m s = Fail e s' -> (m ≫= k) s = Fail e s'.
Proof. intros H. unfold mbind, M_bind. rewrite H. reflexivity. Qed.

Lemma bind_Fail_inv {A B : Type} (m : M A) (k : A -> M B) (s s' : state)
    (e : got_error_code) :
  (m ≫= k) s = Fail e s' ->
  m s = Fail e s' \/ exists a s1, m s = Done a s1 /\ k a s1 = Fail e s'.
Proof.
  unfold mbind, M_bind. destruct (m s) as [a s1|e1 s1| |]; intros H;
    try discriminate H; [right; eauto | left; injection H as -> ->; reflexivity].
Qed.

(** ** The streams of the index loader *)

(** X8: when [got_packidx_open] returns an index it has closed the stream
    it read the index file through: it used one stream identifier, that
    stream is not open afterwards, and every other stream is as it was. *)
Theorem got_packidx_open_closes_stream (path : string) (p : got_packidx_v2_hdr)
    (s s' : state) :
  got_packidx_open path s = Done p s' ->
  st_next s' = S (st_next s)
  /\ st_open s' !! st_next s = None
  /\ forall h, h <> st_next s -> st_open s' !! h = st_open s !! h.
Proof.
  unfold got_packidx_open. intros H.
  step H as f s1 H1. destruct f as [f|]; [|discriminate H].
  apply fopen_Done in H1 as (data & _ & -> & Hnx1 & _ & _ & Ho1).
  step H as packfile_size s2 H2.
  apply (only_streams_Done (fun _ => False)) in H2 as [Hnx2 Ho2];
    [|apply only_streams_get_packfile_size].
  step H as ok s3 H3.
  apply (only_streams_Done (fun _ => False)) in H3 as [Hnx3 Ho3];
    [|apply only_streams_alloc].
  destruct ok; cbn [negb] in H; [|step H as u s4 H4; discriminate H].
  step H as r s4 H4. step H as u s5 H5. apply of_result_Done in H as [-> ->].
  apply attempt_Done in H4.
  apply (only_streams_Done (eq (st_next s))) in H4 as [Hnx4 Ho4];
    [|apply only_streams_got_packidx_open_body].
  destruct u. apply fclose_Done in H5 as (Ho5 & Hnx5 & _).
  split; [congruence|]. rewrite Ho5.
  split; [apply lookup_delete_eq|].
  intros h Hh. rewrite lookup_delete_ne by congruence.
  rewrite Ho4, Ho3, Ho2, Ho1 by (auto || congruence).
  apply lookup_insert_ne. congruence.
Qed.

Lemma got_packidx_open_closes_stream_witness :
  st_next state_unsorted_loaded = S (st_next state_unsorted)
  /\ st_open state_unsorted_loaded !! st_next state_unsorted = None
  /\ forall h, h <> st_next state_unsorted ->
       st_open state_unsorted_loaded !! h = st_open state_unsorted !! h.
Proof.
  exact (got_packidx_open_closes_stream "p.idx" packidx_unsorted state_unsorted
           state_unsorted_loaded got_packidx_open_unsorted).
Defined.

Lemma alloc_not_Fail (s s' : state) (e : got_error_code) : alloc s <> Fail e s'.
Proof. unfold alloc. destruct (st_oracle s); discriminate. Qed.

Lemma fclose_not_Fail (h : nat) (s s' : state) (e : got_error_code) :
  fclose h s <> Fail e s'.
Proof. unfold fclose. destruct (st_open s !! h); discriminate. Qed.

Lemma attempt_not_Fail {A : Type} (m : M A) (s s' : state) (e : got_error_code) :
  attempt m s <> Fail e s'.
Proof. unfold attempt. destruct (m s); discriminate. Qed.

(** X9: what becomes of the index stream when [got_packidx_open] fails
    after it opened the index file. If [get_packfile_size] fails (the pack
    file beside the index is missing, the path has no dot or is too long,
    no memory), the error is returned with the stream still open. An
    error met later, while the index is read and checked, is returned with
    the stream closed. *)
Theorem got_packidx_open_error_stream (path : string) (s s1 : state) (h : nat) :
  fopen path s = Done (Some h) s1 ->
  (forall e s2, get_packfile_size path s1 = Fail e s2 ->
     got_packidx_open path s = Fail e s2 /\ is_Some (st_open s2 !! h))
  /\ (forall size s2 e s', get_packfile_size path s1 = Done size s2 ->
        got_packidx_open path s = Fail e s' -> st_open s' !! h = None).
Proof.
  intros Hopen. split.
  - intros e s2 Hsize. unfold got_packidx_open.
    rewrite (bind_run _ _ s s1 (Some h)) by exact Hopen.
    split; [apply bind_Fail; exact Hsize|].
    apply (only_streams_Fail (fun _ => False)) in Hsize as [_ Ho2];
      [|apply only_streams_get_packfile_size].
    apply fopen_Done in Hopen as (data & _ & _ & _ & _ & _ & Ho1).
    rewrite Ho2, Ho1 by auto. rewrite lookup_insert_eq. eauto.
  - intros size s2 e s' Hsize H. unfold got_packidx_open in H.
    rewrite (bind_run _ _ s s1 (Some h)) in H by exact Hopen.
    rewrite (bind_run _ _ s1 s2 size) in H by exact Hsize.
    apply bind_Fail_inv in H as [H|(ok & s3 & H3 & H)];
      [destruct (alloc_not_Fail _ _ _ H)|].
    destruct ok; cbn [negb] in H.
    + apply bind_Fail_inv in H as [H|(r & s4 & H4 & H)];
        [destruct (attempt_not_Fail _ _ _ _ H)|].
      apply bind_Fail_inv in H as [H|(u & s5 & H5 & H)];
        [destruct (fclose_not_Fail _ _ _ _ H)|].
      destruct u. apply fclose_Done in H5 as (Ho5 & _ & _).
      destruct r as [p|e']; [discriminate H|]. injection H as _ <-.
      rewrite Ho5. apply lookup_delete_eq.
    + apply bind_Fail_inv in H as [H|(u & s4 & H4 & H)];
        [destruct (fclose_not_Fail _ _ _ _ H) | discriminate H].
Qed.

Lemma got_packidx_open_error_stream_witness :
  got_packidx_open "p.idx" state_idx_only = Fail GOT_ERR_ERRNO state_idx_only_open
  /\ is_Some (st_open state_idx_only_open !! 0%nat).
Proof.
  assert (Hopen : fopen "p.idx" state_idx_only = Done (Some 0%nat) state_idx_only_open)
    by (vm_compute; reflexivity).
  apply (proj1 (got_packidx_open_error_stream "p.idx" state_idx_only
                  state_idx_only_open 0 Hopen)).
  vm_compute. reflexivity.
Defined.

(** ** The streams of the extraction to memory *)

#[local] Hint Resolve only_streams_on_file only_streams_on_file_err
  only_streams_fseeko_h : streams.

Section ExtractionStreams.

Variable inflate : list Z -> result (list Z * Z).
Variable P : nat -> Prop.
Variable packfile : nat.
Hypothesis packfile_in : P packfile.

Lemma only_streams_got_inflate_to_mem : only_streams P (got_inflate_to_mem inflate packfile).
Proof. unfold got_inflate_to_mem. only_streams. Qed.
#[local] Hint Resolve only_streams_got_inflate_to_mem : streams.

Lemma only_streams_get_delta_sizes (delta : got_delta) :
  only_streams P (get_delta_sizes inflate delta packfile).
Proof. unfold get_delta_sizes. only_streams. Qed.
#[local] Hint Resolve only_streams_get_delta_sizes : streams.

Lemma only_streams_get_delta_chain_max_size_loop (ds : list got_delta) :
  forall max_size base_size result_size,
    only_streams P (get_delta_chain_max_size_loop inflate ds packfile max_size base_size
                      result_size).
Proof.
  induction ds as [|delta ds IH]; intros max_size base_size result_size;
    cbn [get_delta_chain_max_size_loop]; only_streams.
Qed.

Lemma only_streams_get_delta_chain_max_size (deltas : got_delta_chain) :
  only_streams P (get_delta_chain_max_size inflate deltas packfile).
Proof. apply only_streams_get_delta_chain_max_size_loop. Qed.
#[local] Hint Resolve only_streams_get_delta_chain_max_size : streams.

Lemma only_streams_put_delta_cache (dc : list got_delta_cache) :
  only_streams P (put_delta_cache dc).
Proof. unfold put_delta_cache. only_streams. Qed.
#[local] Hint Resolve only_streams_put_delta_cache : streams.

Lemma only_streams_cache_delta (data_offset delta_len : Z) (delta_buf : option (list Z))
    (path_packfile : string) :
  only_streams P (cache_delta data_offset delta_buf delta_len path_packfile).
Proof. unfold cache_delta. only_streams. Qed.
#[local] Hint Resolve only_streams_cache_delta : streams.

Lemma only_streams_get_cached_delta (data_offset : Z) (path_packfile : string) :
  only_streams P (get_cached_delta data_offset path_packfile).
Proof. unfold get_cached_delta. only_streams. Qed.
#[local] Hint Resolve only_streams_get_cached_delta : streams.

Lemma only_streams_cached_delta_buf (delta : got_delta) (path_packfile : string) :
  only_streams P (cached_delta_buf inflate delta packfile path_packfile).
Proof. unfold cached_delta_buf. only_streams. Qed.
#[local] Hint Resolve only_streams_cached_delta_buf : streams.

Lemma only_streams_inflate_base_to_mem (delta : got_delta) (max_size : Z) :
  only_streams P (inflate_base_to_mem inflate delta packfile max_size).
Proof. unfold inflate_base_to_mem. only_streams. Qed.
#[local] Hint Resolve only_streams_inflate_base_to_mem : streams.

Lemma only_streams_dump_delta_chain_to_mem_loop (ds : list got_delta)
    (nentries max_size : Z) (path_packfile : string) :
  forall n base_buf accum_buf accum_size,
    only_streams P (dump_delta_chain_to_mem_loop inflate ds nentries max_size packfile
                      path_packfile n base_buf accum_buf accum_size).
Proof.
  induction ds as [|delta ds IH]; intros n base_buf accum_buf accum_size;
    cbn [dump_delta_chain_to_mem_loop]; only_streams.
Qed.
#[local] Hint Resolve only_streams_dump_delta_chain_to_mem_loop : streams.

Lemma only_streams_dump_delta_chain_to_mem (deltas : got_delta_chain)
    (path_packfile : string) :
  only_streams P (dump_delta_chain_to_mem inflate deltas packfile path_packfile).
Proof. unfold dump_delta_chain_to_mem. only_streams. Qed.

End ExtractionStreams.

(** X10: [got_packfile_extract_object_to_mem] leaves no stream behind.
    Whatever it returns, every stream that was open is as it was; and
    either nothing happened to the state at all (the object is not packed,
    or its pack file could not be opened) or the one stream it opened, on
    the pack file, is closed again. *)
Theorem extract_object_to_mem_streams (inflate : list Z -> result (list Z * Z))
    (buf : option (list Z)) (len : Z) (obj : got_object) (s s' : state)
    (r : option got_error_code * option (list Z) * Z) :
  got_packfile_extract_object_to_mem inflate buf len obj s = Done r s' ->
  (forall h, h <> st_next s -> st_open s' !! h = st_open s !! h)
  /\ (s' = s \/ st_next s' = S (st_next s) /\ st_open s' !! st_next s = None).
Proof.
  unfold got_packfile_extract_object_to_mem. intros H.
  destruct (Z.land (o_flags obj) GOT_OBJ_FLAG_PACKED =? 0).
  { apply mret_Done in H as [_ <-]. split; [reflexivity | left; reflexivity]. }
  step H as packfile s1 H1. destruct packfile as [packfile|].
  2:{ unfold fopen in H1. destruct (st_fs s !! o_path_packfile obj); [|].
      - step H1 as h s0 H0. apply mret_Done in H1 as [[=] _].
      - injection H1 as <-. apply mret_Done in H as [_ <-].
        split; [reflexivity | left; reflexivity]. }
  apply fopen_Done in H1 as (data & _ & -> & Hnx1 & _ & _ & Ho1).
  step H as r2 s2 H2. step H as u s3 H3. apply mret_Done in H as [_ <-].
  destruct u. apply fclose_Done in H3 as (Ho3 & Hnx3 & _).
  assert (Hframe : frame_on (eq (st_next s)) s1 s2).
  { revert H2. apply only_streams_Done.
    destruct (Z.land (o_flags obj) GOT_OBJ_FLAG_DELTIFIED =? 0).
    - apply only_streams_bind; [apply only_streams_fseeko_h; reflexivity|].
      intros ok. destruct (negb ok); [apply only_streams_ret|].
      apply only_streams_bind;
        [apply only_streams_attempt, only_streams_got_inflate_to_mem; reflexivity|].
      intros [out|e]; apply only_streams_ret.
    - apply only_streams_dump_delta_chain_to_mem. reflexivity. }
  destruct Hframe as [Hnx2 Ho2]. split.
  - intros h Hh. rewrite Ho3, lookup_delete_ne by congruence.
    rewrite Ho2, Ho1 by congruence. apply lookup_insert_ne. congruence.
  - right. split; [congruence|]. rewrite Ho3. apply lookup_delete_eq.
Qed.

Lemma extract_object_to_mem_streams_witness :
  exists r s',
    got_packfile_extract_object_to_mem stored_inflate None 0 object_delta_3
      (state_with_pack pack_chain 12) = Done r s'
    /\ (forall h, h <> st_next (state_with_pack pack_chain 12) ->
          st_open s' !! h = st_open (state_with_pack pack_chain 12) !! h)
    /\ (s' = state_with_pack pack_chain 12
        \/ st_next s' = S (st_next (state_with_pack pack_chain 12))
           /\ st_open s' !! st_next (state_with_pack pack_chain 12) = None).
Proof.
  assert (H : exists r s',
             got_packfile_extract_object_to_mem stored_inflate None 0 object_delta_3
               (state_with_pack pack_chain 12) = Done r s')
    by (vm_compute; do 2 eexists; reflexivity).
  destruct H as (r & s' & H). exists r, s'. split; [exact H|].
  exact (extract_object_to_mem_streams stored_inflate None 0 object_delta_3
           (state_with_pack pack_chain 12) s' r H).
Defined.

(** ** Opening a packed object *)

(** The chain [resolve_delta_chain] returns: the entries it was given,
    below a plain base followed by deltas, all counted; a delta adds at
    least itself. *)
Lemma resolve_delta_chain_shape (fuel : nat) :
  forall (deltas deltas' : got_delta_chain) (packfile : nat) (path_packfile : string)
         (delta_offset tslen delta_type delta_size : Z) (s s' : state),
    resolve_delta_chain fuel deltas packfile path_packfile delta_offset tslen delta_type
      delta_size s = Done deltas' s' ->
    exists base ds,
      entries deltas' = base :: ds ++ entries deltas
      /\ is_plain_type (d_type base) = true
      /\ nentries deltas' = nentries deltas + 1 + Z.of_nat (length ds)
      /\ (is_plain_type delta_type = false -> ds <> []).
Proof.
  induction fuel as [|fuel IH];
    intros deltas deltas' packfile path_packfile delta_offset tslen delta_type delta_size
           s s' H; [discriminate H|].
  cbn [resolve_delta_chain] in H.
  destruct (is_plain_type delta_type) eqn:Eplain.
  { apply add_delta_Done in H. subst deltas'.
    exists (mkDelta path_packfile delta_offset tslen delta_type delta_size 0), [].
    cbn [entries nentries app length d_type].
    split; [reflexivity|]. split; [exact Eplain|]. split; [lia | discriminate]. }
  assert (Hstep : exists d base_packfile path_base_packfile base_offset base_tslen
                         base_type base_size s1 s2,
             resolve_delta_chain fuel (mkChain (nentries deltas + 1) (d :: entries deltas))
               base_packfile path_base_packfile base_offset base_tslen base_type
               base_size s1 = Done deltas' s2).
  { destruct (delta_type =? GOT_OBJ_TYPE_OFFSET_DELTA).
    - apply resolve_offset_delta_Done in H
        as (data_offset & base_offset & base_tslen & base_type & base_size & s1 & _ & H).
      eexists _, _, _, _, _, _, _, _, _. exact H.
    - destruct (delta_type =? GOT_OBJ_TYPE_REF_DELTA); [|discriminate H].
      apply resolve_ref_delta_Done in H
        as (data_offset & base_packfile & path_base_packfile & base_offset & base_tslen
            & base_type & base_size & s1 & s2 & H).
      eexists _, _, _, _, _, _, _, _, _. exact H. }
  destruct Hstep as (d & base_packfile & path_base_packfile & base_offset & base_tslen
                     & base_type & base_size & s1 & s2 & Hrec).
  apply IH in Hrec as (base & ds & Hentries & Hbase & Hn & _).
  cbn [entries nentries] in Hentries, Hn.
  exists base, (ds ++ [d]).
  split; [rewrite Hentries, <- app_assoc; reflexivity|].
  split; [exact Hbase|].
  split; [rewrite length_app; cbn [length]; lia|].
  intros _ E. destruct ds; discriminate E.
Qed.

Lemma open_plain_object_Done (path_packfile : string) (id : got_object_id)
    (type offset size : Z) (s s' : state) (obj : got_object) :
  open_plain_object path_packfile id type offset size s = Done obj s' ->
  obj = mkObject type GOT_OBJ_FLAG_PACKED 0 size id path_packfile offset (mkChain 0 []).
Proof.
  unfold open_plain_object. intros H.
  step H as a1 s1 H1. destruct a1; cbn [negb] in H; [|discriminate H].
  step H as a2 s2 H2. destruct a2; cbn [negb] in H; [|discriminate H].
  apply mret_Done in H as [<- _]. reflexivity.
Qed.

Lemma open_delta_object_Done (fuel : nat) (path_packfile : string) (packfile : nat)
    (id : got_object_id) (offset tslen delta_type delta_size : Z) (s s' : state)
    (obj : got_object) :
  is_plain_type delta_type = false ->
  open_delta_object fuel path_packfile packfile id offset tslen delta_type delta_size s
  = Done obj s' ->
  exists base ds,
    ds <> [] /\ is_plain_type (d_type base) = true
    /\ obj = mkObject (d_type base) (Z.lor GOT_OBJ_FLAG_PACKED GOT_OBJ_FLAG_DELTIFIED) 0 0
               id path_packfile (to_int64 (offset + tslen))
               (mkChain (Z.of_nat (length (base :: ds))) (base :: ds)).
Proof.
  unfold open_delta_object. intros Hdelta H.
  step H as a1 s1 H1. destruct a1; cbn [negb] in H; [|discriminate H].
  step H as a2 s2 H2. destruct a2; cbn [negb] in H; [|discriminate H].
  step H as deltas s3 H3. step H as resolved_type s4 H4.
  apply mret_Done in H as [<- _].
  apply resolve_delta_chain_shape in H3 as (base & ds & Hentries & Hbase & Hn & Hds).
  cbn [entries nentries] in Hentries, Hn. rewrite app_nil_r in Hentries.
  apply of_result_Done in H4 as [Htype _].
  unfold got_delta_chain_get_base_type in Htype. rewrite Hentries, Hbase in Htype.
  injection Htype as <-.
  exists base, ds. split; [auto|]. split; [exact Hbase|].
  destruct deltas as [n es]. cbn [entries nentries] in *. subst es.
  f_equal. f_equal. cbn [length]. lia.
Qed.

(** X11: an object that [got_packfile_open_object] returns carries the id
    that was asked for, the Packed flag and a plain type, commit, tree,
    blob or tag. If it is not flagged Deltified its chain is empty; if it
    is, its size is 0, its chain counts its entries, and the chain is a
    base of the object's type followed by at least one delta. *)
Theorem got_packfile_open_object_shape (fuel : nat) (id : got_object_id)
    (s s' : state) (obj : got_object) :
  got_packfile_open_object fuel id s = Done obj s' ->
  o_id obj = id /\ o_hdrlen obj = 0
  /\ Z.land (o_flags obj) GOT_OBJ_FLAG_PACKED <> 0
  /\ is_plain_type (o_type obj) = true
  /\ if Z.land (o_flags obj) GOT_OBJ_FLAG_DELTIFIED =? 0
     then o_deltas obj = mkChain 0 []
     else o_size obj = 0
          /\ nentries (o_deltas obj) = Z.of_nat (length (entries (o_deltas obj)))
          /\ exists base ds,
               entries (o_deltas obj) = base :: ds /\ ds <> []
               /\ d_type base = o_type obj.
Proof.
  unfold got_packfile_open_object. intros H.
  step H as found s1 H1. destruct found as [packidx idx].
  unfold open_packed_object in H.
  destruct (get_object_offset packidx idx) as [offset|]; [|discriminate H].
  destruct (offset =? -1); [discriminate H|].
  step H as opened s2 H2. destruct opened as [[packfile path_packfile] pack_cached].
  step H as r s3 H3. step H as u s4 H4. apply of_result_Done in H as [-> _].
  apply attempt_Done in H3.
  step H3 as ok s5 H5. destruct ok; cbn [negb] in H3; [|discriminate H3].
  step H3 as hdr s6 H6. destruct hdr as [[type size] tslen].
  destruct (is_plain_type type) eqn:Eplain.
  - apply open_plain_object_Done in H3. subst obj.
    cbn [o_id o_hdrlen o_flags o_type o_deltas].
    repeat (split; [reflexivity || exact Eplain || discriminate|]). reflexivity.
  - destruct ((type =? GOT_OBJ_TYPE_OFFSET_DELTA) || (type =? GOT_OBJ_TYPE_REF_DELTA));
      [|discriminate H3].
    apply open_delta_object_Done in H3 as (base & ds & Hds & Hbase & ->);
      [|exact Eplain].
    cbn [o_id o_hdrlen o_flags o_type o_deltas o_size entries nentries].
    split; [reflexivity|]. split; [reflexivity|]. split; [discriminate|].
    split; [exact Hbase|].
    change (Z.land (Z.lor GOT_OBJ_FLAG_PACKED GOT_OBJ_FLAG_DELTIFIED)
              GOT_OBJ_FLAG_DELTIFIED =? 0) with false. cbv iota.
    split; [reflexivity|]. split; [reflexivity|]. exists base, ds. auto.
Qed.

Lemma got_packfile_open_object_shape_witness :
  exists s',
    got_packfile_open_object 10 id_3 state_chain_cached = Done object_delta_3 s'
    /\ o_id object_delta_3 = id_3
    /\ nentries (o_deltas object_delta_3)
       = Z.of_nat (length (entries (o_deltas object_delta_3))).
Proof.
  assert (H : exists s',
             got_packfile_open_object 10 id_3 state_chain_cached = Done object_delta_3 s')
    by (vm_compute; eexists; reflexivity).
  destruct H as [s' H]. exists s'. split; [exact H|].
  destruct (got_packfile_open_object_shape 10 id_3 state_chain_cached s' object_delta_3 H)
    as (Hid & _ & _ & _ & Hchain).
  split; [exact Hid|]. exact (proj1 (proj2 Hchain)).
Defined.

Lemma search_pack_cache_copy (cache : list got_pack_cache_entry) (id : got_object_id) :
  forall (s s' : state) (packidx : got_packidx_v2_hdr) (idx : Z),
    search_pack_cache cache id s = Done (Some (packidx, idx)) s' ->
    large_offsets packidx = None.
Proof.
  induction cache as [|e cache IH]; intros s s' packidx idx H;
    cbn [search_pack_cache] in H.
  { apply mret_Done in H as [[=] _]. }
  destruct (pc_packidx e) as [cached|]; [|apply mret_Done in H as [[=] _]].
  destruct (get_object_idx cached id) as [i|]; [|discriminate H].
  destruct (negb (i =? -1)); [|eapply IH; exact H].
  step H as dup s1 H1. destruct dup as [p|]; [|discriminate H].
  apply mret_Done in H as [[= <- <-] _].
  apply dup_packidx_Done in H1. subst p. reflexivity.
Qed.

(** X12: an object whose offset entry refers to the large-offset table
    cannot be opened through the pack cache. When the search of the pack
    cache finds its id, the index handed on is a copy without large
    offsets, and [got_packfile_open_object] fails with
    [GOT_ERR_BAD_PACKIDX] before any pack file is looked at. *)
Theorem got_packfile_open_object_large_cached (fuel : nat) (id : got_object_id)
    (s s' : state) (packidx : got_packidx_v2_hdr) (idx offset : Z) :
  search_pack_cache (pack_cache (st_repo s)) id s = Done (Some (packidx, idx)) s' ->
  array_get (offsets packidx) idx = Some offset ->
  Z.land offset GOT_PACKIDX_OFFSET_VAL_IS_LARGE_IDX <> 0 ->
  got_packfile_open_object fuel id s = Fail GOT_ERR_BAD_PACKIDX s'.
Proof.
  intros Hhit Hget Hlarge. unfold got_packfile_open_object, search_packidx.
  rewrite (bind_run _ _ s s' (packidx, idx)).
  2:{ rewrite (bind_run _ _ s s (st_repo s)) by reflexivity.
      rewrite (bind_run _ _ s s' (Some (packidx, idx))) by exact Hhit. reflexivity. }
  cbv beta iota. unfold open_packed_object, get_object_offset.
  rewrite Hget. apply search_pack_cache_copy in Hhit.
  destruct (Z.eqb_spec (Z.land offset GOT_PACKIDX_OFFSET_VAL_IS_LARGE_IDX) 0);
    [contradiction|].
  cbn [negb]. rewrite Hhit. reflexivity.
Qed.

Lemma got_packfile_open_object_large_cached_witness :
  get_object_offset packidx_large 0 = Some 0x200000000
  /\ got_packfile_open_object 10 id_3 state_large_cached
     = Fail GOT_ERR_BAD_PACKIDX state_large_cached.
Proof.
  split; [reflexivity|].
  apply (got_packfile_open_object_large_cached 10 id_3 state_large_cached
           state_large_cached
           (mkPackidx (magic packidx_large) (version packidx_large)
              (fanout_table packidx_large) (sorted_ids packidx_large)
              (crc32 packidx_large) (offsets packidx_large) None (trailer packidx_large))
           0 0x80000000).
  - vm_compute. reflexivity.
  - reflexivity.
  - vm_compute. discriminate.
Defined.

(** ** The checksum of the index loader *)

Lemma be_word_nonneg (bs : list Z) :
  Forall (fun b => 0 <= b) bs -> 0 <= SHA1.be_word bs.
Proof.
  unfold SHA1.be_word. intros H.
  assert (Hacc : forall acc, 0 <= acc ->
            0 <= fold_left (fun acc b => acc * 256 + b) bs acc).
  { induction H as [|b bs Hb _ IH]; intros acc Hacc; cbn; [exact Hacc|].
    apply IH. lia. }
  apply Hacc. lia.
Qed.

Lemma items_Forall (P : Z -> Prop) (n size : nat) :
  forall raw, Forall P raw -> Forall (Forall P) (items n size raw).
Proof.
  induction n as [|n IH]; intros raw H; cbn [items]; constructor.
  - apply Forall_take. exact H.
  - apply IH, Forall_drop. exact H.
Qed.

(** A complete [fread_all] of [nmemb] items returns the next
    [size * nmemb] bytes of the file and moves the stream past them. *)
Lemma fread_all_Done (f : nat) (size nmemb : Z) (s s' : state) (raw data : list Z)
    (pos : Z) :
  st_open s !! f = Some (mkFILE data pos) -> 0 <= pos -> 0 < size -> 0 <= nmemb ->
  fread_all f size nmemb s = Done raw s' ->
  st_open s' !! f = Some (mkFILE data (pos + size * nmemb))
  /\ take (Z.to_nat (pos + size * nmemb)) data = take (Z.to_nat pos) data ++ raw
  /\ length raw = Z.to_nat (size * nmemb).
Proof.
  intros Hf Hpos Hsize Hnmemb H. unfold fread_all in H.
  step H as rn s1 H1. destruct rn as [raw0 n].
  apply on_file_Done in H1 as (fl & Hfl & Hrn & ->).
  rewrite Hf in Hfl. injection Hfl as <-.
  destruct (Z.eqb_spec n nmemb) as [E|E]; cbn [negb] in H; [|discriminate H].
  apply mret_Done in H as [<- <-].
  unfold fread in Hrn |- *. cbn [f_data f_pos fst snd] in Hrn |- *.
  set (avail := drop (Z.to_nat pos) data) in *.
  destruct (Z.eqb_spec size 0) as [|_]; [lia|].
  injection Hrn as -> Hn. rewrite E in Hn. rewrite <- Hn.
  assert (Hhave : size * nmemb <= Z.of_nat (length avail)).
  { pose proof (Z.mul_div_le (Z.of_nat (length avail)) size Hsize). nia. }
  rewrite Z.min_l by exact Hhave.
  split; [cbn; apply lookup_insert_eq|].
  replace (nmemb * size) with (size * nmemb) by lia.
  split.
  - rewrite Z2Nat.inj_add by nia. symmetry. apply take_take_drop.
  - rewrite length_take. lia.
Qed.

Lemma calloc_or_fail_Done (s s' : state) (u : unit) :
  calloc_or_fail s = Done u s' -> st_open s' = st_open s.
Proof.
  intros H. apply (only_streams_Done (fun _ => False)) in H as [_ Ho];
    [|apply only_streams_calloc_or_fail].
  apply map_eq. intros h. apply Ho. auto.
Qed.

Lemma got_packidx_open_body_checksum (f : nat) (packfile_size : Z)
    (p : got_packidx_v2_hdr) (s s' : state) (data : list Z) :
  st_open s !! f = Some (mkFILE data 0) ->
  Forall (fun b => 0 <= b) data ->
  got_packidx_open_body f packfile_size s = Done p s' ->
  exists body rest,
    data = body ++ packidx_sha1 (trailer p) ++ rest
    /\ packidx_sha1 (trailer p) = SHA1 body
    /\ length (packidx_sha1 (trailer p)) = 20%nat
    /\ packfile_sha1 (trailer p) = drop (length body - 20) body.
Proof.
  intros Hst0 Hbytes H. unfold got_packidx_open_body in H.
  assert (Htake0 : take (Z.to_nat 0) data = []) by reflexivity.
  step H as raw_magic s1 H1.
  eapply fread_all_Done in H1 as (Hst1 & Htake1 & Hlen1);
    [|first [exact Hst0 | lia]..]. rewrite Htake0 in Htake1.
  cond H as Emagic.
  step H as raw_version s2 H2.
  eapply fread_all_Done in H2 as (Hst2 & Htake2 & Hlen2);
    [|first [exact Hst1 | lia]..]. rewrite Htake1 in Htake2.
  cond H as Eversion.
  step H as raw_fanout s3 H3.
  eapply fread_all_Done in H3 as (Hst3 & Htake3 & Hlen3);
    [|first [exact Hst2 | lia]..]. rewrite Htake2 in Htake3.
  step H as u4 s4 H4. apply of_result_Done in H4 as [_ ->].
  set (nobj := (betoh <$> items 256 4 raw_fanout) !!! 0xff%nat) in *.
  assert (Hnobj : 0 <= nobj).
  { assert (Hraw : Forall (fun b => 0 <= b) raw_fanout).
    { apply (Forall_take _ (Z.to_nat (0 + 4 * 1 + 4 * 1 + 4 * 256 * 1))) in Hbytes.
      rewrite Htake3 in Hbytes. apply Forall_app in Hbytes as [_ Hraw]. exact Hraw. }
    apply (Forall_lookup_total_1 (fun x => 0 <= x)).
    - apply Forall_fmap. eapply Forall_impl; [apply items_Forall; exact Hraw|].
      intros it Hit. apply be_word_nonneg. exact Hit.
    - rewrite length_fmap, items_length. lia. }
  step H as u5 s5 H5. apply calloc_or_fail_Done in H5. rewrite <- H5 in Hst3.
  step H as raw_ids s6 H6.
  eapply fread_all_Done in H6 as (Hst6 & Htake6 & Hlen6);
    [|first [exact Hst3 | lia]..]. rewrite Htake3 in Htake6.
  step H as u7 s7 H7. apply calloc_or_fail_Done in H7. rewrite <- H7 in Hst6.
  step H as raw_crc32 s8 H8.
  eapply fread_all_Done in H8 as (Hst8 & Htake8 & Hlen8);
    [|first [exact Hst6 | lia]..]. rewrite Htake6 in Htake8.
  step H as u9 s9 H9. apply calloc_or_fail_Done in H9. rewrite <- H9 in Hst8.
  step H as raw_offsets s10 H10.
  eapply fread_all_Done in H10 as (Hst10 & Htake10 & Hlen10);
    [|first [exact Hst8 | lia]..]. rewrite Htake8 in Htake10.
  step H as raw_large s11 H11.
  assert (Hlarge : exists pos,
             0 <= pos /\ st_open s11 !! f = Some (mkFILE data pos)
             /\ take (Z.to_nat pos) data
                = [] ++ raw_magic ++ raw_version ++ raw_fanout ++ raw_ids ++ raw_crc32
                  ++ raw_offsets ++ default [] raw_large).
  { destruct (packfile_size <=? 0x80000000).
    - apply mret_Done in H11 as [<- <-]. eexists. split; [|split; [exact Hst10|]];
        [lia|]. rewrite Htake10. cbn [default]. rewrite app_nil_r, <- !app_assoc.
      reflexivity.
    - step H11 as u12 s12 H12. apply calloc_or_fail_Done in H12.
      rewrite <- H12 in Hst10.
      step H11 as raw s13 H13. apply mret_Done in H11 as [<- <-].
      eapply fread_all_Done in H13 as (Hst13 & Htake13 & Hlen13);
    [|first [exact Hst10 | lia]..]. rewrite Htake10 in Htake13.
      eexists. split; [|split; [exact Hst13|]]; [lia|]. rewrite Htake13.
      cbn [default]. rewrite <- !app_assoc. reflexivity. }
  destruct Hlarge as (pos & Hpos & Hst11 & Htake11). cbn [app] in Htake11.
  step H as raw_trailer s12 H12.
  eapply fread_all_Done in H12 as (Hst12 & Htake12 & Hlen12);
    [|first [exact Hst11 | lia]..]. rewrite Htake11 in Htake12.
  cond H as Esha1. apply bool_decide_eq_true in Esha1.
  apply mret_Done in H as [<- _]. cbn [trailer packidx_sha1 packfile_sha1] in *.
  set (pre := raw_magic ++ raw_version ++ raw_fanout ++ raw_ids ++ raw_crc32
              ++ raw_offsets ++ default [] raw_large) in *.
  exists (pre ++ take 20 raw_trailer), (drop (Z.to_nat (pos + 40 * 1)) data).
  assert (Hlen20 : length (take 20 raw_trailer) = 20%nat)
    by (rewrite length_take; lia).
  split; [|split; [|split]].
  - rewrite <- (take_drop (Z.to_nat (pos + 40 * 1)) data) at 1. rewrite Htake12.
    rewrite <- (take_drop 20 raw_trailer) at 1. rewrite <- !app_assoc. reflexivity.
  - rewrite Esha1. unfold pre. rewrite <- !app_assoc. reflexivity.
  - rewrite length_drop. lia.
  - rewrite length_app, Hlen20.
    replace (length pre + 20 - 20)%nat with (length pre) by lia.
    rewrite drop_app_length. reflexivity.
Qed.

(** X13: an index file that [got_packidx_open] accepts carries a valid
    checksum. The bytes of the file are a body, then the 20 bytes the
    loader returns as the index digest of the trailer, then possibly more;
    the digest is the SHA-1 of the body, and the last 20 bytes of the body
    are what the loader returns as the pack file digest. *)
Theorem got_packidx_open_checksum (path : string) (p : got_packidx_v2_hdr)
    (s s' : state) (data : list Z) :
  st_fs s !! path = Some data ->
  Forall (fun b => 0 <= b) data ->
  got_packidx_open path s = Done p s' ->
  exists body rest,
    data = body ++ packidx_sha1 (trailer p) ++ rest
    /\ packidx_sha1 (trailer p) = SHA1 body
    /\ length (packidx_sha1 (trailer p)) = 20%nat
    /\ packfile_sha1 (trailer p) = drop (length body - 20) body.
Proof.
  intros Hfs Hbytes H. unfold got_packidx_open in H.
  step H as f s1 H1. destruct f as [f|]; [|discriminate H].
  apply fopen_Done in H1 as (data' & Hdata' & -> & _ & _ & _ & Ho1).
  assert (data' = data) by congruence. subst data'.
  step H as packfile_size s2 H2.
  apply (only_streams_Done (fun _ => False)) in H2 as [_ Ho2];
    [|apply only_streams_get_packfile_size].
  step H as ok s3 H3.
  apply (only_streams_Done (fun _ => False)) in H3 as [_ Ho3];
    [|apply only_streams_alloc].
  destruct ok; cbn [negb] in H; [|step H as u s4 H4; discriminate H].
  step H as r s4 H4. step H as u s5 H5. apply of_result_Done in H as [-> _].
  apply attempt_Done in H4.
  eapply got_packidx_open_body_checksum; [|exact Hbytes|exact H4].
  rewrite Ho3, Ho2, Ho1 by auto. apply lookup_insert_eq.
Qed.

Lemma got_packidx_open_checksum_witness :
  exists body rest,
    idx_unsorted = body ++ packidx_sha1 (trailer packidx_unsorted) ++ rest
    /\ packidx_sha1 (trailer packidx_unsorted) = SHA1 body
    /\ length (packidx_sha1 (trailer packidx_unsorted)) = 20%nat
    /\ packfile_sha1 (trailer packidx_unsorted) = drop (length body - 20) body.
Proof.
  apply (got_packidx_open_checksum "p.idx" packidx_unsorted state_unsorted
           state_unsorted_loaded idx_unsorted).
  - reflexivity.
  - apply (bool_decide_unpack _). vm_compute. exact I.
  - exact got_packidx_open_unsorted.
Defined.

(** ** Lookup in a well-formed index *)

(** X14: on a well-formed index [get_object_idx], asked for an id whose
    first byte is a byte, never reads outside the id table and is a correct
    membership test: it answers -1 exactly when the id is not in the table,
    and otherwise an index at which the table holds the id. *)
Theorem get_object_idx_complete (packidx : got_packidx_v2_hdr) (id : got_object_id) :
  packidx_well_formed packidx -> 0 <= id !!! 0%nat < 256 ->
  exists r,
    get_object_idx packidx id = Some r
    /\ ((r = -1 /\ id ∉ sorted_ids packidx)
        \/ (0 <= r /\ sorted_ids packidx !! Z.to_nat r = Some id)).
Proof.
  intros (Htot & Hlen256 & Hlen & Hfan & Hcount) Hid0. cbv zeta in *.
  set (totobj := fanout_table packidx !!! 0xff%nat) in *.
  assert (Hbound : forall k, (k < 256)%nat -> 0 <= fanout_table packidx !!! k <= totobj).
  { intros k Hk. apply (Forall_lookup_total_1 (fun x => 0 <= x <= totobj)); [exact Hfan|].
    lia. }
  unfold get_object_idx. fold totobj.
  set (i := if id !!! 0%nat >? 0
            then to_int32 (fanout_table packidx !!! Z.to_nat (id !!! 0%nat - 1))
            else 0).
  assert (Hi : 0 <= i <= totobj
               /\ forall j, sorted_ids packidx !! j = Some id -> i <= Z.of_nat j).
  { subst i. destruct (Z.gtb_spec (id !!! 0%nat) 0) as [Hpos|_].
    - pose proof (Hbound (Z.to_nat (id !!! 0%nat - 1)) ltac:(lia)) as Hb.
      rewrite to_int32_small by lia. split; [exact Hb|].
      intros j Hj. apply (Hcount j _ id Hj); lia.
    - pose proof (Hbound 255%nat ltac:(lia)) as Hb. fold totobj in Hb.
      split; [lia|]. intros j _. lia. }
  destruct Hi as [Hi Hstart]. clearbody i totobj.
  assert (Hfuel : (Z.to_nat (totobj - i) <= Z.to_nat totobj)%nat) by lia.
  destruct (get_object_idx_loop_scan (Z.to_nat totobj) i totobj (sorted_ids packidx) id
              Hi Htot Hlen Hfuel) as (r & Hr & Hscan).
  exists r. split; [exact Hr|].
  destruct Hscan as [[-> Hnone]|(Hrange & Hfound & _)]; [left | right].
  - split; [reflexivity|]. intros Hin. apply list_elem_of_lookup_1 in Hin as [j Hj].
    apply (Hnone (Z.of_nat j)).
    + split; [apply Hstart; exact Hj|]. apply lookup_lt_Some in Hj. lia.
    + rewrite Nat2Z.id. exact Hj.
  - split; [lia | exact Hfound].
Qed.

Lemma get_object_idx_complete_witness :
  exists r,
    get_object_idx packidx_chain id_4 = Some r
    /\ ((r = -1 /\ id_4 ∉ sorted_ids packidx_chain)
        \/ (0 <= r /\ sorted_ids packidx_chain !! Z.to_nat r = Some id_4)).
Proof.
  apply (get_object_idx_complete packidx_chain id_4).
  - split; [vm_compute; reflexivity|]. split; [reflexivity|]. split; [reflexivity|].
    split; [apply (bool_decide_unpack _); vm_compute; exact I|].
    intros j k oid Hj Hk _.
    destruct j as [|[|[|[|j]]]]; try discriminate Hj; injection Hj as <-.
    + change (id_1 !!! 0%nat) with 1 in Hk.
      do 1 (destruct k as [|k]; [vm_compute; discriminate|]). lia.
    + change (id_3 !!! 0%nat) with 3 in Hk.
      do 3 (destruct k as [|k]; [vm_compute; discriminate|]). lia.
    + change (id_4 !!! 0%nat) with 4 in Hk.
      do 4 (destruct k as [|k]; [vm_compute; discriminate|]). lia.
    + change (id_5 !!! 0%nat) with 5 in Hk.
      do 5 (destruct k as [|k]; [vm_compute; discriminate|]). lia.
  - vm_compute. split; [discriminate | reflexivity].
Defined.

(** ** What the extraction of an object stored whole returns *)

(** X15: when [got_packfile_extract_object_to_mem] returns a buffer
    without an error for an object that is not flagged Deltified, the pack
    file of the object exists and the buffer is what the zlib decoder
    yields from the bytes of that file starting at the object's
    [pack_offset]; the length returned is the length of the buffer. *)
Theorem extract_plain_object_to_mem (inflate : list Z -> result (list Z * Z))
    (buf out : option (list Z)) (len n : Z) (obj : got_object) (s s' : state) :
  Z.land (o_flags obj) GOT_OBJ_FLAG_DELTIFIED = 0 ->
  got_packfile_extract_object_to_mem inflate buf len obj s = Done (None, out, n) s' ->
  exists data bytes used,
    st_fs s !! o_path_packfile obj = Some data
    /\ 0 <= o_pack_offset obj
    /\ inflate (drop (Z.to_nat (o_pack_offset obj)) data) = Ok (bytes, used)
    /\ out = Some bytes /\ n = Z.of_nat (length bytes).
Proof.
  intros Hplain H. unfold got_packfile_extract_object_to_mem in H.
  destruct (Z.land (o_flags obj) GOT_OBJ_FLAG_PACKED =? 0);
    [apply mret_Done in H as [[=] _]|].
  step H as packfile s1 H1.
  destruct packfile as [packfile|]; [|apply mret_Done in H as [[=] _]].
  apply fopen_Done in H1 as (data & Hdata & -> & _ & _ & _ & Ho1).
  step H as r s2 H2. step H as u s3 H3. apply mret_Done in H as [-> _].
  rewrite Hplain in H2. cbn [Z.eqb] in H2.
  step H2 as ok s4 H4. apply on_file_Done in H4 as (fl & Hfl & Hok & ->).
  rewrite Ho1, lookup_insert_eq in Hfl. injection Hfl as <-.
  assert (Hseek : fseeko (o_pack_offset obj) (mkFILE data 0)
                  = if o_pack_offset obj <? 0 then None
                    else Some (mkFILE data (o_pack_offset obj))) by reflexivity.
  rewrite Hseek in Hok, H2. clear Hseek.
  destruct (Z.ltb_spec (o_pack_offset obj) 0) as [|Hoff]; cbn [fst snd] in *;
    subst ok; cbn [negb] in H2; [apply mret_Done in H2 as [[=] _]|].
  step H2 as r5 s5 H5. apply attempt_Done in H5.
  destruct r5 as [bytes|e]; apply mret_Done in H2 as [[= <- <-] _].
  apply got_inflate_to_mem_Done in H5 as (s6 & Ho6 & _ & H5).
  unfold on_file_err in H5. step H5 as r7 s7 H7.
  apply of_result_Done in H5 as [-> _].
  apply on_file_Done in H7 as (fl & Hfl & Hr & _).
  rewrite Ho6 in Hfl. cbn [set_stream st_open] in Hfl.
  rewrite lookup_insert_eq in Hfl. injection Hfl as <-.
  unfold inflate_stream in Hr. cbn [f_data f_pos] in Hr.
  destruct (inflate (drop (Z.to_nat (o_pack_offset obj)) data)) as [[bytes' used]|e] eqn:E;
    cbn [fst] in Hr; [|discriminate Hr].
  injection Hr as <-. exists data, bytes, used. auto.
Qed.

Lemma extract_plain_object_to_mem_witness :
  exists data used,
    st_fs (state_chain_on_disk []) !! o_path_packfile object_blob = Some data
    /\ 0 <= o_pack_offset object_blob
    /\ stored_inflate (drop (Z.to_nat (o_pack_offset object_blob)) data)
       = Ok (base_data, used)
    /\ Some base_data = Some base_data /\ 4 = Z.of_nat (length base_data).
Proof.
  assert (H : exists s',
             got_packfile_extract_object_to_mem stored_inflate None 0 object_blob
               (state_chain_on_disk []) = Done (None, Some base_data, 4) s')
    by (vm_compute; eexists; reflexivity).
  destruct H as [s' H].
  destruct (extract_plain_object_to_mem stored_inflate None (Some base_data) 0 4
              object_blob (state_chain_on_disk []) s' eq_refl H)
    as (data & bytes & used & Hdata & Hoff & Hinf & Hout & Hn).
  injection Hout as <-. exists data, used. auto.
Defined.

(** ** Object headers and offsets, read as numbers *)

Lemma lor_shiftl_add (s d shift : Z) :
  0 <= shift -> 0 <= s < 2 ^ shift ->
  Z.lor s (Z.shiftl d shift) = s + d * 2 ^ shift.
Proof.
  intros Hshift Hs.
  assert (Hland : Z.land s (Z.shiftl d shift) = 0).
  { apply Z.bits_inj'. intros m Hm. rewrite Z.land_spec, Z.bits_0.
    destruct (Z.lt_ge_cases m shift) as [Hlt|Hge].
    - rewrite Z.shiftl_spec_low by assumption. apply andb_false_r.
    - rewrite <- (Z.mod_small s (2 ^ shift)) by assumption.
      rewrite Z.mod_pow2_bits_high by lia. reflexivity. }
  rewrite <- Z.lxor_lor by assumption.
  rewrite <- Z.add_nocarry_lxor by assumption.
  rewrite Z.shiftl_mul_pow2 by assumption. reflexivity.
Qed.

Lemma byte_cases (P : Z -> bool) :
  forallb P (map Z.of_nat (seq 0 256)) = true ->
  forall b, 0 <= b < 256 -> P b = true.
Proof.
  intros H b Hb. rewrite forallb_forall in H. apply H.
  rewrite <- (Z2Nat.id b) by lia. apply in_map, in_seq. lia.
Qed.

Lemma byte_fields (b : Z) :
  0 <= b < 256 ->
  Z.land b GOT_PACK_OBJ_SIZE_VAL_MASK = b mod 128
  /\ Z.land b GOT_PACK_OBJ_SIZE0_VAL_MASK = b mod 16
  /\ Z.shiftr (Z.land b GOT_PACK_OBJ_SIZE0_TYPE_MASK) GOT_PACK_OBJ_SIZE0_TYPE_MASK_SHIFT
     = (b / 16) mod 8
  /\ (Z.land b GOT_PACK_OBJ_SIZE_MORE =? 0) = (b <? 128).
Proof.
  intros Hb.
  pose proof (byte_cases
    (fun b => (Z.land b GOT_PACK_OBJ_SIZE_VAL_MASK =? b mod 128)
              && (Z.land b GOT_PACK_OBJ_SIZE0_VAL_MASK =? b mod 16)
              && (Z.shiftr (Z.land b GOT_PACK_OBJ_SIZE0_TYPE_MASK)
                           GOT_PACK_OBJ_SIZE0_TYPE_MASK_SHIFT =? (b / 16) mod 8)
              && Bool.eqb (Z.land b GOT_PACK_OBJ_SIZE_MORE =? 0) (b <? 128))%bool
    ltac:(vm_compute; reflexivity) b Hb) as H.
  cbv beta in H.
  apply andb_prop in H as [H H4]. apply andb_prop in H as [H H3].
  apply andb_prop in H as [H1 H2].
  apply Z.eqb_eq in H1, H2, H3. apply Bool.eqb_prop in H4. auto.
Qed.

Lemma size_digits_app (front : list Z) (b : Z) (shift : Z) :
  size_digits (front ++ [b]) shift
  = size_digits front shift + b mod 128 * 2 ^ (shift + 7 * Z.of_nat (length front)).
Proof.
  revert shift. induction front as [|a front IH]; intros shift; cbn [size_digits app length].
  - rewrite Z.add_0_r. change (Z.of_nat 0) with 0. rewrite Z.mul_0_r, Z.add_0_r. lia.
  - rewrite IH. replace (shift + 7 + 7 * Z.of_nat (length front))
      with (shift + 7 * Z.of_nat (S (length front))) by lia. lia.
Qed.

Lemma parse_object_type_and_size_from_value (front : list Z) :
  forall (b_last : Z) (rest : list Z) (n : nat) (i t s : Z) (packfile : FILE),
    0 <= f_pos packfile ->
    drop (Z.to_nat (f_pos packfile)) (f_data packfile) = front ++ b_last :: rest ->
    Forall (fun b => 0 <= b < 256) (front ++ [b_last]) ->
    Forall continued front -> ~ continued b_last ->
    1 <= i -> i + Z.of_nat n = 10 -> i + Z.of_nat (length front) <= 8 ->
    0 <= s < 2 ^ (4 + 7 * (i - 1)) ->
    parse_object_type_and_size_from n i t s packfile
    = (Ok (t, s + size_digits (front ++ [b_last]) (4 + 7 * (i - 1)),
           i + Z.of_nat (length front) + 1),
       mkFILE (f_data packfile) (f_pos packfile + Z.of_nat (length front) + 1)).
Proof.
  induction front as [|a front IH];
    intros b_last rest n i t s packfile Hpos Hdrop Hbytes Hcont Hlast Hi Hn Hlen Hs.
  - cbn [app length size_digits] in *. change (Z.of_nat 0) with 0.
    destruct n as [|n]; [lia|]. cbn [parse_object_type_and_size_from].
    assert (Hg : (9 <? i) = false) by lia. rewrite Hg.
    rewrite fread_byte by assumption. rewrite Hdrop.
    assert (Hi0 : (i =? 0) = false) by lia. rewrite Hi0.
    apply Forall_cons in Hbytes as [Hb _].
    destruct (byte_fields b_last Hb) as (Hv & _ & _ & Hm).
    unfold continued in Hlast.
    assert (Hz : Z.land b_last GOT_PACK_OBJ_SIZE_MORE = 0)
      by (destruct (Z.eq_dec (Z.land b_last GOT_PACK_OBJ_SIZE_MORE) 0); tauto).
    rewrite Hz. cbn [Z.eqb]. rewrite Hv.
    rewrite lor_shiftl_add by lia.
    assert (Hp : 2 ^ (4 + 7 * (i - 1) + 7) <= 2 ^ 64)
      by (apply Z.pow_le_mono_r; lia).
    assert (Hd : 0 <= b_last mod 128 < 128) by (apply Z.mod_pos_bound; lia).
    assert (Hpow : 0 < 2 ^ (4 + 7 * (i - 1))) by (apply Z.pow_pos_nonneg; lia).
    rewrite Z.pow_add_r in Hp by lia. change (2 ^ 7) with 128 in Hp.
    unfold to_uint64. rewrite Z.mod_small by nia.
    repeat (try lia; f_equal).
  - cbn [app length] in *.
    destruct n as [|n]; [lia|]. cbn [parse_object_type_and_size_from].
    assert (Hg : (9 <? i) = false) by lia. rewrite Hg.
    rewrite fread_byte by assumption. rewrite Hdrop.
    assert (Hi0 : (i =? 0) = false) by lia. rewrite Hi0.
    apply Forall_cons in Hbytes as [Hb Hbytes].
    apply Forall_cons in Hcont as [Ha Hcont].
    destruct (byte_fields a Hb) as (Hv & _ & _ & Hm).
    unfold continued in Ha. apply Z.eqb_neq in Ha. rewrite Ha. rewrite Hv.
    rewrite lor_shiftl_add by lia.
    assert (Hp : 2 ^ (4 + 7 * (i - 1) + 7) <= 2 ^ 64)
      by (apply Z.pow_le_mono_r; lia).
    assert (Hd : 0 <= a mod 128 < 128) by (apply Z.mod_pos_bound; lia).
    assert (Hpow : 0 < 2 ^ (4 + 7 * (i - 1))) by (apply Z.pow_pos_nonneg; lia).
    assert (Hp' : 2 ^ (4 + 7 * (i - 1) + 7) = 2 ^ (4 + 7 * (i - 1)) * 128)
      by (rewrite Z.pow_add_r by lia; reflexivity).
    unfold to_uint64. rewrite Z.mod_small by nia.
    rewrite (IH b_last rest); cbn [f_pos f_data].
    + cbn [size_digits].
      replace (4 + 7 * (i + 1 - 1)) with (4 + 7 * (i - 1) + 7) by lia.
      repeat (try lia; f_equal).
    + lia.
    + eapply drop_succ_pos; eassumption.
    + assumption.
    + assumption.
    + assumption.
    + lia.
    + lia.
    + lia.
    + replace (4 + 7 * (i + 1 - 1)) with (4 + 7 * (i - 1) + 7) by lia. nia.
Qed.

(** X16: an object header of at most five bytes is read as git writes it.
    The first byte holds the type in bits 4 to 6 and the low four bits of
    the size; each further byte adds seven bits, least significant group
    first; the last byte is the first one without the continuation flag.
    The stream is left behind the header. Sizes below 2^31 are covered, the
    range in which the shift of the promoted byte is defined in C. *)
Theorem parse_object_type_and_size_value (packfile : FILE) (front : list Z)
    (b_last : Z) (rest : list Z) :
  0 <= f_pos packfile ->
  drop (Z.to_nat (f_pos packfile)) (f_data packfile) = front ++ b_last :: rest ->
  Forall (fun b => 0 <= b < 256) (front ++ [b_last]) ->
  Forall continued front -> ~ continued b_last ->
  (length front <= 4)%nat ->
  let hdr := front ++ [b_last] in
  let size := hd 0 hdr mod 16 + size_digits (tail hdr) 4 in
  size < 2 ^ 31 ->
  parse_object_type_and_size packfile
  = (Ok ((hd 0 hdr / 16) mod 8, size, Z.of_nat (length hdr)),
     mkFILE (f_data packfile) (f_pos packfile + Z.of_nat (length hdr))).
Proof.
  intros Hpos Hdrop Hbytes Hcont Hlast Hlen hdr size _. subst hdr size.
  rewrite length_app. cbn [length].
  unfold parse_object_type_and_size.
  destruct front as [|a front].
  - cbn [app hd tail size_digits length] in *.
    cbn [parse_object_type_and_size_from].
    change (9 <? 0) with false. cbv iota.
    rewrite fread_byte by assumption. rewrite Hdrop.
    change (0 =? 0) with true. cbv iota.
    apply Forall_cons in Hbytes as [Hb _].
    destruct (byte_fields b_last Hb) as (_ & Hv & Ht & _).
    unfold continued in Hlast.
    assert (Hz : Z.land b_last GOT_PACK_OBJ_SIZE_MORE = 0)
      by (destruct (Z.eq_dec (Z.land b_last GOT_PACK_OBJ_SIZE_MORE) 0); tauto).
    rewrite Hz. cbn [Z.eqb]. rewrite Hv, Ht.
    repeat (try lia; f_equal).
  - cbn [app hd tail length] in *.
    assert (Hn : 1 + Z.of_nat 9 = 10) by reflexivity. revert Hn.
    change 10%nat with (S 9). generalize 9%nat. intros n Hn.
    cbn [parse_object_type_and_size_from].
    change (9 <? 0) with false. cbv iota.
    rewrite fread_byte by assumption. rewrite Hdrop.
    change (0 =? 0) with true. cbv iota.
    apply Forall_cons in Hbytes as [Hb Hbytes].
    apply Forall_cons in Hcont as [Ha Hcont].
    destruct (byte_fields a Hb) as (_ & Hv & Ht & _).
    unfold continued in Ha. apply Z.eqb_neq in Ha. rewrite Ha. rewrite Hv, Ht.
    rewrite (parse_object_type_and_size_from_value front b_last rest);
      cbn [f_pos f_data].
    + change (4 + 7 * (0 + 1 - 1)) with 4. repeat (try lia; f_equal).
    + lia.
    + eapply drop_succ_pos; eassumption.
    + assumption.
    + assumption.
    + assumption.
    + lia.
    + exact Hn.
    + lia.
    + change (2 ^ (4 + 7 * (0 + 1 - 1))) with 16. apply Z.mod_pos_bound. lia.
Qed.

Lemma parse_object_type_and_size_value_witness :
  parse_object_type_and_size (mkFILE [7; 0xb5; 0x85; 0x01; 9] 1)
  = (Ok (3, 2133, 3), mkFILE [7; 0xb5; 0x85; 0x01; 9] 4).
Proof.
  apply (parse_object_type_and_size_value (mkFILE [7; 0xb5; 0x85; 0x01; 9] 1)
           [0xb5; 0x85] 0x01 [9]).
  - cbn. lia.
  - reflexivity.
  - repeat constructor; lia.
  - repeat constructor; vm_compute; discriminate.
  - vm_compute. intros H. apply H. reflexivity.
  - cbn. lia.
  - vm_compute. reflexivity.
Defined.

Lemma to_int64_small (x : Z) : - 2 ^ 63 <= x < 2 ^ 63 -> to_int64 x = x.
Proof. intros H. unfold to_int64. rewrite Z.mod_small; lia. Qed.

Lemma negoff_step_bound (o b : Z) (i : Z) :
  0 <= i -> 0 <= o -> o + 3 <= 2 ^ (7 * i + 1) ->
  0 <= negoff_step o b /\ negoff_step o b + 3 <= 2 ^ (7 * (i + 1) + 1).
Proof.
  intros Hi Ho Hb. unfold negoff_step.
  assert (Hd : 0 <= b mod 128 < 128) by (apply Z.mod_pos_bound; lia).
  replace (7 * (i + 1) + 1) with (7 * i + 1 + 7) by lia.
  rewrite Z.pow_add_r by lia. change (2 ^ 7) with 128. nia.
Qed.

Lemma parse_negative_offset_from_value (front : list Z) :
  forall (b_last : Z) (rest : list Z) (n : nat) (i o : Z) (packfile : FILE),
    0 <= f_pos packfile ->
    drop (Z.to_nat (f_pos packfile)) (f_data packfile) = front ++ b_last :: rest ->
    Forall (fun b => 0 <= b < 256) (front ++ [b_last]) ->
    Forall continued front -> ~ continued b_last ->
    1 <= i -> i + Z.of_nat n = 9 -> i + Z.of_nat (length front) <= 7 ->
    0 <= o -> o + 3 <= 2 ^ (7 * i + 1) ->
    parse_negative_offset_from n i o packfile
    = (Ok (fold_left negoff_step (front ++ [b_last]) o,
           i + Z.of_nat (length front) + 1),
       mkFILE (f_data packfile) (f_pos packfile + Z.of_nat (length front) + 1))
    /\ 0 <= fold_left negoff_step (front ++ [b_last]) o
    /\ fold_left negoff_step (front ++ [b_last]) o + 3
       <= 2 ^ (7 * (i + Z.of_nat (length front) + 1) + 1).
Proof.
  induction front as [|a front IH];
    intros b_last rest n i o packfile Hpos Hdrop Hbytes Hcont Hlast Hi Hn Hlen Ho Hb.
  - cbn [app length fold_left] in *. change (Z.of_nat 0) with 0.
    destruct n as [|n]; [lia|]. cbn [parse_negative_offset_from].
    assert (Hg : (8 <? i) = false) by lia. rewrite Hg.
    rewrite fread_byte by assumption. rewrite Hdrop.
    assert (Hi0 : (i =? 0) = false) by lia. rewrite Hi0.
    apply Forall_cons in Hbytes as [Hbyte _].
    destruct (byte_fields b_last Hbyte) as (Hv & _ & _ & Hm).
    change GOT_PACK_OBJ_DELTA_OFF_VAL_MASK with GOT_PACK_OBJ_SIZE_VAL_MASK.
    change GOT_PACK_OBJ_DELTA_OFF_MORE with GOT_PACK_OBJ_SIZE_MORE.
    unfold continued in Hlast.
    assert (Hz : Z.land b_last GOT_PACK_OBJ_SIZE_MORE = 0)
      by (destruct (Z.eq_dec (Z.land b_last GOT_PACK_OBJ_SIZE_MORE) 0); tauto).
    rewrite Hz. cbn [Z.eqb]. rewrite Hv.
    destruct (negoff_step_bound o b_last i ltac:(lia) Ho Hb) as [Hs0 Hs1].
    assert (Hp : 2 ^ (7 * (i + 1) + 1) <= 2 ^ 62) by (apply Z.pow_le_mono_r; lia).
    assert (Hp' : 2 ^ (7 * i + 1) <= 2 ^ 62) by (apply Z.pow_le_mono_r; lia).
    assert (Hd : 0 <= b_last mod 128 < 128) by (apply Z.mod_pos_bound; lia).
    unfold negoff_step in *.
    rewrite (to_int64_small (o + 1)) by lia.
    rewrite Z.shiftl_mul_pow2 by lia. change (2 ^ 7) with 128.
    rewrite (to_int64_small ((o + 1) * 128)) by lia.
    rewrite to_int64_small by lia.
    replace (i + 0 + 1) with (i + 1) by lia.
    split; [|lia]. repeat (try lia; f_equal).
  - cbn [app length fold_left] in *.
    destruct n as [|n]; [lia|]. cbn [parse_negative_offset_from].
    assert (Hg : (8 <? i) = false) by lia. rewrite Hg.
    rewrite fread_byte by assumption. rewrite Hdrop.
    assert (Hi0 : (i =? 0) = false) by lia. rewrite Hi0.
    apply Forall_cons in Hbytes as [Hbyte Hbytes].
    apply Forall_cons in Hcont as [Ha Hcont].
    destruct (byte_fields a Hbyte) as (Hv & _ & _ & Hm).
    change GOT_PACK_OBJ_DELTA_OFF_VAL_MASK with GOT_PACK_OBJ_SIZE_VAL_MASK.
    change GOT_PACK_OBJ_DELTA_OFF_MORE with GOT_PACK_OBJ_SIZE_MORE.
    unfold continued in Ha. apply Z.eqb_neq in Ha. rewrite Ha. rewrite Hv.
    destruct (negoff_step_bound o a i ltac:(lia) Ho Hb) as [Hs0 Hs1].
    assert (Hp : 2 ^ (7 * (i + 1) + 1) <= 2 ^ 62) by (apply Z.pow_le_mono_r; lia).
    assert (Hp' : 2 ^ (7 * i + 1) <= 2 ^ 62) by (apply Z.pow_le_mono_r; lia).
    assert (Hd : 0 <= a mod 128 < 128) by (apply Z.mod_pos_bound; lia).
    assert (E : to_int64 (to_int64 (Z.shiftl (to_int64 (o + 1)) 7) + a mod 128)
                = negoff_step o a).
    { unfold negoff_step in *.
      rewrite (to_int64_small (o + 1)) by lia.
      rewrite Z.shiftl_mul_pow2 by lia. change (2 ^ 7) with 128.
      rewrite (to_int64_small ((o + 1) * 128)) by lia.
      apply to_int64_small. lia. }
    rewrite E.
    destruct (IH b_last rest n (i + 1) (negoff_step o a)
                (mkFILE (f_data packfile) (f_pos packfile + 1))) as (Hr & Hnn & Hub);
      cbn [f_pos f_data]; try assumption; try lia.
    + eapply drop_succ_pos; eassumption.
    + cbn [f_pos f_data] in Hr. rewrite Hr.
      replace (i + Z.of_nat (S (length front)) + 1)
        with (i + 1 + Z.of_nat (length front) + 1) by lia.
      split; [|split; assumption]. repeat (try lia; f_equal).
Qed.

(** X17: an encoded negative offset of at most eight bytes is read as git
    writes it, and the base it names never lies after the delta:
    [parse_offset_delta] returns [offset] minus the encoded number when
    that is positive, a value in (0, offset], and [GOT_ERR_BAD_PACKFILE]
    otherwise. The stream is left behind the encoded offset. *)
Theorem parse_offset_delta_value (packfile : FILE) (front : list Z)
    (b_last : Z) (rest : list Z) (offset : Z) :
  0 <= f_pos packfile ->
  drop (Z.to_nat (f_pos packfile)) (f_data packfile) = front ++ b_last :: rest ->
  Forall (fun b => 0 <= b < 256) (front ++ [b_last]) ->
  Forall continued front -> ~ continued b_last ->
  (length front <= 7)%nat ->
  0 <= offset <= INT64_MAX ->
  let neg := negoff_value (front ++ [b_last]) in
  exists r,
    parse_offset_delta packfile offset
    = (r, mkFILE (f_data packfile)
                 (f_pos packfile + Z.of_nat (length (front ++ [b_last]))))
    /\ ((offset <= neg /\ r = Err GOT_ERR_BAD_PACKFILE)
        \/ (r = Ok (offset - neg) /\ 0 < offset - neg <= offset)).
Proof.
  intros Hpos Hdrop Hbytes Hcont Hlast Hlen Hoff neg.
  assert (Hrun : parse_negative_offset packfile
                 = (Ok (neg, Z.of_nat (length (front ++ [b_last]))),
                    mkFILE (f_data packfile)
                      (f_pos packfile + Z.of_nat (length (front ++ [b_last]))))
                 /\ 0 <= neg < 2 ^ 62).
  { subst neg. rewrite length_app. cbn [length].
    unfold parse_negative_offset, negoff_value.
    destruct front as [|a front].
    - cbn [app hd tail fold_left length] in *.
      cbn [parse_negative_offset_from].
      change (8 <? 0) with false. cbv iota.
      rewrite fread_byte by assumption. rewrite Hdrop.
      change (0 =? 0) with true. cbv iota.
      apply Forall_cons in Hbytes as [Hb _].
      destruct (byte_fields b_last Hb) as (Hv & _ & _ & _).
      change GOT_PACK_OBJ_DELTA_OFF_VAL_MASK with GOT_PACK_OBJ_SIZE_VAL_MASK.
      change GOT_PACK_OBJ_DELTA_OFF_MORE with GOT_PACK_OBJ_SIZE_MORE.
      unfold continued in Hlast.
      assert (Hz : Z.land b_last GOT_PACK_OBJ_SIZE_MORE = 0)
        by (destruct (Z.eq_dec (Z.land b_last GOT_PACK_OBJ_SIZE_MORE) 0); tauto).
      rewrite Hz. cbn [Z.eqb]. rewrite Hv.
      assert (Hd : 0 <= b_last mod 128 < 128) by (apply Z.mod_pos_bound; lia).
      split; [|lia]. repeat (try lia; f_equal).
    - cbn [app hd tail length] in *.
      assert (Hn : 1 + Z.of_nat 8 = 9) by reflexivity. revert Hn.
      change 9%nat with (S 8). generalize 8%nat. intros n Hn.
      cbn [parse_negative_offset_from].
      change (8 <? 0) with false. cbv iota.
      rewrite fread_byte by assumption. rewrite Hdrop.
      change (0 =? 0) with true. cbv iota.
      apply Forall_cons in Hbytes as [Hb Hbytes].
      apply Forall_cons in Hcont as [Ha Hcont].
      destruct (byte_fields a Hb) as (Hv & _ & _ & _).
      change GOT_PACK_OBJ_DELTA_OFF_VAL_MASK with GOT_PACK_OBJ_SIZE_VAL_MASK.
      change GOT_PACK_OBJ_DELTA_OFF_MORE with GOT_PACK_OBJ_SIZE_MORE.
      unfold continued in Ha. apply Z.eqb_neq in Ha. rewrite Ha. rewrite Hv.
      assert (Hd : 0 <= a mod 128 < 128) by (apply Z.mod_pos_bound; lia).
      destruct (parse_negative_offset_from_value front b_last rest n (0 + 1)
                  (a mod 128) (mkFILE (f_data packfile) (f_pos packfile + 1)))
        as (Hr & Hnn & Hub); cbn [f_pos f_data]; try assumption; try lia.
      + eapply drop_succ_pos; eassumption.
      + cbn [f_pos f_data] in Hr. rewrite Hr. split.
        * repeat (try lia; f_equal).
        * assert (Hp : 2 ^ (7 * (0 + 1 + Z.of_nat (length front) + 1) + 1) <= 2 ^ 62)
            by (apply Z.pow_le_mono_r; lia).
          lia. }
  destruct Hrun as [Hrun Hneg].
  unfold parse_offset_delta. rewrite Hrun.
  assert (Hb : to_int64 (offset - neg) = offset - neg).
  { apply to_int64_small. unfold INT64_MAX in Hoff. lia. }
  rewrite Hb.
  destruct (Z.leb_spec (offset - neg) 0) as [Hle|Hgt].
  - eexists. split; [reflexivity|]. left. split; [lia|reflexivity].
  - eexists. split; [reflexivity|]. right. split; [reflexivity|lia].
Qed.

Lemma parse_offset_delta_value_witness :
  exists r,
    parse_offset_delta (mkFILE [0x81; 0x05; 7] 0) 300
    = (r, mkFILE [0x81; 0x05; 7] 2)
    /\ ((300 <= 261 /\ r = Err GOT_ERR_BAD_PACKFILE)
        \/ (r = Ok 39 /\ 0 < 39 <= 300)).
Proof.
  apply (parse_offset_delta_value (mkFILE [0x81; 0x05; 7] 0) [0x81] 0x05 [7] 300).
  - cbn. lia.
  - reflexivity.
  - repeat constructor; lia.
  - repeat constructor; vm_compute; discriminate.
  - vm_compute. intros H. apply H. reflexivity.
  - cbn. lia.
  - vm_compute. split; discriminate.
Defined.

(** ** Opening a pack file *)

Lemma alloc_Done_full (s s' : state) (b : bool) :
  alloc s = Done b s' ->
  st_fs s' = st_fs s /\ st_open s' = st_open s /\ st_next s' = st_next s
  /\ st_repo s' = st_repo s.
Proof.
  unfold alloc. destruct (st_oracle s); intros [= <- <-]; repeat split.
Qed.

Lemma get_packfile_path_Done (packidx : got_packidx_v2_hdr) (s s' : state)
    (path : string) :
  get_packfile_path packidx s = Done path s' ->
  path = (path_git_dir (st_repo s) +:+ "/objects/pack") +:+ "/" +:+ GOT_PACK_PREFIX
           +:+ got_sha1_digest_to_str (packfile_sha1 (trailer packidx))
           +:+ GOT_PACKFILE_SUFFIX
  /\ st_fs s' = st_fs s /\ st_open s' = st_open s /\ st_next s' = st_next s
  /\ st_repo s' = st_repo s.
Proof.
  unfold get_packfile_path, got_repo_get_path_objects_pack. intros H.
  step H as dir s1 H1. step H1 as ok s2 H2.
  apply alloc_Done_full in H2 as (Hfs2 & Hop2 & Hnx2 & Hrp2).
  destruct ok; cbn [negb] in H1.
  - step H1 as repo s3 H3. injection H3 as <- <-.
    apply mret_Done in H1 as [<- <-].
    step H as ok s4 H4. apply alloc_Done_full in H4 as (Hfs4 & Hop4 & Hnx4 & Hrp4).
    destruct ok; cbn [negb] in H; [|discriminate H].
    apply mret_Done in H as [<- <-].
    rewrite Hfs4, Hop4, Hnx4, Hrp4, Hrp2. repeat split; assumption.
  - apply mret_Done in H1 as [<- <-]. discriminate H.
Qed.

Lemma find_cached_packfile_Some (cache : list got_pack_cache_entry)
    (packidx : got_packidx_v2_hdr) (f : nat) (path : string) :
  find_cached_packfile cache packidx = Some (f, path) ->
  exists e p, e ∈ cache /\ pc_packidx e = Some p /\ trailer p = trailer packidx
              /\ pc_packfile e = f /\ pc_path_packfile e = path.
Proof.
  induction cache as [|e cache IH]; cbn [find_cached_packfile]; [discriminate|].
  destruct (pc_packidx e) as [p|] eqn:Ep; [|discriminate].
  destruct (bool_decide _ && bool_decide _) eqn:Eb.
  - intros [= <- <-]. apply andb_prop in Eb as [E1 E2].
    apply bool_decide_eq_true in E1, E2.
    exists e, p. repeat split; [apply list_elem_of_here | assumption |].
    destruct (trailer p), (trailer packidx). cbn in E1, E2. congruence.
  - intros H. destruct (IH H) as (e' & p' & Hin & Hrest).
    exists e', p'. split; [apply list_elem_of_further; exact Hin | exact Hrest].
Qed.

Lemma read_packfile_hdr_Ok (packidx : got_packidx_v2_hdr) (data : list Z) (u : unit)
    (f' : FILE) :
  read_packfile_hdr packidx (mkFILE data 0) = (Ok u, f') ->
  f' = mkFILE data 12 /\ (12 <= length data)%nat
  /\ betoh (take 4 data) = GOT_PACKFILE_SIGNATURE
  /\ betoh (take 4 (drop 4 data)) = GOT_PACKFILE_VERSION
  /\ betoh (take 4 (drop 8 data)) = fanout_table packidx !!! 0xff%nat.
Proof.
  unfold read_packfile_hdr, fread. cbn [f_pos f_data].
  change (Z.to_nat 0) with 0%nat. rewrite drop_0.
  change (12 =? 0) with false. cbv iota.
  set (n := Z.min 1 (Z.of_nat (length data) / 12)).
  assert (Hn : 0 <= Z.of_nat (length data) / 12) by (apply Z.div_pos; lia).
  destruct (Z.eq_dec n 1) as [E|E].
  - rewrite E. change (Z.to_nat (1 * 12)) with 12%nat.
    assert (Hlen : (12 <= length data)%nat).
    { subst n. assert (1 <= Z.of_nat (length data) / 12) by lia.
      pose proof (Z.mul_div_le (Z.of_nat (length data)) 12). lia. }
    replace (Z.min (12 * 1) (Z.of_nat (length data))) with 12 by lia.
    rewrite take_take. change (4 `min` 12)%nat with 4%nat.
    replace (drop 4 (take 12 data)) with (take 8 (drop 4 data))
      by (rewrite take_drop_commute; reflexivity).
    replace (drop 8 (take 12 data)) with (take 4 (drop 8 data))
      by (rewrite take_drop_commute; reflexivity).
    rewrite !take_take. change (4 `min` 8)%nat with 4%nat.
    change (4 `min` 4)%nat with 4%nat.
    destruct (negb _ || negb _ || negb _) eqn:Eb; [discriminate|].
    intros [= _ Hf]. change (0 + 12) with 12 in Hf. symmetry in Hf.
    apply orb_false_elim in Eb as [Eb E3].
    apply orb_false_elim in Eb as [E1 E2].
    apply negb_false_iff, Z.eqb_eq in E1, E2, E3.
    repeat split; assumption.
  - destruct n as [|p|p]; try discriminate; destruct p; try discriminate.
    congruence.
Qed.

(** X18: [open_packfile] hands out a pack file only after it has checked
    the file's header against the index. A stream that is not taken from
    the pack cache is a new stream on the file
    [<git dir>/objects/pack/pack-<pack digest>.pack], placed behind the
    12-byte header, and that header holds the signature 'PACK', version 2
    and the object count of the index. A cached stream belongs to a slot of
    the pack cache whose index has the same trailer, and nothing is opened. *)
Theorem open_packfile_verified (packidx : got_packidx_v2_hdr) (s s' : state)
    (f : nat) (path : string) (cached : bool) :
  open_packfile packidx s = Done (f, path, cached) s' ->
  if cached then
    s' = s
    /\ exists e p, e ∈ pack_cache (st_repo s) /\ pc_packidx e = Some p
                   /\ trailer p = trailer packidx
                   /\ pc_packfile e = f /\ pc_path_packfile e = path
  else
    path = (path_git_dir (st_repo s) +:+ "/objects/pack") +:+ "/" +:+ GOT_PACK_PREFIX
             +:+ got_sha1_digest_to_str (packfile_sha1 (trailer packidx))
             +:+ GOT_PACKFILE_SUFFIX
    /\ exists data,
         st_fs s !! path = Some data /\ (12 <= length data)%nat
         /\ betoh (take 4 data) = GOT_PACKFILE_SIGNATURE
         /\ betoh (take 4 (drop 4 data)) = GOT_PACKFILE_VERSION
         /\ betoh (take 4 (drop 8 data)) = fanout_table packidx !!! 0xff%nat
         /\ f = st_next s
         /\ st_open s' = <[f := mkFILE data 12]> (st_open s).
Proof.
  unfold open_packfile. intros H. step H as repo s1 H1. injection H1 as <- <-.
  destruct (find_cached_packfile (pack_cache (st_repo s)) packidx) as [[f0 p0]|] eqn:Ef.
  - apply mret_Done in H as [[= <- <- <-] <-].
    split; [reflexivity|]. apply find_cached_packfile_Some. exact Ef.
  - step H as path0 s1 H1.
    apply get_packfile_path_Done in H1 as (Hpath & Hfs1 & Hop1 & Hnx1 & Hrp1).
    step H as pf s2 H2. destruct pf as [pf|]; [|discriminate H].
    apply fopen_Done in H2 as (data & Hdata & Hpf & Hnx2 & Hrp2 & Hfs2 & Hop2).
    step H as r s3 H3. destruct r as [u|e].
    + apply mret_Done in H as [[= <- <- <-] <-].
      apply attempt_Done in H3. unfold on_file_err in H3.
      step H3 as r s4 H4.
      apply on_file_Done in H4 as (fl & Hfl & Hr & ->).
      rewrite Hop2, lookup_insert_eq in Hfl. injection Hfl as <-.
      destruct r as [u'|e]; [|discriminate H3].
      apply mret_Done in H3 as [_ <-].
      destruct (read_packfile_hdr packidx (mkFILE data 0)) as [r' f'] eqn:Er.
      cbn [fst snd] in Hr |- *. subst r'.
      apply read_packfile_hdr_Ok in Er as (-> & Hlen & E1 & E2 & E3).
      split; [exact Hpath|]. exists data.
      rewrite <- Hfs1. repeat split; try assumption.
      * congruence.
      * cbn [st_open set_stream]. rewrite Hop2, insert_insert_eq, Hop1.
        rewrite Hpf, Hnx1. reflexivity.
    + step H as u s4 H4. discriminate H.
Qed.

Lemma open_packfile_verified_witness :
  exists s',
    open_packfile packidx_chain (state_chain_on_disk []) = Done (0%nat, path_chain, false) s'
    /\ st_open s' = <[0%nat := mkFILE pack_chain 12]> ∅.
Proof.
  assert (H : exists s', open_packfile packidx_chain (state_chain_on_disk [])
                         = Done (0%nat, path_chain, false) s')
    by (vm_compute; eexists; reflexivity).
  destruct H as [s' H]. exists s'. split; [exact H|].
  destruct (open_packfile_verified _ _ _ _ _ _ H) as (_ & data & Hd & _ & _ & _ & _ & _ & Ho).
  cbn [state_chain_on_disk st_fs] in Hd. rewrite lookup_insert_eq in Hd.
  injection Hd as <-. exact Ho.
Defined.

(** ** Errors of the first entry of a chain applied in memory *)

Section BaseErrors.

Variable inflate : list Z -> result (list Z * Z).
Variable cached_max : Z.

Lemma inflate_base_to_mem_Err (delta : got_delta) (packfile : nat) (max_size : Z)
    (s : state) (pf : FILE) (e : got_error_code) :
  st_open s !! packfile = Some pf ->
  inflate (drop (Z.to_nat (f_pos pf)) (f_data pf)) = Err e ->
  exists e' s', inflate_base_to_mem inflate delta packfile max_size s = Fail e' s'.
Proof.
  intros Hpf Hinf. unfold inflate_base_to_mem.
  assert (Hr : exists e1 s1, attempt (got_inflate_to_mem inflate packfile) s
                             = Done (Err e1) s1).
  { unfold attempt, got_inflate_to_mem.
    destruct (alloc_run s) as (b & s0 & Ha & _ & Ho).
    rewrite (bind_run _ _ _ _ _ Ha). destruct b; cbn [negb]; [|cbn; eauto].
    unfold on_file_err, on_file, mbind, M_bind. rewrite Ho, Hpf.
    unfold inflate_stream. rewrite Hinf. cbn. eauto. }
  destruct Hr as (e1 & s1 & Hr). rewrite (bind_run _ _ _ _ _ Hr).
  destruct (0 <? max_size).
  - destruct (alloc_run s1) as (b & s2 & Ha & _).
    unfold mbind at 1, M_bind at 1. rewrite (bind_run _ _ _ _ _ Ha).
    destruct b; cbn; eauto.
  - cbn. eauto.
Qed.

Lemma dump_delta_chain_to_file_loop_base_error (base : got_delta) (ds : list got_delta)
    (nentries max_size : Z) (outfile packfile : nat) (path_packfile : string)
    (v : dump_vars) (s : state) :
  v_n v = 0 -> v_base_file v = None ->
  base_unreadable inflate base packfile s ->
  dump_delta_chain_to_file_loop inflate (base :: ds) nentries max_size outfile packfile
    path_packfile v s = Undefined
  \/ exists e s', dump_delta_chain_to_file_loop inflate (base :: ds) nentries max_size
                    outfile packfile path_packfile v s = Done (Some e, v) s'.
Proof.
  intros Hn Hbf Hbad. cbn [dump_delta_chain_to_file_loop]. rewrite Hn, Hbf.
  change (0 =? 0) with true. cbv iota.
  destruct (is_plain_type (d_type base)) eqn:Ep; cbn [negb]; [|right; cbn; eauto].
  destruct (st_open s !! packfile) as [pf|] eqn:Epf.
  2: { left. unfold fseeko_h, on_file, mbind, M_bind. rewrite Epf. reflexivity. }
  destruct (d_offset base + d_tslen base <? 0) eqn:Eoff.
  { right.
    assert (Hseek : fseeko_h packfile (d_offset base + d_tslen base) s
                    = Done false (set_stream s packfile pf))
      by (unfold fseeko_h, on_file, fseeko; rewrite Epf, Eoff; reflexivity).
    rewrite (bind_run _ _ _ _ _ Hseek). cbn. eauto. }
  assert (Hseek : fseeko_h packfile (d_offset base + d_tslen base) s
                  = Done true (set_stream s packfile
                                 (mkFILE (f_data pf) (d_offset base + d_tslen base))))
    by (unfold fseeko_h, on_file, fseeko; rewrite Epf, Eoff; reflexivity).
  rewrite (bind_run _ _ _ _ _ Hseek). cbn [negb].
  apply Z.ltb_ge in Eoff.
  destruct Hbad as [Hbad|[Hbad|(pf' & e & Hpf' & Hinf)]]; [congruence|lia|].
  rewrite Epf in Hpf'. injection Hpf' as <-.
  destruct (inflate_base_to_mem_Err base packfile max_size
              (set_stream s packfile (mkFILE (f_data pf) (d_offset base + d_tslen base)))
              (mkFILE (f_data pf) (d_offset base + d_tslen base)) e)
    as (e' & s' & Hfail).
  - cbn [st_open set_stream]. apply lookup_insert_eq.
  - exact Hinf.
  - right. unfold mbind, M_bind, attempt. rewrite Hfail. cbn. eauto.
Qed.

(** X19: a chain that is applied in memory cannot report an error of its
    first entry. When the chain's largest size is below
    [GOT_DELTA_RESULT_SIZE_CACHED_MAX] and the base is not of a plain type,
    lies at a negative offset or does not inflate, the loop is left for the
    label [done] with [accum_buf] allocated and [accum_size] never assigned,
    and [fwrite] is called with that length: the behaviour is undefined
    and the error is not returned. Only a refused allocation of
    [accum_buf] is reported, as [GOT_ERR_NO_MEM]. *)
Theorem dump_delta_chain_to_file_base_error (deltas : got_delta_chain)
    (outfile packfile : nat) (path_packfile : string) (s s1 : state) (m : Z)
    (base : got_delta) (ds : list got_delta) :
  entries deltas = base :: ds ->
  get_delta_chain_max_size inflate deltas packfile s = Done m s1 ->
  m < cached_max ->
  base_unreadable inflate base packfile s1 ->
  dump_delta_chain_to_file inflate cached_max deltas outfile packfile path_packfile s
  = Undefined
  \/ exists s',
       dump_delta_chain_to_file inflate cached_max deltas outfile packfile path_packfile s
       = Fail GOT_ERR_NO_MEM s'.
Proof.
  intros Hent Hmax Hm Hbad. unfold dump_delta_chain_to_file. rewrite Hent.
  rewrite bool_decide_eq_false_2 by discriminate.
  rewrite (bind_run _ _ _ _ _ Hmax).
  assert (Hlt : (m <? cached_max) = true) by lia. rewrite Hlt.
  destruct (alloc_run s1) as (b & s2 & Ha & _ & Ho).
  destruct b.
  2: { right. exists s2. apply bind_Fail. rewrite (bind_run _ _ _ _ _ Ha). reflexivity. }
  left.
  assert (Hv : (alloc ≫= λ ok : bool,
                  if negb ok then fail GOT_ERR_NO_MEM
                  else mret (mkVars 0 None None None (Some []) None)) s1
               = Done (mkVars 0 None None None (Some []) None) s2)
    by (rewrite (bind_run _ _ _ _ _ Ha); reflexivity).
  rewrite (bind_run _ _ _ _ _ Hv).
  assert (Hbad2 : base_unreadable inflate base packfile s2).
  { destruct Hbad as [Hbad|[Hbad|(pf & e & Hpf & Hinf)]];
      [left; exact Hbad | right; left; exact Hbad | right; right].
    exists pf, e. rewrite Ho. auto. }
  destruct (dump_delta_chain_to_file_loop_base_error base ds (nentries deltas) m outfile
              packfile path_packfile (mkVars 0 None None None (Some []) None) s2
              eq_refl eq_refl Hbad2) as [Hu|(e & s3 & Hd)].
  - unfold mbind at 1, M_bind at 1. rewrite Hu. reflexivity.
  - rewrite (bind_run _ _ _ _ _ Hd). reflexivity.
Qed.

End BaseErrors.

Lemma dump_delta_chain_to_file_base_error_witness :
  dump_delta_chain_to_file stored_inflate 100 chain_bad_base 1 0 path_chain
    (state_with_pack pack_bad_base 0) = Undefined
  \/ exists s',
       dump_delta_chain_to_file stored_inflate 100 chain_bad_base 1 0 path_chain
         (state_with_pack pack_bad_base 0) = Fail GOT_ERR_NO_MEM s'.
Proof.
  assert (H : exists s1,
             get_delta_chain_max_size stored_inflate chain_bad_base 0
               (state_with_pack pack_bad_base 0) = Done 6 s1
             /\ exists pf, st_open s1 !! 0%nat = Some pf /\ f_data pf = pack_bad_base).
  { vm_compute. eexists. split; [reflexivity|].
    eexists. split; [vm_compute; reflexivity | reflexivity]. }
  destruct H as (s1 & Hmax & pf & Hpf & Hdata).
  apply (dump_delta_chain_to_file_base_error stored_inflate 100 chain_bad_base 1 0
           path_chain (state_with_pack pack_bad_base 0) s1 6
           (mkDelta path_chain 12 1 GOT_OBJ_TYPE_BLOB 4 0)
           [mkDelta path_chain 28 1 GOT_OBJ_TYPE_OFFSET_DELTA 7 30]).
  - reflexivity.
  - exact Hmax.
  - lia.
  - right. right. exists pf, GOT_ERR_IO. split; [exact Hpf|].
    rewrite Hdata. vm_compute. reflexivity.
Defined.

(** ** The streams of an extraction into a file *)

Lemma on_file_not_Fail {A : Type} (h : nat) (op : FILE -> A * FILE) (s s' : state)
    (e : got_error_code) :
  on_file h op s <> Fail e s'.
Proof.
  unfold on_file. destruct (st_open s !! h) as [f|]; [|discriminate].
  destruct (op f). discriminate.
Qed.

Lemma same_files_refl (v : dump_vars) : same_files v v.
Proof. left. split; reflexivity. Qed.

Lemma same_files_trans (v1 v2 v3 : dump_vars) :
  same_files v1 v2 -> same_files v2 v3 -> same_files v1 v3.
Proof.
  unfold same_files. intros [[H1 H2]|[H1 H2]] [[H3 H4]|[H3 H4]];
    rewrite H3, H4, H1, H2; auto.
Qed.

Section ExtractionToFile.

Variable inflate : list Z -> result (list Z * Z).
Variable P : nat -> Prop.
Variables outfile packfile : nat.
Hypothesis packfile_in : P packfile.
Hypothesis outfile_in : P outfile.

(** A step that cannot fail, before the rest of a loop body. *)
Lemma post_loop_bind {A B : Type} (m : M A) (k : A -> M B) (s : state)
    (R : B -> Prop) :
  only_streams P m -> (forall s0 e s1, m s0 <> Fail e s1) ->
  (forall a s1, post (k a) s1 (fun r s' => frame_on P s1 s' /\ R r) (fun _ _ => False)) ->
  post (m ≫= k) s (fun r s' => frame_on P s s' /\ R r) (fun _ _ => False).
Proof.
  intros Hm Hnf Hk. unfold post, mbind, M_bind.
  destruct (m s) as [a s1|e s1| |] eqn:E; [|exact (Hnf _ _ _ E)|exact I|exact I].
  pose proof (only_streams_Done _ _ _ _ _ Hm E) as Hf.
  specialize (Hk a s1). unfold post in Hk.
  destruct (k a s1) as [b s2|e s2| |]; [|exact Hk|exact I|exact I].
  destruct Hk as [Hf2 HR]. split; [|exact HR]. eapply frame_on_trans; eassumption.
Qed.

Lemma post_ret_bind {A B : Type} (a : A) (k : A -> M B) (s : state)
    (Q : B -> state -> Prop) (E : got_error_code -> state -> Prop) :
  post (k a) s Q E -> post (mret a ≫= k) s Q E.
Proof. intros H. exact H. Qed.

Lemma post_bind_assoc {A B C : Type} (m : M A) (f : A -> M B) (k : B -> M C)
    (s : state) (Q : C -> state -> Prop) (E : got_error_code -> state -> Prop) :
  post (m ≫= fun a => f a ≫= k) s Q E -> post ((m ≫= f) ≫= k) s Q E.
Proof. unfold post, mbind, M_bind. destruct (m s); auto. Qed.

Lemma post_loop_ret {B : Type} (b : B) (s : state) (R : B -> Prop) :
  R b -> post (mret b) s (fun r s' => frame_on P s s' /\ R r) (fun _ _ => False).
Proof. intros HR. split; [apply frame_on_refl | exact HR]. Qed.

Lemma only_streams_got_inflate_to_file (f out : nat) :
  P f -> P out -> only_streams P (got_inflate_to_file inflate f out).
Proof.
  intros Hf Ho. unfold got_inflate_to_file, on_file_err. only_streams; assumption.
Qed.

Lemma only_streams_got_delta_apply (base_file out : nat) (delta_buf : list Z) :
  P base_file -> P out -> only_streams P (got_delta_apply base_file delta_buf out).
Proof. intros Hb Ho. unfold got_delta_apply. only_streams; assumption. Qed.

Lemma dump_delta_chain_to_file_loop_streams (ds : list got_delta)
    (nentries max_size : Z) (path_packfile : string) :
  forall (v : dump_vars) (s : state),
    (forall h, v_base_file v = Some h -> P h) ->
    (forall h, v_accum_file v = Some h -> P h) ->
    post (dump_delta_chain_to_file_loop inflate ds nentries max_size outfile packfile
            path_packfile v) s
      (fun r s' => frame_on P s s' /\ same_files v r.2) (fun _ _ => False).
Proof.
  induction ds as [|delta ds IH]; intros v s Hb Ha;
    cbn [dump_delta_chain_to_file_loop].
  { apply post_loop_ret. apply same_files_refl. }
  destruct (v_n v =? 0).
  - destruct (negb (is_plain_type (d_type delta)));
      [apply post_loop_ret, same_files_refl|].
    apply post_loop_bind;
      [apply only_streams_fseeko_h; exact packfile_in
      | intros; apply on_file_not_Fail |].
    intros ok s1. destruct (negb ok); [apply post_loop_ret, same_files_refl|].
    destruct (v_base_file v) as [base_file|] eqn:Ebf.
    + apply post_loop_bind;
        [apply only_streams_attempt, only_streams_got_inflate_to_file;
           [exact packfile_in | apply Hb; reflexivity]
        | intros; apply attempt_not_Fail |].
      intros r s2. destruct r as [n|e]; [|apply post_loop_ret, same_files_refl].
      apply post_loop_bind;
        [apply only_streams_on_file, Hb; reflexivity
        | intros; apply on_file_not_Fail |].
      intros u s3.
      eapply post_weaken; [apply IH | |]; cbn [v_base_file v_accum_file].
      * intros h [= <-]. apply Hb. reflexivity.
      * exact Ha.
      * cbv beta. intros r s' [Hf Hs]. split; [exact Hf|].
        eapply same_files_trans; [|exact Hs]. left. cbn. rewrite Ebf. auto.
      * intros e s' [].
    + apply post_loop_bind;
        [apply only_streams_attempt, only_streams_inflate_base_to_mem; exact packfile_in
        | intros; apply attempt_not_Fail |].
      intros r s2. destruct r as [base|e]; [|apply post_loop_ret, same_files_refl].
      eapply post_weaken; [apply IH | |]; cbn [v_base_file v_accum_file].
      * intros h [=].
      * exact Ha.
      * cbv beta. intros r s' [Hf Hs]. split; [exact Hf|].
        eapply same_files_trans; [|exact Hs]. left. cbn. rewrite Ebf. auto.
      * intros e s' [].
  - apply post_loop_bind;
      [apply only_streams_attempt, only_streams_cached_delta_buf; exact packfile_in
      | intros; apply attempt_not_Fail |].
    intros r s1. destruct r as [delta_buf|e]; [|apply post_loop_ret, same_files_refl].
    cbv zeta.
    destruct (v_base_buf v) as [base_buf|] eqn:Ebb.
    + destruct (got_delta_apply_in_mem base_buf delta_buf) as [out|e];
        apply post_ret_bind; cbv iota beta;
        [|apply post_loop_ret; left; split; reflexivity].
      destruct (v_n v + 1 <? nentries); cbn [v_base_buf v_base_file v_accum_file];
        (eapply post_weaken; [apply IH | |]; cbn [v_base_file v_accum_file];
         [ exact Hb | exact Ha
         | cbv beta; intros r s' [Hf Hs]; split; [exact Hf|];
           eapply same_files_trans; [|exact Hs]; left; split; reflexivity
         | intros e s' [] ]).
    + destruct (v_base_file v) as [base_file|] eqn:Ebf; [|exact I].
      destruct (v_accum_file v) as [accum_file|] eqn:Eaf; [|exact I].
      apply post_bind_assoc.
      apply post_loop_bind;
        [apply only_streams_attempt, only_streams_got_delta_apply;
           [apply Hb; reflexivity
           | destruct (v_n v + 1 <? nentries); [apply Ha; reflexivity | exact outfile_in]]
        | intros; apply attempt_not_Fail |].
      intros r s2. destruct r as [u|e]; apply post_ret_bind; cbv iota beta;
        [|apply post_loop_ret; left; cbn; rewrite Ebf, Eaf; split; reflexivity].
      destruct (v_n v + 1 <? nentries); cbn [v_base_buf v_base_file v_accum_file].
      * apply post_loop_bind;
          [apply only_streams_on_file, Ha; reflexivity
          | intros; apply on_file_not_Fail |].
        intros u1 s3.
        apply post_loop_bind;
          [apply only_streams_on_file, Hb; reflexivity
          | intros; apply on_file_not_Fail |].
        intros u2 s4.
        eapply post_weaken; [apply IH | |]; cbn [v_base_file v_accum_file].
        -- intros h [= <-]. apply Ha. reflexivity.
        -- intros h [= <-]. apply Hb. reflexivity.
        -- cbv beta. intros r s' [Hf Hs]. split; [exact Hf|].
           eapply same_files_trans; [|exact Hs]. right. cbn. rewrite Ebf, Eaf. auto.
        -- intros e s' [].
      * eapply post_weaken; [apply IH | |]; cbn [v_base_file v_accum_file].
        -- intros h [= <-]. apply Hb. reflexivity.
        -- intros h [= <-]. apply Ha. reflexivity.
        -- cbv beta. intros r s' [Hf Hs]. split; [exact Hf|].
           eapply same_files_trans; [|exact Hs]. left. cbn. rewrite Ebf, Eaf. auto.
        -- intros e s' [].
Qed.

End ExtractionToFile.

Lemma post_step {A B : Type} (m : M A) (k : A -> M B) (s : state)
    (Q : B -> state -> Prop) (E : got_error_code -> state -> Prop) :
  (forall e s1, m s = Fail e s1 -> E e s1) ->
  (forall a s1, m s = Done a s1 -> post (k a) s1 Q E) ->
  post (m ≫= k) s Q E.
Proof.
  intros Hf Hk. unfold post, mbind, M_bind.
  destruct (m s) as [a s1|e s1| |] eqn:Em; [|exact (Hf _ _ eq_refl)|exact I|exact I].
  apply Hk. reflexivity.
Qed.

Lemma fclose_if_open_Done (x : option nat) (s s' : state) (u : unit) :
  fclose_if_open x s = Done u s' ->
  st_next s' = st_next s
  /\ st_open s' = match x with Some h => delete h (st_open s) | None => st_open s end.
Proof.
  destruct x as [h|]; cbn [fclose_if_open]; intros H.
  - destruct u. apply fclose_Done in H as (Ho & Hn & _). auto.
  - apply mret_Done in H as [_ <-]. auto.
Qed.

Lemma fclose_if_open_not_Fail (x : option nat) (s s' : state) (e : got_error_code) :
  fclose_if_open x s <> Fail e s'.
Proof. destruct x; [apply fclose_not_Fail | discriminate]. Qed.

(** The label [done] of [dump_delta_chain_to_file]: the temporary files
    are closed, the output file is open, no other stream changes. *)
Lemma dump_done_streams (err : option got_error_code) (v : dump_vars) (outfile : nat)
    (s : state) :
  v_base_file v <> Some outfile -> v_accum_file v <> Some outfile ->
  let R := fun s' : state =>
    st_next s' = st_next s
    /\ is_Some (st_open s' !! outfile)
    /\ (forall h, h <> outfile -> v_base_file v <> Some h -> v_accum_file v <> Some h ->
                  st_open s' !! h = st_open s !! h)
    /\ (forall h, v_base_file v = Some h \/ v_accum_file v = Some h ->
                  st_open s' !! h = None) in
  post (_ ← match v_accum_buf v with
            | Some accum_buf =>
                match v_accum_size v with
                | None => undefined
                | Some accum_size =>
                    if accum_size >? Z.of_nat (length accum_buf) then undefined
                    else on_file outfile
                           (fun f => ((), fwrite (take (Z.to_nat accum_size) accum_buf) f))
                end
            | None => mret ()
            end;
        _ ← fclose_if_open (v_base_file v);
        _ ← fclose_if_open (v_accum_file v);
        _ ← on_file outfile (fun f => ((), rewind f));
        match err with Some e => fail e | None => mret () end) s
    (fun _ s' => R s') (fun _ s' => R s').
Proof.
  intros Hbo Hao R.
  apply post_step.
  { intros e s1 H. exfalso. revert H.
    destruct (v_accum_buf v); [destruct (v_accum_size v); [destruct (_ >? _)|]|];
      try discriminate. apply on_file_not_Fail. }
  intros u1 s1 H1.
  assert (F1 : st_next s1 = st_next s
               /\ forall h, h <> outfile -> st_open s1 !! h = st_open s !! h).
  { destruct (v_accum_buf v); [destruct (v_accum_size v); [destruct (_ >? _)|]|];
      try discriminate H1.
    - apply on_file_Done in H1 as (f & Hf & _ & ->). split; [reflexivity|].
      intros h Hh. cbn [st_open set_stream]. apply lookup_insert_ne. congruence.
    - apply mret_Done in H1 as [_ <-]. auto. }
  destruct F1 as [N1 F1].
  apply post_step; [intros e s2 H; exfalso; exact (fclose_if_open_not_Fail _ _ _ _ H)|].
  intros u2 s2 H2. apply fclose_if_open_Done in H2 as [N2 H2].
  apply post_step; [intros e s3 H; exfalso; exact (fclose_if_open_not_Fail _ _ _ _ H)|].
  intros u3 s3 H3. apply fclose_if_open_Done in H3 as [N3 H3].
  apply post_step; [intros e s4 H; exfalso; exact (on_file_not_Fail _ _ _ _ _ H)|].
  intros u4 s4 H4. apply on_file_Done in H4 as (f & Hf & _ & ->).
  assert (HR : R (set_stream s3 outfile (rewind f))).
  { subst R. cbn [st_open st_next set_stream]. split; [congruence|].
    split; [rewrite lookup_insert_eq; eauto|]. split.
    - intros h Hh Hb Ha. rewrite lookup_insert_ne by congruence.
      rewrite H3. destruct (v_accum_file v) as [a|].
      + rewrite lookup_delete_ne by congruence. rewrite H2.
        destruct (v_base_file v) as [b|]; [rewrite lookup_delete_ne by congruence|];
          apply F1, Hh.
      + rewrite H2.
        destruct (v_base_file v) as [b|]; [rewrite lookup_delete_ne by congruence|];
          apply F1, Hh.
    - intros h Hh. assert (Hne : h <> outfile) by (destruct Hh; congruence).
      rewrite lookup_insert_ne by congruence. rewrite H3.
      destruct (v_accum_file v) as [a|].
      + destruct (decide (a = h)) as [->|Hah]; [apply lookup_delete_eq|].
        rewrite lookup_delete_ne by exact Hah. rewrite H2.
        destruct Hh as [Hh|Hh]; [|congruence].
        rewrite Hh. apply lookup_delete_eq.
      + destruct Hh as [Hh|Hh]; [|discriminate Hh].
        rewrite H2, Hh. apply lookup_delete_eq. }
  destruct err; exact HR.
Qed.

Lemma post_fail_bind {A B : Type} (e : got_error_code) (k : A -> M B) (s : state)
    (Q : B -> state -> Prop) (E : got_error_code -> state -> Prop) :
  E e s -> post (fail e ≫= k) s Q E.
Proof. intros H. exact H. Qed.

Lemma got_opentemp_None (s s' : state) :
  got_opentemp s = Done None s' -> st_next s' = st_next s /\ st_open s' = st_open s.
Proof.
  unfold got_opentemp. intros H. step H as ok s1 H1.
  apply alloc_Done_full in H1 as (_ & Ho & Hn & _).
  destruct ok.
  - step H as h s2 H2. apply mret_Done in H as [[=] _].
  - apply mret_Done in H as [_ <-]. auto.
Qed.

Lemma got_opentemp_not_Fail (s s' : state) (e : got_error_code) :
  got_opentemp s <> Fail e s'.
Proof.
  unfold got_opentemp, mbind, M_bind, alloc.
  destruct (st_oracle s) as [|[] o]; discriminate.
Qed.

Lemma wf_streams_frame_on (P : nat -> Prop) (s s' : state) :
  wf_streams s -> (forall h, P h -> (h < st_next s)%nat) -> frame_on P s s' ->
  wf_streams s'.
Proof.
  intros Hwf HP [Hn Ho] h Hh. rewrite Hn in Hh.
  rewrite Ho; [apply Hwf, Hh|]. intros HPh. apply HP in HPh. lia.
Qed.

Lemma frame_on_tidy (P : nat -> Prop) (s s' : state) :
  wf_streams s -> (forall h, P h -> (h < st_next s)%nat) -> frame_on P s s' ->
  tidy P s s'.
Proof.
  intros Hwf HP [Hn Ho]. split.
  - intros h _ Hh. apply Ho, Hh.
  - intros h Hh. rewrite Ho; [apply Hwf, Hh|]. intros HPh. apply HP in HPh. lia.
Qed.

Lemma tidy_frame_l (P : nat -> Prop) (s s1 s' : state) :
  frame_on P s s1 -> tidy P s1 s' -> tidy P s s'.
Proof.
  intros [Hn Ho] [H1 H2]. rewrite Hn in H1, H2. split; [|exact H2].
  intros h Hh HP. rewrite H1 by assumption. apply Ho, HP.
Qed.

Section DumpToFile.

Variable inflate : list Z -> result (list Z * Z).
Variable cached_max : Z.
Variables outfile packfile : nat.

Lemma dump_delta_chain_to_file_tidy (deltas : got_delta_chain) (path_packfile : string)
    (s : state) :
  wf_streams s -> (packfile < st_next s)%nat -> (outfile < st_next s)%nat ->
  post (dump_delta_chain_to_file inflate cached_max deltas outfile packfile path_packfile) s
    (fun _ s' => tidy (fun h => h = packfile \/ h = outfile) s s'
                 /\ is_Some (st_open s' !! outfile))
    (fun _ s' => tidy (fun h => h = packfile \/ h = outfile) s s').
Proof.
  set (P0 := fun h => h = packfile \/ h = outfile).
  intros Hwf Hp Ho.
  assert (HP0 : forall s0, st_next s0 = st_next s -> forall h, P0 h -> (h < st_next s0)%nat)
    by (intros s0 E h [->| ->]; lia).
  unfold dump_delta_chain_to_file.
  destruct (bool_decide (entries deltas = [])).
  { apply frame_on_tidy; [exact Hwf | apply HP0; reflexivity | apply frame_on_refl]. }
  apply post_step.
  { intros e s1 H. apply frame_on_tidy; [exact Hwf | apply HP0; reflexivity |].
    eapply only_streams_Fail; [|exact H].
    apply only_streams_get_delta_chain_max_size. left. reflexivity. }
  intros m s1 H1.
  assert (F1 : frame_on P0 s s1).
  { eapply only_streams_Done; [|exact H1].
    apply only_streams_get_delta_chain_max_size. left. reflexivity. }
  assert (Hwf1 : wf_streams s1)
    by (eapply wf_streams_frame_on; [exact Hwf | apply HP0; reflexivity | exact F1]).
  assert (N1 : st_next s1 = st_next s) by apply F1.
  apply (post_weaken _ _
           (fun _ s' => tidy P0 s1 s' /\ is_Some (st_open s' !! outfile)) _
           (fun _ s' => tidy P0 s1 s') _);
    [| intros a s' [Ht Hs]; split; [eapply tidy_frame_l; eassumption | exact Hs]
     | intros e s' Ht; eapply tidy_frame_l; eassumption ].
  clear H1 F1 Hwf. revert Hwf1 N1. generalize s1. clear s1. intros s1 Hwf1 N1.
  destruct (m <? cached_max).
  - apply post_bind_assoc. apply post_step;
      [intros e s2 H; exfalso; exact (alloc_not_Fail _ _ _ H)|].
    intros ok s2 H2. apply alloc_Done_full in H2 as (_ & O2 & N2 & _).
    destruct ok; cbn [negb].
    + apply post_ret_bind.
      pose proof (dump_delta_chain_to_file_loop_streams inflate P0 outfile packfile
                    (or_introl eq_refl) (or_intror eq_refl) (entries deltas)
                    (nentries deltas) m path_packfile
                    (mkVars 0 None None None (Some []) None) s2) as L.
      cbn [v_base_file v_accum_file] in L.
      specialize (L ltac:(discriminate) ltac:(discriminate)). unfold post in L.
      apply post_step; [intros e s3 H; rewrite H in L; destruct L|].
      intros [err v'] s3 H3. rewrite H3 in L. destruct L as [[N3 F3] Hs].
      cbn [snd] in Hs.
      assert (Hfiles : v_base_file v' = None /\ v_accum_file v' = None)
        by (destruct Hs as [[-> ->]|[-> ->]]; auto).
      destruct Hfiles as [Hbf Haf].
      eapply post_weaken; [apply dump_done_streams; congruence | |];
        cbv beta; intros _ s' (N' & Hopen & Hsame & _).
      * split; [|exact Hopen]. split.
        -- intros h Hh HP. rewrite Hsame; [| |congruence|congruence].
           ++ rewrite F3 by exact HP. rewrite O2. reflexivity.
           ++ intros ->. apply HP. right. reflexivity.
        -- intros h Hh.
           assert (HP : ~ P0 h) by (intros HP; apply (HP0 s1 N1) in HP; lia).
           rewrite Hsame; [| |congruence|congruence].
           ++ rewrite F3 by exact HP. rewrite O2. apply Hwf1, Hh.
           ++ intros ->. apply HP. right. reflexivity.
      * split.
        -- intros h Hh HP. rewrite Hsame; [| |congruence|congruence].
           ++ rewrite F3 by exact HP. rewrite O2. reflexivity.
           ++ intros ->. apply HP. right. reflexivity.
        -- intros h Hh.
           assert (HP : ~ P0 h) by (intros HP; apply (HP0 s1 N1) in HP; lia).
           rewrite Hsame; [| |congruence|congruence].
           ++ rewrite F3 by exact HP. rewrite O2. apply Hwf1, Hh.
           ++ intros ->. apply HP. right. reflexivity.
    + apply post_fail_bind. split.
      * intros h _ _. rewrite O2. reflexivity.
      * intros h Hh. rewrite O2. apply Hwf1, Hh.
  - apply post_bind_assoc. apply post_step;
      [intros e s2 H; exfalso; exact (got_opentemp_not_Fail _ _ _ H)|].
    intros [b|] s2 H2.
    2: { apply got_opentemp_None in H2 as [N2 O2]. apply post_fail_bind. split.
         - intros h _ _. rewrite O2. reflexivity.
         - intros h Hh. rewrite O2. apply Hwf1, Hh. }
    apply got_opentemp_Done in H2 as (Eb & N2 & _ & _ & O2).
    apply post_bind_assoc. apply post_step;
      [intros e s3 H; exfalso; exact (got_opentemp_not_Fail _ _ _ H)|].
    intros [a|] s3 H3.
    2: { apply got_opentemp_None in H3 as [N3 O3].
         apply post_bind_assoc.
         apply post_step; [intros e s4 H; exfalso; exact (fclose_not_Fail _ _ _ _ H)|].
         intros [] s4 H4. apply fclose_Done in H4 as (O4 & _ & _).
         apply post_fail_bind. rewrite O3, O2 in O4. split; rewrite O4.
         - intros h Hh _. rewrite lookup_delete_ne, lookup_insert_ne by lia. reflexivity.
         - intros h Hh. destruct (decide (b = h)) as [->|Hne];
             [apply lookup_delete_eq|].
           rewrite lookup_delete_ne, lookup_insert_ne by exact Hne. apply Hwf1, Hh. }
    apply got_opentemp_Done in H3 as (Ea & N3 & _ & _ & O3).
    apply post_ret_bind.
    set (P1 := fun h => P0 h \/ h = b \/ h = a).
    pose proof (dump_delta_chain_to_file_loop_streams inflate P1 outfile packfile
                  (or_introl (or_introl eq_refl)) (or_introl (or_intror eq_refl))
                  (entries deltas) (nentries deltas) m path_packfile
                  (mkVars 0 (Some b) (Some a) None None None) s3) as L.
    cbn [v_base_file v_accum_file] in L.
    assert (Lb : forall h, Some b = Some h -> P1 h)
      by (intros h [= <-]; right; left; reflexivity).
    assert (La : forall h, Some a = Some h -> P1 h)
      by (intros h [= <-]; right; right; reflexivity).
    specialize (L Lb La). unfold post in L.
    apply post_step; [intros e s4 H; rewrite H in L; destruct L|].
    intros [err v'] s4 H4. rewrite H4 in L. destruct L as [[N4 F4] Hs].
    cbn [snd] in Hs.
    assert (Hfiles : (v_base_file v' = Some b /\ v_accum_file v' = Some a)
                     \/ (v_base_file v' = Some a /\ v_accum_file v' = Some b))
      by (destruct Hs as [[-> ->]|[-> ->]]; auto).
    assert (Hlow : forall h, (h < st_next s1)%nat -> h <> b /\ h <> a) by (intros; lia).
    assert (Hno : forall h, h <> b -> h <> a ->
                    v_base_file v' <> Some h /\ v_accum_file v' <> Some h)
      by (intros h Hb Ha; destruct Hfiles as [[-> ->]|[-> ->]]; split; congruence).
    assert (Hyes : forall h, h = b \/ h = a ->
                     v_base_file v' = Some h \/ v_accum_file v' = Some h)
      by (intros h [->| ->]; destruct Hfiles as [[-> ->]|[-> ->]]; auto).
    assert (Hout : outfile <> b /\ outfile <> a) by (apply Hlow; lia).
    assert (Hbase : forall h, ~ P0 h -> h <> b -> h <> a ->
                      st_open s4 !! h = st_open s1 !! h).
    { intros h HP Hb Ha. rewrite F4 by (unfold P1; tauto).
      rewrite O3, lookup_insert_ne by congruence.
      rewrite O2, lookup_insert_ne by congruence. reflexivity. }
    assert (Htidy : forall s',
               (forall h, h <> outfile -> v_base_file v' <> Some h ->
                          v_accum_file v' <> Some h -> st_open s' !! h = st_open s4 !! h) ->
               (forall h, v_base_file v' = Some h \/ v_accum_file v' = Some h ->
                          st_open s' !! h = None) ->
               tidy P0 s1 s').
    { intros s' Hsame Hclosed. split.
      - intros h Hh HP. destruct (Hlow h Hh) as [Hb Ha].
        destruct (Hno h Hb Ha) as [Hb' Ha'].
        rewrite Hsame; [apply Hbase; assumption | | exact Hb' | exact Ha'].
        intros ->. apply HP. right. reflexivity.
      - intros h Hh.
        destruct (decide (h = b)) as [Hb|Hb]; [apply Hclosed, Hyes; auto|].
        destruct (decide (h = a)) as [Ha|Ha]; [apply Hclosed, Hyes; auto|].
        destruct (Hno h Hb Ha) as [Hb' Ha'].
        assert (HP : ~ P0 h) by (intros HP; apply (HP0 s1 N1) in HP; lia).
        rewrite Hsame; [| | exact Hb' | exact Ha'].
        + rewrite Hbase by assumption. apply Hwf1, Hh.
        + intros ->. apply HP. right. reflexivity. }
    destruct (Hno outfile (proj1 Hout) (proj2 Hout)) as [Hbo Hao].
    eapply post_weaken; [apply dump_done_streams; assumption | |];
      cbv beta; intros _ s' (N' & Hopen & Hsame & Hclosed).
    + split; [apply Htidy; assumption | exact Hopen].
    + apply Htidy; assumption.
Qed.

End DumpToFile.

Lemma fopen_not_Fail (path : string) (s s' : state) (e : got_error_code) :
  fopen path s <> Fail e s'.
Proof. unfold fopen. destruct (st_fs s !! path); discriminate. Qed.

Lemma fopen_None (path : string) (s s' : state) :
  fopen path s = Done None s' -> s' = s.
Proof.
  unfold fopen. destruct (st_fs s !! path); [discriminate|]. intros [= <-]. reflexivity.
Qed.

Section ExtractionToFileStreams.

Variable inflate : list Z -> result (list Z * Z).
Variable cached_max : Z.

(** What [got_packfile_extract_object] runs between opening and closing
    the pack file. *)
Lemma extract_body_tidy (obj : got_object) (f packfile : nat) (s : state) :
  wf_streams s -> (packfile < st_next s)%nat -> (f < st_next s)%nat ->
  post (if Z.land (o_flags obj) GOT_OBJ_FLAG_DELTIFIED =? 0 then
          ok ← fseeko_h packfile (o_pack_offset obj);
          if negb ok then fail GOT_ERR_ERRNO else
          got_inflate_to_file inflate packfile f
        else
          _ ← dump_delta_chain_to_file inflate cached_max (o_deltas obj) f packfile
                (o_path_packfile obj);
          mret (o_size obj)) s
    (fun _ s' => tidy (fun h => h = packfile \/ h = f) s s' /\ is_Some (st_open s' !! f))
    (fun _ s' => tidy (fun h => h = packfile \/ h = f) s s').
Proof.
  set (P0 := fun h => h = packfile \/ h = f).
  intros Hwf Hp Hf.
  assert (HP0 : forall h, P0 h -> (h < st_next s)%nat) by (intros h [->| ->]; lia).
  destruct (Z.land (o_flags obj) GOT_OBJ_FLAG_DELTIFIED =? 0).
  - assert (Hs : only_streams P0
                   (ok ← fseeko_h packfile (o_pack_offset obj);
                    if negb ok then fail GOT_ERR_ERRNO
                    else got_inflate_to_file inflate packfile f)).
    { apply only_streams_bind; [apply only_streams_fseeko_h; left; reflexivity|].
      intros ok. destruct (negb ok); [apply only_streams_fail|].
      apply only_streams_got_inflate_to_file; [left | right]; reflexivity. }
    unfold post.
    destruct ((fseeko_h packfile (o_pack_offset obj) ≫= _) s) as [size s'|e s'| |] eqn:H;
      [|apply frame_on_tidy; [exact Hwf | exact HP0 | exact (only_streams_Fail _ _ _ _ _ Hs H)]
       |exact I|exact I].
    split; [apply frame_on_tidy;
              [exact Hwf | exact HP0 | exact (only_streams_Done _ _ _ _ _ Hs H)]|].
    step H as ok s1 H1. destruct (negb ok); [discriminate H|].
    unfold got_inflate_to_file in H. step H as out s2 H2. step H as u s3 H3.
    apply mret_Done in H as [_ <-].
    apply on_file_Done in H3 as (fl & _ & _ & ->).
    cbn [st_open set_stream]. rewrite lookup_insert_eq. eauto.
  - apply post_bind.
    eapply post_weaken; [apply dump_delta_chain_to_file_tidy; assumption | |].
    + intros u s' H. exact H.
    + intros e s' H. exact H.
Qed.

Lemma got_packfile_extract_object_post (obj : got_object) (s : state) :
  wf_streams s ->
  post (got_packfile_extract_object inflate cached_max obj) s
    (fun r s' => r.1 = st_next s /\ exists out, st_open s' = <[r.1 := out]> (st_open s))
    (fun _ s' => st_open s' = st_open s).
Proof.
  intros Hwf. unfold got_packfile_extract_object.
  destruct (Z.land (o_flags obj) GOT_OBJ_FLAG_PACKED =? 0); [reflexivity|].
  apply post_step; [intros e s1 H; exfalso; exact (got_opentemp_not_Fail _ _ _ H)|].
  intros [f|] s1 H1.
  2: { apply got_opentemp_None in H1 as [_ O1]. exact O1. }
  apply got_opentemp_Done in H1 as (Ef & N1 & _ & _ & O1).
  apply post_step; [intros e s2 H; exfalso; exact (fopen_not_Fail _ _ _ _ H)|].
  intros [packfile|] s2 H2.
  2: { apply fopen_None in H2 as ->.
       apply post_step; [intros e s3 H; exfalso; exact (fclose_not_Fail _ _ _ _ H)|].
       intros [] s3 H3. apply fclose_Done in H3 as (O3 & _ & _).
       unfold post, fail. rewrite O3, O1. apply delete_insert_id, Hwf. lia. }
  apply fopen_Done in H2 as (data & _ & Ep & N2 & _ & _ & O2).
  assert (Hwf2 : wf_streams s2).
  { intros h Hh. rewrite O2, lookup_insert_ne by lia.
    rewrite O1, lookup_insert_ne by lia. apply Hwf. lia. }
  pose proof (extract_body_tidy obj f packfile s2 Hwf2 ltac:(lia) ltac:(lia)) as Hbody.
  apply post_step; [intros e s3 H; exfalso; exact (attempt_not_Fail _ _ _ _ H)|].
  intros r s3 H3. apply attempt_Done in H3.
  assert (Hold : forall h, h <> f -> h <> packfile ->
                   (delete packfile (st_open s3)) !! h = st_open s !! h).
  { intros h Hf Hp. rewrite lookup_delete_ne by congruence.
    assert (Ht : tidy (fun h => h = packfile \/ h = f) s2 s3).
    { unfold post in Hbody. destruct r as [size|e]; rewrite H3 in Hbody;
        [exact (proj1 Hbody) | exact Hbody]. }
    destruct Ht as [T1 T2].
    destruct (le_lt_dec (st_next s2) h) as [Hge|Hlt].
    - rewrite T2 by exact Hge. symmetry. apply Hwf. lia.
    - rewrite T1; [|exact Hlt|intros [?|?]; congruence].
      rewrite O2, lookup_insert_ne by congruence.
      rewrite O1, lookup_insert_ne by congruence. reflexivity. }
  apply post_step; [intros e s4 H; exfalso; exact (fclose_not_Fail _ _ _ _ H)|].
  intros [] s4 H4. apply fclose_Done in H4 as (O4 & _ & _).
  destruct r as [size|e].
  - unfold post in Hbody. rewrite H3 in Hbody. destruct Hbody as [_ [out Hout]].
    unfold post. cbn [mret M_ret fst]. split; [exact Ef|]. exists out.
    apply map_eq. intros h. rewrite O4.
    destruct (decide (h = f)) as [->|Hf].
    + rewrite lookup_delete_ne by lia. rewrite lookup_insert_eq. exact Hout.
    + rewrite lookup_insert_ne by congruence.
      destruct (decide (h = packfile)) as [->|Hp].
      * rewrite lookup_delete_eq. symmetry. apply Hwf. lia.
      * apply Hold; assumption.
  - apply post_step; [intros e' s5 H; exfalso; exact (fclose_not_Fail _ _ _ _ H)|].
    intros [] s5 H5. apply fclose_Done in H5 as (O5 & _ & _).
    unfold post, fail. apply map_eq. intros h. rewrite O5.
    destruct (decide (h = f)) as [->|Hf].
    + rewrite lookup_delete_eq. symmetry. apply Hwf. lia.
    + rewrite lookup_delete_ne by congruence. rewrite O4.
      destruct (decide (h = packfile)) as [->|Hp].
      * rewrite lookup_delete_eq. symmetry. apply Hwf. lia.
      * apply Hold; assumption.
Qed.

(** X20: [got_packfile_extract_object] accounts for every stream it opens.
    When it returns a file, that file is a stream newly opened by the call
    and the only stream the call leaves open: the pack file and, for a
    chain applied through temporary files, the two temporary files are
    closed again, and the streams that were open before are as they were.
    When it returns an error, it leaves the open streams exactly as they
    were on entry. *)
Theorem got_packfile_extract_object_streams (obj : got_object) (s : state) :
  wf_streams s ->
  (forall f size s',
     got_packfile_extract_object inflate cached_max obj s = Done (f, size) s' ->
     f = st_next s /\ exists out, st_open s' = <[f := out]> (st_open s))
  /\ (forall e s',
        got_packfile_extract_object inflate cached_max obj s = Fail e s' ->
        st_open s' = st_open s).
Proof.
  intros Hwf. pose proof (got_packfile_extract_object_post obj s Hwf) as H.
  unfold post in H. split.
  - intros f size s' E. rewrite E in H. exact H.
  - intros e s' E. rewrite E in H. exact H.
Qed.

End ExtractionToFileStreams.

Lemma got_packfile_extract_object_streams_witness :
  exists sf' out,
    got_packfile_extract_object stored_inflate 4 object_delta_2 (state_chain_on_disk [])
    = Done (0%nat, 0) sf'
    /\ st_open sf' = <[0%nat := out]> ∅.
Proof.
  assert (Hf : exists sf',
             got_packfile_extract_object stored_inflate 4 object_delta_2
               (state_chain_on_disk []) = Done (0%nat, 0) sf')
    by (vm_compute; eexists; reflexivity).
  destruct Hf as [sf' Hf].
  assert (Hwf : wf_streams (state_chain_on_disk [])) by (intros h _; reflexivity).
  destruct (got_packfile_extract_object_streams stored_inflate 4 object_delta_2
              (state_chain_on_disk []) Hwf) as [HD _].
  destruct (HD _ _ _ Hf) as [_ [out Hout]].
  exists sf', out. split; [exact Hf | exact Hout].
Defined.
